(** * Ambry library: catalog resolution and cache synchronisation

    A shallow embedding of [ambry/library/__init__.py] (class [Library]):
    the ledger of file records, the local cache, the remotes, and the
    operations [put_bundle], [put_partition], [remove], [has], [push],
    [sync_library] and [sync_remotes]; then the retrieval methods [get],
    [locate], [store], [manifest] and [versioned_datasets], the registry
    of libraries behind [new_library], and the parser of search phrases
    of [ambry/library/search.py].

    Python objects become records, the library database and the caches
    become fields of a [World], and every method becomes a computation in
    a state-and-exception monad: a raised exception keeps the side effects
    performed before it, as in Python.  Collaborators whose code is
    outside the module (the bundle loader, the resolver, the catalog
    database, the upstream store) are fields of an environment [Env]. *)

From stdpp Require Import gmap strings list fin_maps sorting.
From Stdlib Require Import NArith Ascii String.

Open Scope string_scope.
Open Scope list_scope.
Open Scope N_scope.

(** ** Regular expressions used by [sync_remotes]

    Two patterns occur in the source:
    - [re.sub(r'-\d+\.\d+\.\d+\.db', '', cache_key)]
    - [re.search(r'(\d+)\.db$', cache_key)]

    In both, every [\d+] is followed by a literal dot, which is not a
    digit: the greedy match of [\d+] is the longest run of digits and no
    shorter run can succeed after backtracking.  The matchers below read
    the longest run. *)

Module Re.

Definition is_digit (c : ascii) : bool :=
  (48 <=? N_of_ascii c) && (N_of_ascii c <=? 57).

Definition digit_val (c : ascii) : N := N_of_ascii c - 48.

(** The longest run of digits at the head of [s], and what follows it. *)
Fixpoint digits (s : string) : list ascii * string :=
  match s with
  | String c s' =>
      if is_digit c then (let '(ds, r) := digits s' in (c :: ds, r))
      else ([], s)
  | EmptyString => ([], s)
  end.

(** [\d+] : at least one digit. *)
Definition digits1 (s : string) : option (list ascii * string) :=
  match digits s with
  | ([], _) => None
  | (ds, r) => Some (ds, r)
  end.

(** A literal prefix; the result is the rest of the subject. *)
Fixpoint lit (p s : string) : option string :=
  match p, s with
  | EmptyString, _ => Some s
  | String a p', String b s' => if Ascii.eqb a b then lit p' s' else None
  | String _ _, EmptyString => None
  end.

(** [$] without [re.MULTILINE]: the end of the subject, or the position
    before a newline that ends the subject. *)
Definition at_end (s : string) : bool :=
  match s with
  | EmptyString => true
  | String c EmptyString => Ascii.eqb c "010"%char
  | _ => false
  end.

(** Python's [int] on a string of decimal digits. *)
Definition int (ds : list ascii) : N :=
  fold_left (fun acc c => 10 * acc + digit_val c) ds 0.

(** [(\d+)\.db$] anchored at the head of [s]: the value of group 1. *)
Definition version_at (s : string) : option N :=
  match digits1 s with
  | Some (ds, r) =>
      match lit ".db" r with
      | Some r' => if at_end r' then Some (int ds) else None
      | None => None
      end
  | None => None
  end.

(** [int(re.search(r'(\d+)\.db$', s).group(1))]: the leftmost match.
    [None] stands for the [AttributeError] of [.group] on a failed
    search. *)
Fixpoint search_version (s : string) : option N :=
  match version_at s with
  | Some v => Some v
  | None =>
      match s with
      | String _ s' => search_version s'
      | EmptyString => None
      end
  end.

(** [-\d+\.\d+\.\d+\.db] anchored at the head of [s]: the rest of the
    subject after the match. *)
Definition nv_at (s : string) : option string :=
  match lit "-" s with
  | Some r0 =>
    match digits1 r0 with
    | Some (_, r1) =>
      match lit "." r1 with
      | Some r2 =>
        match digits1 r2 with
        | Some (_, r3) =>
          match lit "." r3 with
          | Some r4 =>
            match digits1 r4 with
            | Some (_, r5) => lit ".db" r5
            | None => None
            end
          | None => None
          end
        | None => None
        end
      | None => None
      end
    | None => None
    end
  | None => None
  end.

(** [re.sub(r'-\d+\.\d+\.\d+\.db', '', s)]: every non-overlapping match,
    scanning from the left, is deleted.  [skip] counts the characters of
    the current match that are still to be dropped. *)
Fixpoint sub_nv (skip : nat) (s : string) : string :=
  match s with
  | EmptyString => EmptyString
  | String c s' =>
      match skip with
      | S k => sub_nv k s'
      | O =>
          match nv_at s with
          | Some r => sub_nv (String.length s - String.length r - 1) s'
          | None => String c (sub_nv 0 s')
          end
      end
  end.

Definition nv_key (cache_key : string) : string := sub_nv 0 cache_key.

End Re.

(** ** Exceptions and results *)

Inductive exn :=
| S3ResponseError
| NotABundle
| ConflictError
| NotFoundError
| ConfigurationError
| NotObjectNumberError
| SqliteDatabaseError
| OperationalError
| AttributeError
| UnboundLocalError
| NoResultFound
| MultipleResultsFound
| Exception (message : string).

#[global] Instance exn_eq_dec : EqDecision exn.
Proof. solve_decision. Defined.

Inductive result (A : Type) :=
| Ok (a : A)
| Raise (e : exn).
Arguments Ok {A} a.
Arguments Raise {A} e.

(** ** Data model *)

(** The fields of an identity that name an artifact; dataset and
    partition identities both have them. *)
Record Ident := {
  vid : string;
  vname : string;
  cache_key : string }.

(** What [resolve] returns: a dataset identity, with the identity of a
    partition attached when the reference names a partition. *)
Record Identity := {
  dataset : Ident;
  is_bundle : bool;
  partition : option Ident;
  bundle_path : option string }.

Record Partition := {
  p_identity : Ident;
  p_database_path : string }.

(** A bundle handle.  Reading [bundle.identity] opens the database and
    can fail, so the field holds the outcome of the read. *)
Record Bundle := {
  b_identity : result Identity;
  b_database_path : string;
  b_partitions : list Partition }.

(** [Files.TYPE]; [sync_library] asserts that [BUNDLE] and [PARTITION]
    are the values of [Dataset.LOCATION.LIBRARY] and [.PARTITION], so
    file types and locations are one enumeration. *)
Inductive file_type := BUNDLE | PARTITION | REMOTE | SOURCE | STORE | MANIFEST.

#[global] Instance file_type_eq_dec : EqDecision file_type.
Proof. solve_decision. Defined.

(** A ledger row (ORM class [File]). *)
Record File := {
  f_ref : string;
  f_type : file_type;
  f_source_url : string;
  f_state : string;
  f_path : string }.

#[global] Instance File_eq_dec : EqDecision File.
Proof. solve_decision. Defined.

Definition set_state (s : string) (f : File) : File :=
  {| f_ref := f_ref f; f_type := f_type f; f_source_url := f_source_url f;
     f_state := s; f_path := f_path f |}.

(** Log messages, one constructor per format string of the source. *)
Inductive msg :=
| SyncingFromRemote (name : string)
| FailedToGetList (name : string) (e : exn)
| FailedToFindVersion (key : string)
| SkipOldVersion (key : string)
| RemoteHas (repo key : string)
| RemoteSync (repo key : string)
| FailedToGet (key : string) (e : exn)
| FailedToFetchBundle (key : string)
| NotAValidBundle (key : string)
| FailedToPutBundle (key : string) (e : exn)
| FailedToLoadDatabundle (path : string) (e : exn)
| FailedFor (v : string) (e : exn)
| RebuildingFromDir (dir : string)
| FailedToOpenBundle (path : string) (e : exn)
| FailedToProcess (file path : string) (e : exn)
| Installing (name : string)
| InstalledPartition (name : string)
| FailedToSync (name : string) (e : exn)
| FailedToInstallBundle (name : string) (e : exn).

(** Calls that leave the library object, in the order they happen. *)
Inductive event :=
| LogInfo (m : msg)
| LogError (m : msg)
| DbInstallBundle (v : string)
| DbRemoveBundle (v : string)
| DbCommit
| DbClose
| SessionMerge (f : File)
| CachePut (path key : string)
| CacheRemove (key : string) (propagate : bool)
| RemoteRemove (repo key : string)
| IndexDataset (v : string)
| IndexPartition (v : string)
| SearchCommit
| MarkUpdated (v : option string) (key : option string)
| BundleClose (path : string)
| Callback (what : string) (md : gmap string string) (t : Z)
| UpstreamHas (key : string)
| UpstreamPut (path key : string)
| UpstreamStoreList.

(** The mutable state reached from a [Library]: the ledger rows of the
    session, the dataset rows of the catalog, the keys held by the local
    cache and by the upstream, the number of clock readings, and the
    trace of outside calls. *)
Record World := {
  files : list File;
  datasets : list string;
  cache : gset string;
  upstream_keys : gset string;
  ticks : nat;
  trace : list event }.

Definition with_files (l : list File) (w : World) : World :=
  {| files := l; datasets := datasets w; cache := cache w;
     upstream_keys := upstream_keys w; ticks := ticks w; trace := trace w |}.

Definition with_datasets (l : list string) (w : World) : World :=
  {| files := files w; datasets := l; cache := cache w;
     upstream_keys := upstream_keys w; ticks := ticks w; trace := trace w |}.

Definition with_cache (c : gset string) (w : World) : World :=
  {| files := files w; datasets := datasets w; cache := c;
     upstream_keys := upstream_keys w; ticks := ticks w; trace := trace w |}.

Definition with_upstream (c : gset string) (w : World) : World :=
  {| files := files w; datasets := datasets w; cache := cache w;
     upstream_keys := c; ticks := ticks w; trace := trace w |}.

Definition with_ticks (n : nat) (w : World) : World :=
  {| files := files w; datasets := datasets w; cache := cache w;
     upstream_keys := upstream_keys w; ticks := n; trace := trace w |}.

Definition with_trace (t : list event) (w : World) : World :=
  {| files := files w; datasets := datasets w; cache := cache w;
     upstream_keys := upstream_keys w; ticks := ticks w; trace := t |}.

(** ** The monad of library methods *)

Definition M (A : Type) : Type := World → result A * World.

#[global] Instance M_ret : MRet M := λ A a w, (Ok a, w).

#[global] Instance M_bind : MBind M := λ A B f c w,
  match c w with
  | (Ok a, w') => f a w'
  | (Raise e, w') => (Raise e, w')
  end.

Definition raise {A} (e : exn) : M A := λ w, (Raise e, w).

(** [try: c except e: h e] *)
Definition try_except {A} (c : M A) (h : exn → M A) : M A := λ w,
  match c w with
  | (Ok a, w') => (Ok a, w')
  | (Raise e, w') => h e w'
  end.

Definition lift {A} (r : result A) : M A := λ w, (r, w).

Definition get_world : M World := λ w, (Ok w, w).

Definition modify (f : World → World) : M unit := λ w, (Ok tt, f w).

Definition emit (e : event) : M unit :=
  modify (λ w, with_trace (trace w ++ [e]) w).

(** [for x in l: body x] *)
Fixpoint for_each {A} (l : list A) (body : A → M unit) : M unit :=
  match l with
  | [] => mret tt
  | x :: l' => body x ;; for_each l' body
  end.

Definition run {A} (c : M A) (w : World) : result A * World := c w.

(** ** The environment of a library

    The configuration of a [Library] object and the behaviour of the
    collaborators it calls, as they answer during one call of a method.
    Each collaborator is a function of its arguments: what it returns or
    raises.  The resolver and the cache stack read the catalog and the
    remotes, whose code is not part of the library; what they answer
    after the library has changed the catalog is for another
    environment to say. *)

Record Remote := {
  r_repo_id : string;
  (** the keys of [remote.list()], in iteration order, or its failure *)
  r_list : result (list string) }.

Record Env := {
  (** [self.cache.repo_id] *)
  repo_id : string;
  (** [self.cache.cache_dir] *)
  cache_dir : string;
  (** the remote tiers behind [self.cache] *)
  cache_upstreams : list string;
  (** truth value of [self._doc_cache] *)
  has_doc_cache : bool;
  (** [self.remotes], a dict from names to caches *)
  lib_remotes : list (string * Remote);
  (** [self.source.source_path], absent without a source directory *)
  source_path : option (Identity → result string);
  (** [self.resolver.resolve_ref_one(ref, location)], second component *)
  resolve_ref_one : string → option (list file_type) → result (option Identity);
  (** [AltReadCache(self.cache, self.remote_stack).get(key)] *)
  arc_get : string → result (option string);
  (** [os.path.exists] *)
  path_exists : string → bool;
  (** the constructor [DbBundle(path)] *)
  DbBundle : string → result Bundle;
  (** [self.database.install_bundle(bundle)]: the exception it raises *)
  install_bundle : Bundle → option exn;
  (** [identity.to_meta(file=path)] *)
  to_meta : Ident → string → gmap string string;
  (** the successive readings of [time.clock()] *)
  clock_reading : nat → Z;
  (** [upstream.put(path, key, metadata=md)]: the exception it raises *)
  upstream_put : string → string → option exn;
  (** [upstream.store_list()]: the exception it raises *)
  upstream_store_list : option exn;
  (** the place of a key in the order in which Python 2 goes through a
      [dict] that was filled by the given sequence of lookups; the order
      is that of the hash table *)
  dict_rank : list string → string → nat }.

(** [os.path.join] on two components. *)
Definition path_join (a b : string) : string :=
  if String.prefix "/" b then b
  else if bool_decide (a = "") then b
  else if bool_decide (String.substring (String.length a - 1) 1 a = "/")
  then (a ++ b)%string
  else (a ++ "/" ++ b)%string.

(** [needle in s] on strings. *)
Fixpoint contains (needle s : string) : bool :=
  String.prefix needle s ||
  match s with
  | String _ s' => contains needle s'
  | EmptyString => false
  end.

(** [s.endswith(suffix)] *)
Definition endswith (suffix s : string) : bool :=
  (String.length suffix <=? String.length s)%nat &&
  bool_decide (String.substring (String.length s - String.length suffix)
                 (String.length suffix) s = suffix).

(** The directory tree below the cache directory. *)
#[warnings="-register-all"] Inductive dir :=
| Dir (name : string) (subdirs : list dir) (filenames : list string).

Definition dir_name (d : dir) : string := let 'Dir n _ _ := d in n.

(** [os.walk(top, topdown=True)] with the pruning that [sync_library]
    does on the way: a directory is not entered when a file named like it
    with [.db] appended lies beside it.  The result lists, in the order of
    the walk, each visited directory with its file names. *)
Fixpoint walk (top : string) (t : dir) : list (string * list string) :=
  match t with
  | Dir _ subdirs filenames =>
      (top, filenames) ::
      flat_map (λ d,
        if bool_decide ((dir_name d ++ ".db")%string ∈ filenames) then []
        else walk (path_join top (dir_name d)) d) subdirs
  end.

(** ** The ledger: [self.files]

    The class [Files] of the absent module [ambry.library.files] is a
    query builder over the ledger rows.  The spec gives the layout of the
    ledger: one row per (ref, kind, sourceId), queryable by state, by
    type and by ref.  The filters of a query are written as decidable
    predicates on rows. *)

Module Files.

(** Modelled from the spec: [query. ... .all] of the absent module
    [ambry.library.files], the rows that the query selects. *)
Definition all (P : File → Prop) `{∀ f, Decision (P f)} : M (list File) :=
  w ← get_world; mret (filter P (files w)).

(** The positions of the rows selected by a query. *)
Fixpoint positions (P : File → Prop) `{∀ f, Decision (P f)}
    (i : nat) (l : list File) : list nat :=
  match l with
  | [] => []
  | f :: l' => if decide (P f) then i :: positions P (S i) l' else positions P (S i) l'
  end.

(** Modelled from the spec: [query. ... .one] of the absent module
    [ambry.library.files], after SQLAlchemy's [one()]: the single row
    selected, here with its position in the session; [NoResultFound] or
    [MultipleResultsFound] otherwise. *)
Definition one (P : File → Prop) `{∀ f, Decision (P f)} : M (nat * File) :=
  w ← get_world;
  match positions P 0 (files w) with
  | [] => raise NoResultFound
  | [i] =>
      match files w !! i with
      | Some f => mret (i, f)
      | None => raise NoResultFound
      end
  | _ => raise MultipleResultsFound
  end.

(** Modelled from the spec: [query. ... .one_maybe] of the absent module
    [ambry.library.files]: [.one], with [None] for no row. *)
Definition one_maybe (P : File → Prop) `{∀ f, Decision (P f)} : M (option File) :=
  try_except ('(_, f) ← one P; mret (Some f))
    (λ e, if decide (e = NoResultFound) then mret None else raise e).

(** Modelled from the spec: [query. ... .delete()] of the absent module
    [ambry.library.files] deletes the rows that the query selects. *)
Definition delete (P : File → Prop) `{∀ f, Decision (P f)} : M unit :=
  modify (λ w, with_files (filter (λ f, ¬ P f) (files w)) w).

(** Modelled from the spec: the filter [query.installed] of the absent
    module [ambry.library.files].  The spec's ledger holds records of
    kind bundle or partition; the filter keeps the rows of these two
    types. *)
Definition installed (f : File) : Prop :=
  f_type f = BUNDLE ∨ f_type f = PARTITION.

(** The key of a ledger row: one row per (ref, kind, sourceId). *)
Definition same_key (f g : File) : Prop :=
  f_ref f = f_ref g ∧ f_type f = f_type g ∧ f_source_url f = f_source_url g.

(** The place of a state in the spec's sequence [new], [installed],
    [pushed]; other strings are not states of the ledger. *)
Definition state_rank (s : string) : option nat :=
  if decide (s = "new") then Some 0%nat
  else if decide (s = "installed") then Some 1%nat
  else if decide (s = "pushed") then Some 2%nat
  else None.

(** A move from the state [old] to the state [new] goes forward in that
    sequence. *)
Definition moves_forward (old new : string) : Prop :=
  match state_rank old, state_rank new with
  | Some a, Some b => (a < b)%nat
  | _, _ => False
  end.

#[global] Instance moves_forward_dec old new : Decision (moves_forward old new).
Proof. unfold moves_forward. destruct (state_rank old), (state_rank new); apply _. Defined.

(** Modelled from the spec: the row kept when [f] is recorded and the
    ledger holds the row [g] under the key of [f].  The spec's invariant
    of the ledger is that the state of a record only moves forward:
    the row is [f], and its state is that of [f] when this is a move
    forward from the state of [g], else the state of [g]. *)
Definition enter (f g : File) : File :=
  if decide (moves_forward (f_state g) (f_state f)) then f
  else set_state (f_state g) f.

(** Modelled from the spec: recording a row in the ledger, the common
    part of [Files.install_bundle_file] and [Files.install_partition_file]
    of the absent module [ambry.library.files].  The ledger keeps one row
    per (ref, kind, sourceId): a row with the key of [f] gives way to
    [enter f] of it, otherwise [f] is added. *)
Fixpoint record (f : File) (l : list File) : list File :=
  match l with
  | [] => [f]
  | g :: l' => if decide (same_key g f) then enter f g :: l' else g :: record f l'
  end.

(** The row that the ledger holds for [f] once [f] is recorded. *)
Fixpoint recorded_as (f : File) (l : list File) : File :=
  match l with
  | [] => f
  | g :: l' => if decide (same_key g f) then enter f g else recorded_as f l'
  end.

(** Modelled from the spec: [Files.new_file] of the absent module
    [ambry.library.files] records the row, commits when asked to, and
    returns the row of the ledger. *)
Definition new_file (f : File) (commit : bool) : M File :=
  w ← get_world;
  modify (with_files (record f (files w))) ;;
  (if commit then emit DbCommit else mret tt) ;;
  mret (recorded_as f (files w)).

End Files.

#[global] Instance installed_dec f : Decision (Files.installed f).
Proof. unfold Files.installed. apply _. Defined.

#[global] Instance same_key_dec f g : Decision (Files.same_key f g).
Proof. unfold Files.same_key. apply _. Defined.

(** What [put_bundle] and [put_partition] report as [installed]: Python's
    [False], or the row written to the ledger. *)
Inductive installed_flag :=
| NotInstalled
| InstalledAs (f : File).

(** The argument [ref] of [resolve] and [has]: a string or an
    [Identity] object. *)
Inductive reference :=
| RefString (s : string)
| RefIdentity (i : Identity).

Definition with_bundle_path (p : string) (i : Identity) : Identity :=
  {| dataset := dataset i; is_bundle := is_bundle i;
     partition := partition i; bundle_path := Some p |}.

(** The identity that [push] works on: [dsid.partition] when the
    reference names a partition, else [dsid]. *)
Definition push_identity (dsid : Identity) : Ident :=
  match partition dsid with
  | Some p => p
  | None => dataset dsid
  end.

(** The rows that [push] looks for: [query.installed.ref(v).state('new')]. *)
Definition is_new_for (v : string) (f : File) : Prop :=
  Files.installed f ∧ f_ref f = v ∧ f_state f = "new".

#[global] Instance is_new_for_dec v f : Decision (is_new_for v f).
Proof. unfold is_new_for. apply _. Defined.

(** ** The methods of [Library] *)

Section Library.

Variable env : Env.

(** *** The local cache, [self.cache] *)

Definition cache_has (key : string) : M bool :=
  w ← get_world; mret (bool_decide (key ∈ cache w)).

Definition cache_put (path key : string) : M unit :=
  emit (CachePut path key) ;;
  modify (λ w, with_cache ({[key]} ∪ cache w) w).

Definition cache_path (key : string) : string :=
  path_join (cache_dir env) key.

(** Modelled from the spec: [remove(key, propagate)] of the cache stack
    (package [ckcache]) removes the key from the local tier and, when
    [propagate] is set, attempts the removal on every remote tier. *)
Definition cache_remove (key : string) (propagate : bool) : M unit :=
  emit (CacheRemove key propagate) ;;
  modify (λ w, with_cache (cache w ∖ {[key]}) w) ;;
  (if propagate
   then for_each (cache_upstreams env) (λ r, emit (RemoteRemove r key))
   else mret tt).

(** Modelled from the spec: [AltReadCache.get] (package [ckcache]) reads
    the local tier and then the remotes; a hit leaves a copy of the
    artifact in the local tier. *)
Definition arc_get_path (key : string) : M (option string) :=
  match arc_get env key with
  | Ok (Some p) => modify (λ w, with_cache ({[key]} ∪ cache w) w) ;; mret (Some p)
  | r => lift r
  end.

(** *** The catalog database, [self.database] *)

(** Modelled from the spec: [installBundle(record)] of the catalog
    (absent module [ambry.library.database]) enters the dataset of the
    bundle; the environment tells whether it raises. *)
Definition database_install_bundle (bundle : Bundle) : M unit :=
  match install_bundle env bundle with
  | Some e => raise e
  | None =>
      i ← lift (b_identity bundle);
      emit (DbInstallBundle (vid (dataset i))) ;;
      modify (λ w, with_datasets (datasets w ++ [vid (dataset i)]) w)
  end.

(** Modelled from the spec: [removeBundle(vid)] of the catalog deletes
    the dataset row and the ledger rows of the bundle and of its
    partitions. *)
Definition database_remove_bundle (bundle : Bundle) : M unit :=
  i ← lift (b_identity bundle);
  emit (DbRemoveBundle (vid (dataset i))) ;;
  modify (λ w, with_datasets (filter (λ v, v ≠ vid (dataset i)) (datasets w)) w) ;;
  Files.delete (λ f, f_ref f = vid (dataset i)
                     ∨ f_ref f ∈ (λ p, vid (p_identity p)) <$> b_partitions bundle).

Definition database_commit : M unit := emit DbCommit.

Definition database_close : M unit := emit DbClose.

Definition bundle_close (bundle : Bundle) : M unit :=
  emit (BundleClose (b_database_path bundle)).

(** *** Ledger rows written by [put_bundle] and [put_partition] *)

(** Modelled from the spec: [Files.install_bundle_file] of the absent
    module [ambry.library.files] records a row of kind bundle for the
    bundle's vid and the given source, in the given state, with the
    cache-relative path of the artifact. *)
Definition install_bundle_file (bundle : Bundle) (source : string)
    (commit : bool) (state : string) : M File :=
  i ← lift (b_identity bundle);
  Files.new_file {| f_ref := vid (dataset i); f_type := BUNDLE;
                    f_source_url := source; f_state := state;
                    f_path := cache_key (dataset i) |} commit.

(** Modelled from the spec: [Files.install_partition_file], as
    [install_bundle_file] with kind partition. *)
Definition install_partition_file (p : Partition) (source : string)
    (commit : bool) (state : string) : M File :=
  Files.new_file {| f_ref := vid (p_identity p); f_type := PARTITION;
                    f_source_url := source; f_state := state;
                    f_path := cache_key (p_identity p) |} commit.

(** *** [mark_updated] *)

Definition mark_updated (v key : option string) : M unit :=
  emit (MarkUpdated v key).

(** *** [put_partition] *)

Definition put_partition (p : Partition) (source : option string)
    (file_state : string) (commit : bool) : M (string * installed_flag) :=
  let source := default (repo_id env) source in
  installed ← install_partition_file p source commit file_state;
  has ← cache_has (cache_key (p_identity p));
  (if negb has && path_exists env (p_database_path p)
   then cache_put (p_database_path p) (cache_key (p_identity p))
   else mret tt) ;;
  mret (cache_path (cache_key (p_identity p)), InstalledAs installed).

(** *** [put_bundle] *)

(** The guard [not force and self.files.query.ref(vid).type(BUNDLE).one_maybe];
    the query is not evaluated when [force] is set. *)
Definition already_installed (bundle : Bundle) (force : bool) : M bool :=
  if force then mret false
  else
    i ← lift (b_identity bundle);
    r ← Files.one_maybe (λ f, f_ref f = vid (dataset i) ∧ f_type f = BUNDLE);
    mret (bool_decide (is_Some r)).

Definition put_bundle (bundle : Bundle) (source : option string)
    (install_partitions : bool) (file_state : string)
    (commit force : bool) : M (string * installed_flag) :=
  known ← already_installed bundle force;
  if (known : bool) return M (string * installed_flag) then
    i ← lift (b_identity bundle);
    mret (cache_path (cache_key (dataset i)), NotInstalled)
  else
    database_install_bundle bundle ;;
    let source := default (repo_id env) source in
    installed ← install_bundle_file bundle source commit file_state;
    (if install_partitions
     then for_each (b_partitions bundle)
            (λ p, put_partition p (Some source) file_state commit ;; mret tt)
     else mret tt) ;;
    i ← lift (b_identity bundle);
    has ← cache_has (cache_key (dataset i));
    (if (has : bool) then mret tt
     else cache_put (b_database_path bundle) (cache_key (dataset i))) ;;
    (if has_doc_cache env then
       emit (IndexDataset (vid (dataset i))) ;;
       for_each (b_partitions bundle)
         (λ p, emit (IndexPartition (vid (p_identity p)))) ;;
       emit SearchCommit
     else mret tt) ;;
    mark_updated (Some (vid (dataset i))) None ;;
    mark_updated None (Some "bundle_index") ;;
    mark_updated None (Some "library_info") ;;
    mret (cache_path (cache_key (dataset i)), InstalledAs installed).

(** *** [remove] *)

Definition remove (bundle : Bundle) : M unit :=
  database_remove_bundle bundle ;;
  i ← lift (b_identity bundle);
  mark_updated (Some (vid (dataset i))) None ;;
  cache_remove (cache_key (dataset i)) true.

(** *** [resolve] and [has] *)

Definition default_location : list file_type := [BUNDLE; PARTITION; REMOTE].

Definition resolve (ref : reference) (location : option (list file_type))
    : M (option Identity) :=
  let location := default default_location location in
  let ref := match ref with RefString s => s | RefIdentity i => vid (dataset i) end in
  ident ← try_except (lift (resolve_ref_one env ref (Some location)))
             (λ e, if decide (e = NotObjectNumberError) then mret None else raise e);
  match ident, source_path env with
  | Some i, Some sp =>
      try_except (p ← lift (sp i); mret (Some (with_bundle_path p i)))
        (λ e, if decide (e = ConfigurationError) then mret (Some i) else raise e)
  | _, _ => mret ident
  end.

(** [dataset.partition] on [None] raises [AttributeError]. *)
Definition has (ref : reference) (location : option (list file_type)) : M bool :=
  d ← resolve ref location;
  match d with
  | None => raise AttributeError
  | Some d =>
      match partition d with
      | Some p => cache_has (cache_key p)
      | None => cache_has (cache_key (dataset d))
      end
  end.

(** *** [_create_bundle] and [_get_bundle_by_cache_key] *)

(** [_create_bundle] returns the handle that the registry
    [self.bundles] holds for the path, or builds one with [DbBundle].
    The registry is a [WeakValueDictionary]: what it holds depends on
    the handles that the callers keep alive, which is outside the
    embedding.  A handle of the registry was built by [DbBundle] for the
    same path; the environment gives [DbBundle] as a function of the
    path, so that both cases return that handle. *)
Definition _create_bundle (path : string) : result Bundle :=
  DbBundle env path.

(** [None] stands for the result [False]. *)
Definition _get_bundle_by_cache_key (key : string) : M (option Bundle) :=
  abs_path ← arc_get_path key;
  match abs_path with
  | None => mret None
  | Some p =>
      if bool_decide (p = "") || negb (path_exists env p) then mret None
      else
        bundle ← try_except (lift (_create_bundle p))
          (λ e, match e with
                | SqliteDatabaseError | AttributeError =>
                    emit (LogError (FailedToLoadDatabundle p e)) ;; raise e
                | OperationalError =>
                    emit (LogError (FailedToLoadDatabundle p e)) ;;
                    raise SqliteDatabaseError
                | _ => raise e
                end);
        mret (Some bundle)
  end.

(** *** [new_files] and [push] *)

Definition new_files : M (list File) :=
  Files.all (λ f, Files.installed f ∧ f_state f = "new").

Definition clock : M Z :=
  w ← get_world;
  modify (with_ticks (S (ticks w))) ;;
  mret (clock_reading env (ticks w)).

Definition upstream_has (key : string) : M bool :=
  emit (UpstreamHas key) ;;
  w ← get_world; mret (bool_decide (key ∈ upstream_keys w)).

Definition upstream_put_file (path key : string) : M unit :=
  emit (UpstreamPut path key) ;;
  match upstream_put env path key with
  | Some e => raise e
  | None => modify (λ w, with_upstream ({[key]} ∪ upstream_keys w) w)
  end.

(** [file_.state = s] on the row object at position [i] of the session. *)
Definition set_file_state (i : nat) (s : string) : M unit :=
  modify (λ w, with_files (alter (set_state s) i (files w)) w).

(** [self.database.session.merge(file_)] followed by the commit. *)
Definition merge_and_commit (i : nat) : M unit :=
  w ← get_world;
  match files w !! i with
  | Some f => emit (SessionMerge f)
  | None => mret tt
  end ;;
  database_commit.

Definition call_back (cb : bool) (what : string) (md : gmap string string)
    (t : Z) : M unit :=
  if cb then emit (Callback what md t) else mret tt.

Definition push_result : Type := string * option Z * option Z * option string.

(** [push] with a reference.  [upstream] is [None] for a false value;
    [cb] tells whether a callback was given. *)
Definition push_ref (upstream : option string) (ref : string)
    (cb dry_run : bool) : M push_result :=
  match upstream with
  | None => raise (Exception "Can't push() without defining a upstream. ")
  | Some up =>
    dsid ← lift (resolve_ref_one env ref None);
    match dsid with
    | None => raise (Exception "Didn't get id from database for ref")
    | Some dsid =>
      let identity := push_identity dsid in
      '(i, file_) ← try_except
          (Files.one (is_new_for (vid identity)))
          (λ exc, emit (LogError (FailedFor (vid identity) exc)) ;; raise exc);
      let md := to_meta env identity (f_path file_) in
      has ← upstream_has (cache_key identity);
      '(what, start, end_) ←
        (if (has : bool) return M (string * option Z * option Z) then
           call_back cb "Has" md 0 ;;
           (if dry_run then mret tt else set_file_state i "pushed") ;;
           mret ("has", None, None)
         else
           start ← clock;
           call_back cb ("Pushing to " ++ up) md start ;;
           (if dry_run then mret tt
            else upstream_put_file (f_path file_) (cache_key identity) ;;
                 set_file_state i "pushed") ;;
           end_ ← clock;
           call_back cb "Pushed" md (end_ - start)%Z ;;
           mret ("pushed", Some start, Some end_));
      (if dry_run then mret tt else merge_and_commit i) ;;
      mret (what, start, end_, md !! "size")
    end
  end.

Definition store_list : M unit :=
  match upstream_store_list env with
  | Some e => raise e
  | None => emit UpstreamStoreList
  end.

(** [push]: one reference, or every row in state [new]. *)
Definition push (upstream : option string) (ref : option string)
    (cb dry_run : bool) : M (option push_result) :=
  match ref with
  | Some r => x ← push_ref upstream r cb dry_run; mret (Some x)
  | None =>
      match upstream with
      | None => raise (Exception "Can't push() without defining a upstream. ")
      | Some _ =>
          new ← new_files;
          for_each (f_ref <$> new)
            (λ r, push_ref upstream r cb dry_run ;; mret tt) ;;
          try_except store_list
            (λ e, if decide (e = AttributeError) then mret tt else raise e) ;;
          mret None
      end
  end.

(** *** [sync_library] *)

(** The [try] statement in the loop over the files of a directory, for
    the file [file_] at [path_]. *)
Definition open_file (bundles : list Bundle) (fp : string * string)
    : M (list Bundle) :=
  let '(file_, path_) := fp in
  match _create_bundle path_ with
  | Raise e =>
      (* [b] is still [None]: the [finally] clause closes nothing *)
      if decide (e = NotFoundError) then mret bundles
      else emit (LogError (FailedToProcess file_ path_ e)) ;; raise e
  | Ok b =>
      match b_identity b with
      | Raise e =>
          (* inner [except Exception]: log, [continue] through [finally] *)
          emit (LogError (FailedToOpenBundle path_ e)) ;;
          bundle_close b ;;
          mret bundles
      | Ok i =>
          bundle_close b ;;
          mret (if is_bundle i then bundles ++ [b] else bundles)
      end
  end.

(** The body of the loop over the files of one directory. *)
Definition scan_file (r : string) (bundles : list Bundle) (file_ : string)
    : M (list Bundle) :=
  if endswith ".db" file_ then open_file bundles (file_, path_join r file_)
  else mret bundles.

Fixpoint fold_m {A B} (f : B → A → M B) (l : list A) (b : B) : M B :=
  match l with
  | [] => mret b
  | x :: l' => b' ← f b x; fold_m f l' b'
  end.

Definition scan_dir (bundles : list Bundle) (rf : string * list string)
    : M (list Bundle) :=
  let '(r, f) := rf in
  if contains "/meta/" r then mret bundles
  else fold_m (scan_file r) f bundles.

(** The loop over [os.walk(self.cache.cache_dir, topdown=True)]. *)
Definition find_bundles (tree : dir) : M (list Bundle) :=
  fold_m scan_dir (walk (cache_dir env) tree) [].

(** [sorted(l, key=key)]: a stable sort, ascending. *)
Fixpoint insert_by {A} (key : A → nat) (x : A) (l : list A) : list A :=
  match l with
  | [] => [x]
  | y :: l' => if (key x <=? key y)%nat then x :: l else y :: insert_by key x l'
  end.

Definition sorted_by {A} (key : A → nat) (l : list A) : list A :=
  foldr (insert_by key) [] l.

Definition install_found (bundle : Bundle) : M unit :=
  i ← lift (b_identity bundle);
  let name := vname (dataset i) in
  emit (LogInfo (Installing name)) ;;
  try_except
    (installed ← try_except
        (put_bundle bundle (Some (repo_id env)) false "installed" true false ;;
         mret true)
        (λ e, if decide (e = ConflictError) then mret false else raise e);
     try_except
       ((if (installed : bool) then
           for_each (b_partitions bundle)
             (λ p, put_partition p (Some (repo_id env)) "installed" false ;;
                   emit (LogInfo (InstalledPartition (vname (p_identity p)))))
         else mret tt) ;;
        database_commit ;;
        database_close)
       (λ e, emit (LogError (FailedToSync name e)) ;; raise e) ;;
     bundle_close bundle)
    (λ e, emit (LogError (FailedToInstallBundle name e)) ;; raise e).

Definition sync_library (tree : dir) (clean : bool) : M (list Bundle) :=
  (if clean then
     Files.delete (λ f, f_type f = BUNDLE) ;;
     Files.delete (λ f, f_type f = PARTITION)
   else mret tt) ;;
  emit (LogInfo (RebuildingFromDir (cache_dir env))) ;;
  bundles ← find_bundles tree;
  let bundles := sorted_by (λ b, List.length (b_partitions b)) bundles in
  for_each bundles install_found ;;
  mret bundles.

(** *** [sync_remotes] *)

(** The variables of the loop that fills [last_keys]: the local
    [version] of [sync_remotes], unbound ([None]) until a first key
    parses, and the [defaultdict] [last_keys] from keys without version
    to pairs of a version and a cache key. *)
Record scan_state := {
  version : option N;
  last_keys : gmap string (N * string) }.

(** [last_keys[nv_key]] on a [defaultdict(lambda: [0, ''])]: the lookup
    stores the default under a missing key. *)
Definition last_keys_get (nv_key : string) (lk : gmap string (N * string))
    : (N * string) * gmap string (N * string) :=
  match lk !! nv_key with
  | Some p => (p, lk)
  | None => ((0, ""), <[nv_key := (0, "")]> lk)
  end.

(** One turn of [for cache_key in remote_list] under [if last_only].  A
    key whose search fails is logged and [version] keeps the value of the
    turn before; reading it while unbound raises. *)
Definition scan_key (st : scan_state) (cache_key : string) : M scan_state :=
  let nv_key := Re.nv_key cache_key in
  version ← match Re.search_version cache_key with
            | Some v => mret (Some v)
            | None =>
                emit (LogError (FailedToFindVersion cache_key)) ;;
                mret (version st)
            end;
  match version with
  | None => raise UnboundLocalError
  | Some v =>
      let '(cur, lk) := last_keys_get nv_key (last_keys st) in
      mret {| version := Some v;
              last_keys := if cur.1 <? v then <[nv_key := (v, cache_key)]> lk
                           else lk |}
  end.

(** [last_keys.values()], in the order of the dictionary that the
    lookups of the keys [accesses] have filled. *)
Definition values_of (accesses : list string) (lk : gmap string (N * string))
    : list (N * string) :=
  snd <$> sorted_by (λ kv : string * (N * string), dict_rank env accesses kv.1)
            (map_to_list lk).

(** [for version, cache_key in last_keys.values(): use_only.append(cache_key)]:
    the list [use_only], and the local [version], which the loop binds
    anew at every turn and leaves at the last value. *)
Definition filter_result (remote_list : list string) (st : scan_state)
    : option (list string) * option N :=
  let values := values_of (Re.nv_key <$> remote_list) (last_keys st) in
  (Some (snd <$> values),
   match last values with
   | Some p => Some p.1
   | None => version st
   end).

(** The statements between [use_only = None] and the loop over the keys.
    [v] is the local [version] as the remote before has left it; the
    result is [use_only] with [version] as this remote leaves it. *)
Definition compute_use_only (last_only : bool) (remote_list : list string)
    (v : option N) : M (option (list string) * option N) :=
  if last_only then
    st ← fold_m scan_key remote_list {| version := v; last_keys := ∅ |};
    mret (filter_result remote_list st)
  else mret (None, v).

(** Truth value of an optional list: [None] and [[]] are false. *)
Definition truthy {A} (l : option (list A)) : bool :=
  match l with
  | Some (_ :: _) => true
  | _ => false
  end.

Definition member (x : string) (l : option (list string)) : bool :=
  bool_decide (x ∈ default [] l).

(** The fetch of one key: [None] when the [except S3ResponseError]
    clause has logged the failure and the loop goes on. *)
Definition fetch (remote : Remote) (cache_key : string)
    : M (option (option Bundle)) :=
  try_except (b ← _get_bundle_by_cache_key cache_key; mret (Some b))
    (λ e, if decide (e = S3ResponseError)
          then emit (LogError (FailedToGet cache_key e)) ;; mret None
          else raise e).

(** The install of one fetched bundle: [false] when the
    [except NotABundle] clause has logged the failure and the loop goes
    on; any other exception is logged and raised again. *)
Definition install_fetched (remote : Remote) (cache_key : string)
    (b : Bundle) : M bool :=
  try_except
    (put_bundle b (Some (r_repo_id remote)) false "installed" true false ;;
     mret true)
    (λ e, if decide (e = NotABundle)
          then emit (LogError (NotAValidBundle cache_key)) ;;
               bundle_close b ;;
               mret false
          else emit (LogError (FailedToPutBundle cache_key e)) ;;
               bundle_close b ;;
               raise e).

(** The body of [for cache_key in remote_list]. *)
Definition sync_key (remote : Remote) (all_keys : list string)
    (use_only vids : option (list string)) (cache_key : string) : M unit :=
  if bool_decide (cache_key ∈ all_keys) then mret tt
  else if truthy use_only && negb (member cache_key use_only) then
    emit (LogInfo (SkipOldVersion cache_key))
  else
    has ← cache_has cache_key;
    emit (LogInfo (if (has : bool) then RemoteHas (r_repo_id remote) cache_key
                   else RemoteSync (r_repo_id remote) cache_key)) ;;
    fetched ← fetch remote cache_key;
    match fetched with
    | None => mret tt
    | Some None => emit (LogError (FailedToFetchBundle cache_key))
    | Some (Some b) =>
        i ← lift (b_identity b);
        if truthy vids && negb (member (vid (dataset i)) vids)
        then bundle_close b
        else
          installed ← install_fetched remote cache_key b;
          if (installed : bool) then
            database_commit ;;
            database_close ;;
            bundle_close b
          else mret tt
    end.

(** The body of [for remote_name, remote in remotes.items()].  The
    local [version] of [sync_remotes] outlives the turn: [v] is its
    value when the turn begins, the result its value when the turn
    ends. *)
Definition sync_remote (last_only : bool) (vids : option (list string))
    (v : option N) (nr : string * Remote) : M (option N) :=
  let '(remote_name, remote) := nr in
  match r_list remote with
  | Raise e =>
      if decide (e = S3ResponseError)
      then emit (LogError (FailedToGetList remote_name e)) ;; mret v
      else raise e
  | Ok remote_list =>
      emit (LogInfo (SyncingFromRemote remote_name)) ;;
      remote_files ← Files.all (λ f, f_type f = REMOTE
                                     ∧ f_source_url f = r_repo_id remote);
      let all_keys := f_path <$> remote_files in
      '(use_only, v') ← compute_use_only last_only remote_list v;
      for_each remote_list (sync_key remote all_keys use_only vids) ;;
      mret v'
  end.

(** [remotes] is [None] when the argument is left out; iterating over
    [None.items()] under [clean] raises [AttributeError]. *)
Definition sync_remotes (remotes : option (list (string * Remote)))
    (clean last_only : bool) (vids : option (list string)) : M unit :=
  (if clean then
     match remotes with
     | None => raise AttributeError
     | Some rs =>
         for_each rs (λ nr,
           Files.delete (λ f, (f_type f = PARTITION ∨ f_type f = BUNDLE)
                              ∧ f_source_url f = r_repo_id nr.2))
     end
   else mret tt) ;;
  let remotes := if truthy remotes then default [] remotes
                 else lib_remotes env in
  match remotes with
  | [] => mret tt
  | _ =>
      fold_m (sync_remote last_only vids) remotes None ;;
      mark_updated None (Some "bundle_index") ;;
      mark_updated None (Some "library_info")
  end.

End Library.

(** * Vocabulary of the statements *)

(** An event that writes: bytes sent to the upstream, or a merge or a
    commit on the database session. *)
Definition writes (e : event) : bool :=
  match e with
  | UpstreamPut _ _ | SessionMerge _ | DbCommit => true
  | _ => false
  end.

(** ** Vocabulary for [sync_remotes] *)

(** What the body of the loop does with a key that has passed its two
    filters, as far as the collaborators decide it:
    - the bundle is fetched and the catalog accepts it;
    - the bundle is fetched and the catalog rejects it with [NotABundle];
    - the bundle is fetched and the catalog raises another exception;
    - the fetch fails with [S3ResponseError] or brings nothing;
    - the fetch, the load of the bundle or the read of its identity
      raises another exception. *)
Inductive key_class :=
| Installs (b : Bundle) (i : Identity)
| Rejected (b : Bundle) (i : Identity)
| Refused (b : Bundle) (i : Identity) (e : exn)
| NotFetched
| Leaves (e : exn).

Definition classify (env : Env) (key : string) : key_class :=
  match arc_get env key with
  | Raise e => if decide (e = S3ResponseError) then NotFetched else Leaves e
  | Ok None => NotFetched
  | Ok (Some p) =>
      if bool_decide (p = "") || negb (path_exists env p) then NotFetched
      else
        match DbBundle env p with
        | Raise e =>
            if decide (e = S3ResponseError) then NotFetched
            else Leaves (if decide (e = OperationalError)
                         then SqliteDatabaseError else e)
        | Ok b =>
            match b_identity b with
            | Raise e => Leaves e
            | Ok i =>
                match install_bundle env b with
                | None => Installs b i
                | Some e =>
                    if decide (e = NotABundle) then Rejected b i else Refused b i e
                end
            end
        end
  end.

(** The identity of the bundle that [put_bundle] receives for a key. *)
Definition handed_over (c : key_class) : option Identity :=
  match c with
  | Installs _ i | Rejected _ i | Refused _ i _ => Some i
  | _ => None
  end.

(** The two filters at the head of the loop body: the key is not yet
    known for the remote, and it is in [use_only] when that list is
    non-empty. *)
Definition passes (all_keys : list string) (use_only : option (list string))
    (key : string) : bool :=
  negb (bool_decide (key ∈ all_keys))
  && negb (truthy use_only && negb (member key use_only)).

(** The identities of the bundles that a pass over [keys] fetches and
    hands to [put_bundle], and of those among them that it installs. *)
Definition fetches (env : Env) (all_keys : list string)
    (use_only : option (list string)) (keys : list string) : list Identity :=
  omap (λ k, if passes all_keys use_only k
             then handed_over (classify env k)
             else None) keys.

Definition installs (env : Env) (all_keys : list string)
    (use_only : option (list string)) (keys : list string) : list Identity :=
  omap (λ k, if passes all_keys use_only k
             then match classify env k with
                  | Installs _ i => Some i
                  | _ => None
                  end
             else None) keys.

(** The keys of a pass that the [use_only] filter turns away. *)
Definition turned_away (all_keys : list string) (use_only : option (list string))
    (keys : list string) : list string :=
  filter (λ k, (k ∉ all_keys)
               ∧ (truthy use_only && negb (member k use_only)) = true) keys.

(** The ledger row that [sync_remotes] writes for an identity. *)
Definition remote_row (remote : Remote) (i : Identity) : File :=
  {| f_ref := vid (dataset i); f_type := BUNDLE;
     f_source_url := r_repo_id remote; f_state := "installed";
     f_path := cache_key (dataset i) |}.

(** The keys named by the log entries "Skip old version". *)
Definition skip_logs (t : list event) : list string :=
  omap (λ e, match e with
             | LogInfo (SkipOldVersion k) => Some k
             | _ => None
             end) t.

(** The ledger has no row of type [BUNDLE] for the vid [v]. *)
Definition unrecorded (v : string) (l : list File) : Prop :=
  Forall (λ f, ¬ (f_ref f = v ∧ f_type f = BUNDLE)) l.

(** The classes on which the loop goes on to the next key. *)
Definition goes_on (c : key_class) : bool :=
  match c with
  | Installs _ _ | Rejected _ _ | NotFetched => true
  | Refused _ _ _ | Leaves _ => false
  end.

(** The messages logged at level error. *)
Definition error_logs (t : list event) : list msg :=
  omap (λ e, match e with
             | LogError m => Some m
             | _ => None
             end) t.

(** The error that the loop logs for a key on which it goes on without
    an install: the fetch failed with [S3ResponseError], or brought
    nothing, or the catalog rejected the bundle with [NotABundle]. *)
Definition failure_of (env : Env) (key : string) : option msg :=
  match classify env key with
  | Rejected _ _ => Some (NotAValidBundle key)
  | NotFetched =>
      match arc_get env key with
      | Ok None => Some (FailedToFetchBundle key)
      | Ok (Some p) =>
          if bool_decide (p = "") || negb (path_exists env p)
          then Some (FailedToFetchBundle key)
          else Some (FailedToGet key S3ResponseError)
      | Raise _ => Some (FailedToGet key S3ResponseError)
      end
  | _ => None
  end.

(** The errors logged by a pass over [keys] that no key leaves. *)
Definition failures (env : Env) (all_keys : list string)
    (use_only : option (list string)) (keys : list string) : list msg :=
  omap (λ k, if passes all_keys use_only k then failure_of env k else None) keys.

(** [all_keys]: the paths of the ledger rows of location [REMOTE]
    recorded for a remote. *)
Definition known_keys (remote : Remote) (l : list File) : list string :=
  f_path <$> filter (λ f, f_type f = REMOTE ∧ f_source_url f = r_repo_id remote) l.

#[global] Instance unrecorded_dec v l : Decision (unrecorded v l).
Proof. unfold unrecorded. apply _. Defined.

(** ** Vocabulary for the filter [last_only]

    The spec's words: the keys are grouped by their name without
    revision, and in each group the key of maximum revision is kept. *)

(** A key whose revision suffix parses, with a trailing number of at
    least 1. *)
Definition positive_revision (key : string) : Prop :=
  match Re.search_version key with
  | Some v => 1 ≤ v
  | None => False
  end.

#[global] Instance positive_revision_dec key : Decision (positive_revision key).
Proof. unfold positive_revision. destruct (Re.search_version key); apply _. Defined.

(** The key [k] of the listing [keys] carries a revision, and its group
    has a key whose last number is at least 1. *)
Definition group_has_revision (keys : list string) (k : string) : Prop :=
  is_Some (Re.search_version k)
  ∧ Exists (λ k', Re.nv_key k' = Re.nv_key k ∧ positive_revision k') keys.

#[global] Instance group_has_revision_dec keys k : Decision (group_has_revision keys k).
Proof. unfold group_has_revision. apply _. Defined.

(** The best key of the group [g] after one more key: a key of the
    group replaces the best so far when its revision is larger; a key
    without a revision does not take part. *)
Definition better (g : string) (best : option (N * string)) (key : string)
    : option (N * string) :=
  if decide (Re.nv_key key = g) then
    match Re.search_version key, best with
    | Some v, Some (v0, k0) => if v0 <? v then Some (v, key) else best
    | Some v, None => Some (v, key)
    | None, _ => best
    end
  else best.

(** The key of maximum revision in the group [g] of a listing, with its
    revision; the first such key when several have that revision. *)
Definition latest (g : string) (keys : list string) : option (N * string) :=
  fold_left (better g) keys None.

(** The entry of [last_keys] for a group whose best key is [best]: the
    initial entry [[0, '']] stays as long as no key of the group has a
    revision above 0. *)
Definition entry_of (best : option (N * string)) : option (N * string) :=
  (λ p : N * string, if p.1 =? 0 then (0, "") else p) <$> best.

(** [key] is the key kept for its group. *)
Definition is_latest (keys : list string) (key : string) : bool :=
  match latest (Re.nv_key key) keys with
  | Some (_, k) => bool_decide (k = key)
  | None => false
  end.

(** The keys of a listing that are not yet known and are kept for their
    group, and the unknown keys that are not kept. *)
Definition selected (all_keys keys : list string) : list string :=
  filter (λ k, (k ∉ all_keys) ∧ is_latest keys k = true) keys.

Definition superseded (all_keys keys : list string) : list string :=
  filter (λ k, (k ∉ all_keys) ∧ is_latest keys k = false) keys.

(** The identities of the bundles that the loop hands to [put_bundle]
    for the given keys. *)
Definition bundles_of (env : Env) (keys : list string) : list Identity :=
  omap (λ k, handed_over (classify env k)) keys.

(** The key is fetched and the catalog accepts its bundle. *)
Definition accepted (c : key_class) : bool :=
  match c with
  | Installs _ _ => true
  | _ => false
  end.

(** ** Vocabulary for the passes of [sync_remotes] over several remotes *)

(** One turn of the loop that fills [last_keys], without its log entry;
    [None] when the turn reads [version] while it is unbound. *)
Definition scan_step (st : scan_state) (cache_key : string) : option scan_state :=
  match match Re.search_version cache_key with
        | Some v => Some v
        | None => version st
        end with
  | None => None
  | Some v =>
      let '(cur, lk) := last_keys_get (Re.nv_key cache_key) (last_keys st) in
      Some {| version := Some v;
              last_keys := if cur.1 <? v
                           then <[Re.nv_key cache_key := (v, cache_key)]> lk
                           else lk |}
  end.

Fixpoint scan (keys : list string) (st : scan_state) : option scan_state :=
  match keys with
  | [] => Some st
  | k :: keys' =>
      match scan_step st k with
      | Some st' => scan keys' st'
      | None => None
      end
  end.

(** What [compute_use_only] returns: [use_only] and the [version] left
    behind; [None] when it raises. *)
Definition version_filter (env : Env) (last_only : bool) (keys : list string)
    (v : option N) : option (option (list string) * option N) :=
  if last_only
  then filter_result env keys <$> scan keys {| version := v; last_keys := ∅ |}
  else Some (None, v).

(** The passes of [sync_remotes] over the remotes [rs], when [version]
    is [v] at the start: for each remote whose listing succeeds, the
    remote, its listing and the [use_only] of its pass.  [None] when a
    listing raises another exception than [S3ResponseError], or the
    version filter raises. *)
Fixpoint passes_of (env : Env) (last_only : bool) (v : option N)
    (rs : list (string * Remote))
    : option (list (Remote * list string * option (list string))) :=
  match rs with
  | [] => Some []
  | nr :: rs' =>
      match r_list nr.2 with
      | Raise e =>
          if decide (e = S3ResponseError) then passes_of env last_only v rs' else None
      | Ok keys =>
          match version_filter env last_only keys v with
          | None => None
          | Some (u, v') => cons (nr.2, keys, u) <$> passes_of env last_only v' rs'
          end
      end
  end.

(** The ledger has a row of type [BUNDLE] for the vid [v]. *)
Definition bundle_recorded (v : string) (l : list File) : Prop :=
  Exists (λ f, f_ref f = v ∧ f_type f = BUNDLE) l.

(** The test [vids and vid not in vids] on the bundle of identity [i]. *)
Definition filtered_out (vids : option (list string)) (i : Identity) : bool :=
  truthy vids && negb (member (vid (dataset i)) vids).

(** The loop goes on after the key [k]: its fetch and its install meet
    no exception but [S3ResponseError] from the fetch and [NotABundle]
    from the catalog, or its bundle is not among [vids] and never
    reaches the catalog. *)
Definition tolerated (env : Env) (vids : option (list string)) (k : string) : Prop :=
  match classify env k with
  | Installs _ _ | Rejected _ _ | NotFetched => True
  | Refused _ i _ => filtered_out vids i = true
  | Leaves _ => False
  end.

#[global] Instance tolerated_dec env vids k : Decision (tolerated env vids k).
Proof. unfold tolerated. destruct (classify env k); apply _. Defined.

(** What has become of the key [k] in the world [w'] of a call that
    began in [w].  A bundle that the catalog accepts is left aside by
    [vids], or the ledger records it, and the catalog has its dataset
    unless the ledger recorded it before the call.  A bundle that the
    catalog rejects with [NotABundle] is left aside by [vids], or was
    recorded already, or is named in an error of the log.  A key that
    could not be fetched is named in an error of the log. *)
Definition accounted (env : Env) (vids : option (list string)) (k : string)
    (w w' : World) : Prop :=
  match classify env k with
  | Installs _ i =>
      filtered_out vids i = true
      ∨ (bundle_recorded (vid (dataset i)) (files w')
         ∧ (vid (dataset i) ∈ datasets w'
            ∨ bundle_recorded (vid (dataset i)) (files w)))
  | Rejected _ i =>
      filtered_out vids i = true
      ∨ bundle_recorded (vid (dataset i)) (files w')
      ∨ NotAValidBundle k ∈ error_logs (trace w')
  | NotFetched =>
      ∃ m, failure_of env k = Some m ∧ m ∈ error_logs (trace w')
  | Refused _ _ _ | Leaves _ => True
  end.

(** ** Vocabulary for the walk of [sync_library] *)

(** The walk from the directory [t] at the path [top] comes to the
    directory at the path [r], whose files are [f]: [t] itself, or a
    directory that the walk from a subdirectory of [t] comes to, unless a
    file named like the subdirectory with [.db] appended lies beside
    it. *)
Inductive visits : string → dir → string → list string → Prop :=
| visits_top top name subdirs filenames :
    visits top (Dir name subdirs filenames) top filenames
| visits_sub top name subdirs filenames d r f :
    d ∈ subdirs →
    (dir_name d ++ ".db")%string ∉ filenames →
    visits (path_join top (dir_name d)) d r f →
    visits top (Dir name subdirs filenames) r f.

(** The files that the walk tries to open, as pairs of a file name and a
    path, in the order of the walk: the files ending in [.db] of the
    visited directories whose path does not contain [/meta/]. *)
Definition db_paths (env : Env) (tree : dir) : list (string * string) :=
  flat_map (λ rf : string * list string,
    if contains "/meta/" rf.1 then []
    else (λ file_, (file_, path_join rf.1 file_))
           <$> filter (λ file_, endswith ".db" file_ = true) rf.2)
    (walk (cache_dir env) tree).

(** The files up to the first one whose bundle cannot be built for a
    reason other than [NotFoundError], and that file with the exception
    when there is one. *)
Fixpoint upto_fatal (env : Env) (paths : list (string * string))
    : list (string * string) * option (string * string * exn) :=
  match paths with
  | [] => ([], None)
  | fp :: rest =>
      match DbBundle env fp.2 with
      | Raise e =>
          if decide (e = NotFoundError)
          then (fp :: (upto_fatal env rest).1, (upto_fatal env rest).2)
          else ([], Some (fp.1, fp.2, e))
      | Ok _ => (fp :: (upto_fatal env rest).1, (upto_fatal env rest).2)
      end
  end.

(** The bundles among the files: those that open, yield their identity,
    and are bundles. *)
Definition collected (env : Env) (paths : list (string * string)) : list Bundle :=
  omap (λ fp : string * string,
    match DbBundle env fp.2 with
    | Ok b =>
        match b_identity b with
        | Ok i => if is_bundle i then Some b else None
        | Raise _ => None
        end
    | Raise _ => None
    end) paths.

(** The log entries for the files whose identity cannot be extracted. *)
Definition unopened (env : Env) (paths : list (string * string)) : list msg :=
  omap (λ fp : string * string,
    match DbBundle env fp.2 with
    | Ok b =>
        match b_identity b with
        | Ok _ => None
        | Raise e => Some (FailedToOpenBundle fp.2 e)
        end
    | Raise _ => None
    end) paths.

(** ** Vocabulary for the states of the ledger *)

(** Row by row, the ledger [l'] is the ledger [l] except that rows in
    state [new] may have become [pushed]. *)
Definition advances (l l' : list File) : Prop :=
  Forall2 (λ f f', f' = f ∨ (f_state f = "new" ∧ f' = set_state "pushed" f)) l l'.

(** The state [b] is the state [a] or a later one in the sequence
    [new], [installed], [pushed]. *)
Definition state_le (a b : string) : Prop :=
  a = b ∨ Files.moves_forward a b.

(** The row [f'] is the record of [f] at a later time: it has the key
    of [f], and its state is that of [f] or a later one. *)
Definition later_row (f f' : File) : Prop :=
  Files.same_key f f' ∧ state_le (f_state f) (f_state f').

(** The ledger [l'] is the ledger [l] at a later time: row by row, the
    records of [l] are in [l'], none in an earlier state; after them
    come the rows that were added. *)
Definition states_advance (l l' : list File) : Prop :=
  ∃ l1 l2, l' = l1 ++ l2 ∧ Forall2 later_row l l1.

Definition ledger_advances (w w' : World) : Prop :=
  states_advance (files w) (files w').

(** * Concrete libraries

    Small environments and worlds on which the methods are run. *)

Module Demo.

Definition ident_of (key : string) : Ident :=
  {| vid := "vid:" ++ key; vname := key; cache_key := key |}.

Definition identity_of (key : string) : Identity :=
  {| dataset := ident_of key; is_bundle := true;
     partition := None; bundle_path := None |}.

(** The bundle stored under a cache key: a valid bundle without
    partitions. *)
Definition bundle_at (key : string) : Bundle :=
  {| b_identity := Ok (identity_of key);
     b_database_path := key;
     b_partitions := [] |}.

(** A library with one remote, [r1], whose listing is [remote_list].
    The resolver, the bundle loader and the catalog installer are
    arguments. *)
Definition env (remote_list : list string)
    (resolver : string → result (option Identity))
    (loader : string → result Bundle)
    (installer : Bundle → option exn) : Env :=
  {| repo_id := "local";
     cache_dir := "/cache";
     cache_upstreams := ["r1"];
     has_doc_cache := false;
     lib_remotes := [("r1", {| r_repo_id := "r1"; r_list := Ok remote_list |})];
     source_path := None;
     resolve_ref_one := λ ref _, resolver ref;
     arc_get := λ key, Ok (Some key);
     path_exists := λ _, true;
     DbBundle := loader;
     install_bundle := installer;
     to_meta := λ _ _, {[ "size" := "10" ]};
     clock_reading := λ n, Z.of_nat n;
     upstream_put := λ _ _, None;
     upstream_store_list := None;
     dict_rank := λ _ _, 0%nat |}.

(** Every key loads as a valid bundle and installs. *)
Definition plain (remote_list : list string) : Env :=
  env remote_list (λ _, Ok None) (λ p, Ok (bundle_at p)) (λ _, None).

(** Resolves every reference to the dataset of that name. *)
Definition resolving : Env :=
  env [] (λ ref, Ok (Some (identity_of ref))) (λ p, Ok (bundle_at p)) (λ _, None).

(** As [plain], but the catalog raises [e] for the bundle stored under
    the key [bad]. *)
Definition refusing (bad : string) (e : exn) (remote_list : list string) : Env :=
  env remote_list (λ _, Ok None) (λ p, Ok (bundle_at p))
    (λ b, if bool_decide (b_database_path b = bad) then Some e else None).

(** As [plain], but loading the bundle stored under the key [bad]
    raises [e]. *)
Definition corrupt (bad : string) (e : exn) (remote_list : list string) : Env :=
  env remote_list (λ _, Ok None)
    (λ p, if bool_decide (p = bad) then Raise e else Ok (bundle_at p))
    (λ _, None).

(** The only remote of these libraries. *)
Definition r1 (remote_list : list string) : Remote :=
  {| r_repo_id := "r1"; r_list := Ok remote_list |}.

Definition empty : World :=
  {| files := []; datasets := []; cache := ∅; upstream_keys := ∅;
     ticks := 0; trace := [] |}.

Definition row (key : string) (type : file_type) (state : string) : File :=
  {| f_ref := "vid:" ++ key; f_type := type; f_source_url := "local";
     f_state := state; f_path := key |}.

(** A library that holds one bundle, recorded in the given state. *)
Definition holding (key state : string) (up : gset string) : World :=
  {| files := [row key BUNDLE state]; datasets := [("vid:" ++ key)%string];
     cache := {[ key ]}; upstream_keys := up; ticks := 0; trace := [] |}.

(** A cache directory: a bundle with its directory of partitions, a
    file that is not a database, a bundle file whose identity cannot be
    read, a directory [meta] with a subdirectory, and a source directory
    with one more bundle. *)
Definition tree : dir :=
  Dir "cache"
    [ Dir "a-0.0.1" [] ["part.db"];
      Dir "meta" [ Dir "sub" [] ["x.db"] ] ["m.db"];
      Dir "src" [] ["c-0.0.2.db"] ]
    ["a-0.0.1.db"; "notes.txt"; "broken-0.0.1.db"].

(** Loads every path as a valid bundle, except the broken file, whose
    identity raises, and the file of [meta], which is not found. *)
Definition walking : Env :=
  env [] (λ _, Ok None)
    (λ p, if bool_decide (p = "/cache/broken-0.0.1.db")
          then Ok {| b_identity := Raise SqliteDatabaseError;
                     b_database_path := p; b_partitions := [] |}
          else if bool_decide (p = "/cache/meta/m.db") then Raise NotFoundError
          else Ok (bundle_at p))
    (λ _, None).

(** Resolves every reference to the partition of that name in the
    dataset [a-0.0.1.db]. *)
Definition resolving_partition : Env :=
  env [] (λ ref, Ok (Some {| dataset := ident_of "a-0.0.1.db"; is_bundle := false;
                             partition := Some (ident_of ref);
                             bundle_path := None |}))
    (λ p, Ok (bundle_at p)) (λ _, None).

Definition partition_at (key : string) : Partition :=
  {| p_identity := ident_of key; p_database_path := key |}.

(** A library whose ledger knows the key [key] for the remote [r1]. *)
Definition knowing (key : string) : World :=
  {| files := [ {| f_ref := "vid:" ++ key; f_type := REMOTE; f_source_url := "r1";
                   f_state := "installed"; f_path := key |} ];
     datasets := []; cache := ∅; upstream_keys := ∅; ticks := 0; trace := [] |}.

End Demo.

(** ** Retrieval: [get], [locate], [store] and [manifest] *)

(** [try: c finally: fin]: [fin] runs whether [c] returns or raises; the
    outcome is that of [c], unless [fin] raises itself. *)
Definition try_finally {A} (c : M A) (fin : M unit) : M A := λ w,
  match c w with
  | (r, w') =>
      match fin w' with
      | (Ok _, w'') => (r, w'')
      | (Raise e, w'') => (Raise e, w'')
      end
  end.

(** Where [locate] finds the file of an identity: [self.cache] or one of
    the remotes. *)
Inductive location :=
| AtCache
| AtRemote (r : Remote).

Section Retrieval.

Variable env : Env.

(** [bundle.partitions.get(vid)], with [None] for a false value. *)
Variable partitions_get : Bundle → string → option Partition.

(** [partition.ref], with [None] for a false value. *)
Variable partition_ref : Partition → option string.

(** Truth value of [remote.get_stream(key, cb=cb)]. *)
Variable get_stream : Remote → string → bool.

(** [remote.has(key)] *)
Variable remote_has : Remote → string → bool.

(** [remote.priority] *)
Variable priority : Remote → nat.

(** The type of manifests and the constructor [Manifest(f.content)]. *)
Variable Manifest : Type.
Variable new_manifest : File → result Manifest.

(** The remote that [get] works with.  Without a bundle row for the
    dataset the argument [remote] is set to [None]; with one, an
    argument that is left out is replaced by the first remote of the
    library whose [repo_id] is the source of such a row. *)
Definition get_remote (remote : option Remote) (dataset_files : list File)
    : option Remote :=
  match dataset_files with
  | [] => None
  | _ :: _ =>
      match remote with
      | Some r => Some r
      | None =>
          head (filter (λ r, r_repo_id r ∈ f_source_url <$> dataset_files)
                  ((λ nr : string * Remote, nr.2) <$> lib_remotes env))
      end
  end.

(** Modelled from the spec: stream-in of the local tier ([put_stream],
    package [ckcache]), as a [with] statement around a body that reads
    the source: the key is held by the tier once the body has ended; a
    body left by an exception stores nothing. *)
Definition cache_put_stream (key : string) (body : M unit) : M unit :=
  body ;;
  modify (λ w, with_cache ({[key]} ∪ cache w) w).

(** The copy of a partition from the remote into the local cache, for a
    partition that the cache does not hold: the remote is asked for the
    key of [partition.ref], when the partition refers to another one, or
    for the key of the partition. *)
Definition copy_from_remote (remote : Remote) (part : Partition) : M unit :=
  source_key ← match partition_ref part with
               | Some pref =>
                   source_ident ← resolve env (RefString pref) None;
                   match source_ident with
                   | Some si => mret (cache_key (dataset si))
                   | None => raise NotFoundError
                   end
               | None => mret (cache_key (p_identity part))
               end;
  cache_put_stream (cache_key (p_identity part))
    (if get_stream remote source_key then mret tt else raise NotFoundError) ;;
  let abs_path := cache_path env (cache_key (p_identity part)) in
  if bool_decide (abs_path = "") || negb (path_exists env abs_path)
  then raise NotFoundError
  else mret tt.

(** [get].  The arguments [force] and [cb] are left out: the first is
    not read, the second is handed to [get_stream] only.  The result is
    the bundle with the partition attached to it, if the reference names
    one.

    The message of the error "No remote defined" reads [df.source_url],
    where [df] is the variable of the list comprehension over
    [dataset_files], which Python 2 leaves in the scope of the function:
    without a bundle row the variable is unbound. *)
Definition get (ref : reference) (remote : option Remote)
    (location : option (list file_type)) : M (Bundle * option Partition) :=
  d ← resolve env ref location;
  match d with
  | None => raise NotFoundError
  | Some d =>
      dataset_files ← Files.all (λ f, f_type f = BUNDLE ∧ f_ref f = vid (dataset d));
      let remote := get_remote remote dataset_files in
      bundle ← _get_bundle_by_cache_key env (cache_key (dataset d));
      match bundle with
      | None => raise NotFoundError
      | Some bundle =>
          try_finally
            (match partition d with
             | None => mret (bundle, None)
             | Some dp =>
                 match partitions_get bundle (vid dp) with
                 | None => raise NotFoundError
                 | Some part =>
                     has ← cache_has (cache_key (p_identity part));
                     source ←
                       (if (has : bool) return M string then mret (repo_id env)
                        else
                          match remote with
                          | None =>
                              match dataset_files with
                              | [] => raise UnboundLocalError
                              | _ :: _ => raise NotFoundError
                              end
                          | Some r =>
                              copy_from_remote r part ;;
                              mret (r_repo_id r)
                          end);
                     put_partition env part (Some source) "installed" true ;;
                     mret (bundle, Some part)
                 end
             end)
            (bundle_close bundle)
      end
  end.

(** [locate].  An [Identity] object is taken as it is; the file looked
    for is that of [ident.cache_key], the key of the dataset. *)
Definition locate (ref : reference) : M (option Identity * option location) :=
  ident ← match ref with
          | RefIdentity i => mret (Some i)
          | RefString _ => resolve env ref None
          end;
  match ident with
  | None => mret (None, None)
  | Some i =>
      has ← cache_has (cache_key (dataset i));
      if (has : bool) then mret (Some i, Some AtCache)
      else
        match head (filter (λ r, remote_has r (cache_key (dataset i)) = true)
                      (sorted_by priority
                         ((λ nr : string * Remote, nr.2) <$> lib_remotes env))) with
        | Some r => mret (Some i, Some (AtRemote r))
        | None => mret (Some i, None)
        end
  end.

(** [store]: the row of type [STORE] with the reference [uid], or else
    the one with the path [uid]. *)
Definition store (uid : string) : M (option File) :=
  f ← Files.one_maybe (λ f, f_type f = STORE ∧ f_ref f = uid);
  match f with
  | Some f => mret (Some f)
  | None => Files.one_maybe (λ f, f_type f = STORE ∧ f_path f = uid)
  end.

(** [manifest]: [None] stands for the pair [(None, None)]. *)
Definition manifest (uid : string) : M (option (File * Manifest)) :=
  f ← Files.one_maybe (λ f, f_type f = MANIFEST ∧ f_ref f = uid);
  match f with
  | None => mret None
  | Some f => m ← lift (new_manifest f); mret (Some (f, m))
  end.

(** [self.database.session.delete(f)] on a row of the session. *)
Definition session_delete (f : File) : M unit :=
  Files.delete (λ g, g = f).

Definition remove_manifest (uid : string) : M unit :=
  fm ← manifest uid;
  match fm with
  | None => raise NotFoundError
  | Some (f, _) =>
      mark_updated (Some (f_ref f)) None ;;
      session_delete f ;;
      database_commit
  end.

End Retrieval.

(** ** [versioned_datasets] *)

(** A row of the ORM class [Dataset], as far as [versioned_datasets]
    reads it: [ds.id_], [ds.vid], [ds.revision]; the row stands for its
    [ds.dict]. *)
Record DatasetRow := {
  ds_id : string;
  ds_vid : string;
  ds_revision : N }.

#[global] Instance DatasetRow_eq_dec : EqDecision DatasetRow.
Proof. solve_decision. Defined.

(** An entry of the result: the dict of a dataset, with the dicts of its
    other versions under the key [other_versions], by vid. *)
Record VersionedEntry := {
  ve_dict : DatasetRow;
  other_versions : gmap string DatasetRow }.

(** The body of the loop of [versioned_datasets]. *)
Definition versioned_step (datasets : gmap string VersionedEntry) (ds : DatasetRow)
    : gmap string VersionedEntry :=
  match datasets !! ds_id ds with
  | None => <[ds_id ds := {| ve_dict := ds; other_versions := ∅ |}]> datasets
  | Some e =>
      <[ds_id ds := {| ve_dict := ve_dict e;
                       other_versions := <[ds_vid ds := ds]> (other_versions e) |}]>
        datasets
  end.

(** [versioned_datasets]; [rows] is the result of the query
    [query(Dataset).order_by(Dataset.revision.desc()).all()]. *)
Definition versioned_datasets (rows : list DatasetRow) : gmap string VersionedEntry :=
  foldl versioned_step ∅ rows.

(** ** The registry of libraries: [new_library] *)

Section Registry.

(** The type of configurations, with [config.get('_name', None)]. *)
Variable Config : Type.
Variable config_name : Config → option string.

(** [get_runconfig().library('default')] *)
Variable default_config : result Config.

(** What a [Library] object is built from, and the function
    [_new_library] that builds it. *)
Variable Parts : Type.

(** A [Library] object: what it was built from and the cache of its
    dependencies, [self._dependencies]. *)
Record LibraryObject := {
  parts : Parts;
  _dependencies : option (list (string * Ident)) }.

Variable _new_library : Config → result LibraryObject.

Definition clear_dependencies (l : LibraryObject) : LibraryObject :=
  {| parts := parts l; _dependencies := None |}.

(** [new_library] on the global [libraries]: the result and the value of
    the global afterwards.  The call of [clear_dependencies] changes the
    object held by the registry. *)
Definition new_library (config : option Config) (reset : bool)
    (libraries : gmap string LibraryObject)
    : result LibraryObject * gmap string LibraryObject :=
  match (match config with Some c => Ok c | None => default_config end) with
  | Raise e => (Raise e, libraries)
  | Ok config =>
      let libraries := if reset then ∅ else libraries in
      let name := default "default" (config_name config) in
      match libraries !! name with
      | Some l =>
          (Ok (clear_dependencies l), <[name := clear_dependencies l]> libraries)
      | None =>
          match _new_library config with
          | Raise e => (Raise e, libraries)
          | Ok l =>
              (Ok (clear_dependencies l), <[name := clear_dependencies l]> libraries)
          end
      end
  end.

(** [clear_libraries] *)
Definition clear_libraries (libraries : gmap string LibraryObject)
    : gmap string LibraryObject := ∅.

End Registry.

(** ** The parser of search phrases: [SearchTermParser.parse]

    From [ambry/library/search.py].  The scanner is a [re.Scanner]; its
    callbacks [s_term], [s_quotedterm], [s_domainname], [s_markerterm]
    and [s_year] decide the tokens it returns: a pair of a type and a
    lowercased string, or of [YEAR] and an integer.  [parse] is modelled
    on the list of tokens that [scan] returns. *)

Module SearchTerms.

Inductive token :=
| TERM (s : string)
| QUOTEDTERM (s : string)
| MARKER (s : string)
| YEAR (n : Z).

(** The second component of a token. *)
Inductive value :=
| Str (s : string)
| Int (n : Z).

Definition token_value (t : token) : value :=
  match t with
  | TERM s | QUOTEDTERM s | MARKER s => Str s
  | YEAR n => Int n
  end.

Inductive error := IndexError | TypeError.

Inductive answer (A : Type) :=
| Returns (a : A)
| Raises (e : error).
Arguments Returns {A} a.
Arguments Raises {A} e.

(** What [parse] leaves under a marker: the list of terms, when it is
    empty, or one value. *)
Inductive group :=
| Terms (l : list value)
| Single (v : value).

(** [SearchTermParser.by_terms] before stemming. *)
Definition by_terms_words : list string :=
  ["state"; "county"; "zip"; "zcta"; "tract"; "block"; "blockgroup";
   "place"; "city"; "cbsa"; "msa"].

(** [sep.join(l)] on strings. *)
Fixpoint join_strings (sep : string) (l : list string) : string :=
  match l with
  | [] => ""
  | [s] => s
  | s :: l' => (s ++ sep ++ join_strings sep l')%string
  end.

(** The strings of a list of values; [None] when one is an integer. *)
Definition strings_of (l : list value) : option (list string) :=
  mapM (λ v, match v with Str s => Some s | Int _ => None end) l.

(** [sep.join(l)]: an integer among the items raises [TypeError],
    [None] here. *)
Definition join (sep : string) (l : list value) : option string :=
  join_strings sep <$> strings_of l.

Section Parse.

(** [self.stem], the Lancaster stemmer. *)
Variable stem : string → string.

Definition by_terms : list string := stem <$> by_terms_words.

(** [bymarker[-1][1].append(t)]; [None] for the [IndexError] on an
    empty list. *)
Fixpoint append_last (t : token) (bymarker : list (string * list token))
    : option (list (string * list token)) :=
  match bymarker with
  | [] => None
  | [(m, ts)] => Some [(m, ts ++ [t])]
  | g :: rest => (λ r, g :: r) <$> append_last t rest
  end.

(** The loop that groups the tokens by their marker. *)
Fixpoint group_by_marker (toks : list token) (bymarker : list (string * list token))
    : answer (list (string * list token)) :=
  match toks with
  | [] => Returns bymarker
  | MARKER m :: toks' => group_by_marker toks' (bymarker ++ [(m, [])])
  | t :: toks' =>
      match append_last t bymarker with
      | Some bymarker' => group_by_marker toks' bymarker'
      | None => Raises IndexError
      end
  end.

(** The conversion of a marker according to its terms: [in] becomes
    [by] before a single word of [by_terms], [from] becomes [source]
    before a single term that is not a year. *)
Definition convert (t : string * list token) : string * list token :=
  let '(m, ts) := t in
  let m1 :=
    match ts with
    | [TERM s] | [QUOTEDTERM s] | [MARKER s] =>
        if bool_decide (m = "in") && bool_decide (stem s ∈ by_terms) then "by" else m
    | _ => m
    end in
  let m2 :=
    match ts with
    | [TERM _] | [QUOTEDTERM _] | [MARKER _] =>
        if bool_decide (m1 = "from") then "source" else m1
    | _ => m1
    end in
  (m2, ts).

(** [groups]: the terms of the components, by marker. *)
Definition collect (comps : list (string * list token)) : gmap string (list value) :=
  foldl (λ groups (c : string * list token),
           <[c.1 := default [] (groups !! c.1) ++ (token_value <$> c.2)]> groups)
    ∅ comps.

(** The last loop, for one marker; [None] for the [TypeError] of
    [join]. *)
Definition finish (marker : string) (terms : list value) : option group :=
  match terms with
  | [] => Some (Terms [])
  | [v] => Some (Single v)
  | _ =>
      if contains marker "in"
      then (λ s, Single (Str s)) <$> join " " terms
      else (λ s, Single (Str ("(" ++ s ++ ")"))) <$> join " OR " terms
  end.

(** [parse], on the tokens [toks] of the phrase. *)
Definition parse (toks : list token) : answer (gmap string group) :=
  match toks with
  | [] => Raises IndexError
  | t0 :: _ =>
      let toks := match t0 with
                  | TERM _ | QUOTEDTERM _ => MARKER "about" :: toks
                  | _ => toks
                  end in
      match group_by_marker toks [] with
      | Raises e => Raises e
      | Returns bymarker =>
          let groups := collect (convert <$> bymarker) in
          match mapM (λ mt : string * list value, (λ g, (mt.1, g)) <$> finish mt.1 mt.2)
                  (map_to_list groups) with
          | Some l => Returns (list_to_map l)
          | None => Raises TypeError
          end
      end
  end.

End Parse.

(** A token that is a marker. *)
Definition is_marker (t : token) : bool :=
  match t with
  | MARKER _ => true
  | _ => false
  end.

(** A token that is a year. *)
Definition is_year (t : token) : bool :=
  match t with
  | YEAR _ => true
  | _ => false
  end.

End SearchTerms.

(** ** Vocabulary for what a method leaves alone *)

(** The trace of [w'] is the trace of [w] and more. *)
Definition trace_grows (w w' : World) : Prop :=
  ∃ evs, trace w' = trace w ++ evs.

(** The computation [c] takes every world to a world related to it by
    [R], whether it returns or raises. *)
Definition keeps (R : World → World → Prop) {A} (c : M A) : Prop :=
  ∀ w, R w (run c w).2.

(** The ledger rows of the other types: remote, source, store and
    manifest rows. *)
Definition other_rows (l : list File) : list File :=
  filter (λ f, ¬ Files.installed f) l.

(** What the synchronisation methods leave alone: the ledger rows of the
    other types, the files of the local cache, which are never removed,
    the keys of the upstream and the clock. *)
Definition sync_frame (w w' : World) : Prop :=
  other_rows (files w') = other_rows (files w)
  ∧ cache w ⊆ cache w'
  ∧ upstream_keys w' = upstream_keys w
  ∧ ticks w' = ticks w.

(** What [push] leaves alone: the datasets of the catalog and the local
    cache; it removes no key from the upstream and keeps the number of
    ledger rows. *)
Definition push_frame (w w' : World) : Prop :=
  datasets w' = datasets w
  ∧ cache w' = cache w
  ∧ upstream_keys w ⊆ upstream_keys w'
  ∧ List.length (files w') = List.length (files w).

(** ** Vocabulary for [push] over every new record *)

(** The ledger after a push of the reference [r]: its rows in state
    [new] are [pushed]. *)
Definition mark_pushed (r : string) (l : list File) : list File :=
  (λ g, if decide (is_new_for r g) then set_state "pushed" g else g) <$> l.

(** The ledger with every installed row in state [new] set to
    [pushed]. *)
Definition all_pushed (l : list File) : list File :=
  (λ g, if decide (Files.installed g ∧ f_state g = "new")
        then set_state "pushed" g else g) <$> l.

(** ** Vocabulary for the filter [vids] of [sync_remotes] *)

(** Every ledger row and every dataset of [w'] was in [w] already or
    belongs to one of the vids [vs]. *)
Definition within_vids (vs : list string) (w w' : World) : Prop :=
  (∀ f, f ∈ files w' → f ∈ files w ∨ f_ref f ∈ vs)
  ∧ (∀ v, v ∈ datasets w' → v ∈ datasets w ∨ v ∈ vs).

(** ** Vocabulary for the install phase of [sync_library] *)

(** The ledger has at most one row of type [BUNDLE] for every vid. *)
Definition one_bundle_row_per_vid (l : list File) : Prop :=
  ∀ v, (List.length (filter (λ f, f_ref f = v ∧ f_type f = BUNDLE) l) ≤ 1)%nat.

(** ** Vocabulary for the course of [sync_remotes] *)

(** The world [w'] has grown from [w]: the ledger still records the
    bundles it recorded, the catalog has the datasets it had, and the
    log has the errors it had. *)
Definition grown (w w' : World) : Prop :=
  (∀ v, bundle_recorded v (files w) → bundle_recorded v (files w'))
  ∧ (∀ v, v ∈ datasets w → v ∈ datasets w')
  ∧ (∀ m, m ∈ error_logs (trace w) → m ∈ error_logs (trace w')).

(** The ledger of [wt], in the course of a call that began in [w]: at
    most one bundle row per vid; the catalog has the dataset of every
    bundle recorded since the call began; the keys known for the remotes
    are those of [w]. *)
Definition in_course (w wt : World) : Prop :=
  one_bundle_row_per_vid (files wt)
  ∧ (∀ v, bundle_recorded v (files wt) →
          v ∈ datasets wt ∨ bundle_recorded v (files w))
  ∧ (∀ r, known_keys r (files wt) = known_keys r (files w)).

(** ** Vocabulary for the keys that [sync_remotes] skips *)

(** The trace of [w'] names the same keys in its entries "Skip old
    version" as the trace of [w]. *)
Definition same_skips (w w' : World) : Prop :=
  skip_logs (trace w') = skip_logs (trace w).

(** ** Vocabulary for the rows that [sync_library] writes *)

(** A bundle or partition row recorded for the local cache in state
    [installed]. *)
Definition written_by_sync (env : Env) (f : File) : Prop :=
  Files.installed f ∧ f_source_url f = repo_id env ∧ f_state f = "installed".

(** The bundle and partition rows of a ledger are all recorded for the
    local cache in state [installed]. *)
Definition synced_rows (env : Env) (l : list File) : Prop :=
  ∀ f, f ∈ l → Files.installed f →
       f_source_url f = repo_id env ∧ f_state f = "installed".

(** When the ledger of [w] is such a ledger, that of [w'] is one too. *)
Definition rows_from_sync (env : Env) (w w' : World) : Prop :=
  synced_rows env (files w) → synced_rows env (files w').

(** ** More concrete libraries *)

Module Cases.

(** Resolves a vid to the dataset of that vid, stored under the key of
    that name; the upstream refuses the uploads of the path [bad] with
    [e]. *)
Definition by_vid (bad : string) (e : exn) : Env :=
  {| repo_id := "local";
     cache_dir := "/cache";
     cache_upstreams := ["r1"];
     has_doc_cache := true;
     lib_remotes := [("r1", {| r_repo_id := "r1"; r_list := Ok [] |})];
     source_path := None;
     resolve_ref_one := λ ref _,
       Ok (Some {| dataset := {| vid := ref; vname := ref; cache_key := ref |};
                   is_bundle := true; partition := None; bundle_path := None |});
     arc_get := λ key, Ok (Some key);
     path_exists := λ _, true;
     DbBundle := λ p, Ok (Demo.bundle_at p);
     install_bundle := λ _, None;
     to_meta := λ _ _, ∅;
     clock_reading := λ n, Z.of_nat n;
     upstream_put := λ p _, if bool_decide (p = bad) then Some e else None;
     upstream_store_list := Some AttributeError;
     dict_rank := λ _ _, 0%nat |}.

(** A ledger row for the vid [v], stored under the path [v]. *)
Definition row (v : string) (type : file_type) (state : string) : File :=
  {| f_ref := v; f_type := type; f_source_url := "local";
     f_state := state; f_path := v |}.

(** A library with three records: two new ones and one installed. *)
Definition three : World :=
  {| files := [row "a" BUNDLE "new"; row "b" BUNDLE "installed";
               row "c" PARTITION "new"];
     datasets := ["a"; "b"]; cache := {[ "a"; "b"; "c" ]};
     upstream_keys := {[ "a" ]}; ticks := 0; trace := [] |}.

(** As [Demo.walking], but the catalog refuses the first bundle with
    [ConflictError]. *)
Definition conflicting : Env :=
  Demo.env [] (λ _, Ok None) (DbBundle Demo.walking)
    (λ b, if bool_decide (b_database_path b = "/cache/a-0.0.1.db")
          then Some ConflictError else None).

(** The partition of a bundle found under its vid: the partition stored
    under the key that follows the prefix [vid:]. *)
Definition partitions_get (b : Bundle) (v : string) : option Partition :=
  if String.prefix "vid:" v
  then Some (Demo.partition_at (String.substring 4 (String.length v - 4) v))
  else None.

(** A library that records the bundle [a-0.0.1.db] and holds its file
    and the file of its partition [part.db], which the ledger does not
    record. *)
Definition with_partition : World :=
  {| files := [Demo.row "a-0.0.1.db" BUNDLE "installed"];
     datasets := ["vid:a-0.0.1.db"];
     cache := {[ "a-0.0.1.db"; "part.db" ]};
     upstream_keys := ∅; ticks := 0; trace := [] |}.

(** A library with two remotes, listed with the one of lower priority
    first; the resolver knows every reference. *)
Definition two_remotes : Env :=
  {| repo_id := "local";
     cache_dir := "/cache";
     cache_upstreams := ["far"; "near"];
     has_doc_cache := false;
     lib_remotes := [("far", {| r_repo_id := "far"; r_list := Ok [] |});
                     ("near", {| r_repo_id := "near"; r_list := Ok [] |})];
     source_path := None;
     resolve_ref_one := λ ref _, Ok (Some (Demo.identity_of ref));
     arc_get := λ key, Ok (Some key);
     path_exists := λ _, true;
     DbBundle := λ p, Ok (Demo.bundle_at p);
     install_bundle := λ _, None;
     to_meta := λ _ _, ∅;
     clock_reading := λ n, Z.of_nat n;
     upstream_put := λ _ _, None;
     upstream_store_list := None;
     dict_rank := λ _ _, 0%nat |}.

(** A library with three remotes.  The first lists a bundle that the
    catalog rejects with [NotABundle] and a key that the cache stack
    does not find; the listing of the second fails; the third lists a
    key without revision and two revisions of [c]. *)
Definition mirrored : Env :=
  {| repo_id := "local";
     cache_dir := "/cache";
     cache_upstreams := ["r1"; "down"; "r2"];
     has_doc_cache := false;
     lib_remotes :=
       [("r1", {| r_repo_id := "r1";
                  r_list := Ok ["a-0.0.1.db"; "bad-0.0.1.db"; "lost-0.0.1.db"] |});
        ("down", {| r_repo_id := "down"; r_list := Raise S3ResponseError |});
        ("r2", {| r_repo_id := "r2";
                  r_list := Ok ["README"; "c-0.0.1.db"; "c-0.0.2.db"] |})];
     source_path := None;
     resolve_ref_one := λ _ _, Ok None;
     arc_get := λ key, if bool_decide (key = "lost-0.0.1.db") then Ok None
                       else Ok (Some key);
     path_exists := λ _, true;
     DbBundle := λ p, Ok (Demo.bundle_at p);
     install_bundle := λ b, if bool_decide (b_database_path b = "bad-0.0.1.db")
                            then Some NotABundle else None;
     to_meta := λ _ _, ∅;
     clock_reading := λ n, Z.of_nat n;
     upstream_put := λ _ _, None;
     upstream_store_list := None;
     dict_rank := λ _ _, 0%nat |}.

(** The priority of the two remotes. *)
Definition priority (r : Remote) : nat :=
  if bool_decide (r_repo_id r = "near") then 0 else 1.

End Cases.

(** * Properties *)

(** ** The string functions on examples *)

Example nv_key_a : Re.nv_key "a-1.0.1.db" = "a".
Proof. reflexivity. Qed.

Example nv_key_path : Re.nv_key "src/ds-0.0.12.db" = "src/ds".
Proof. reflexivity. Qed.

Example nv_key_plain : Re.nv_key "README" = "README".
Proof. reflexivity. Qed.

Example nv_key_part : Re.nv_key "a-1.0.1/geo.db" = "a-1.0.1/geo.db".
Proof. reflexivity. Qed.

Example search_version_a : Re.search_version "a-1.0.12.db" = Some 12.
Proof. reflexivity. Qed.

Example search_version_nl :
  Re.search_version ("a-1.0.3.db" ++ String "010"%char "")%string = Some 3.
Proof. reflexivity. Qed.

Example search_version_none : Re.search_version "a-1.0.1/geo.db" = None.
Proof. reflexivity. Qed.

Example path_join_ex : path_join "/var/cache" "a-0.0.1.db" = "/var/cache/a-0.0.1.db".
Proof. reflexivity. Qed.

Example endswith_ex : endswith ".db" "a-0.0.1.db" = true ∧ endswith ".db" "db" = false.
Proof. split; reflexivity. Qed.

Example contains_ex : contains "/meta/" "/c/meta/x" = true ∧ contains "/meta/" "/c/meta" = false.
Proof. split; reflexivity. Qed.


(** ** Running computations *)

Ltac unfold_m :=
  unfold run, mbind, M_bind, mret, M_ret, raise, try_except,
    lift, modify, emit, get_world in *.

Ltac world_simpl :=
  unfold with_files, with_datasets, with_cache, with_upstream, with_ticks,
    with_trace in *;
  cbn [files datasets cache upstream_keys ticks trace] in *.

Lemma run_bind {A B} (c : M A) (f : A → M B) (w : World) :
  run (c ≫= f) w =
  match run c w with
  | (Ok a, w') => run (f a) w'
  | (Raise e, w') => (Raise e, w')
  end.
Proof. reflexivity. Qed.

Lemma run_bind_ok {A B} (c : M A) (f : A → M B) (w w' : World) (a : A) :
  run c w = (Ok a, w') → run (c ≫= f) w = run (f a) w'.
Proof. intros H. rewrite run_bind, H. reflexivity. Qed.

Lemma run_bind_raise {A B} (c : M A) (f : A → M B) (w w' : World) (e : exn) :
  run c w = (Raise e, w') → run (c ≫= f) w = (Raise e, w').
Proof. intros H. rewrite run_bind, H. reflexivity. Qed.

Lemma for_each_app {A} (l1 l2 : list A) (body : A → M unit) (w : World) :
  run (for_each (l1 ++ l2) body) w =
  match run (for_each l1 body) w with
  | (Ok _, w') => run (for_each l2 body) w'
  | (Raise e, w') => (Raise e, w')
  end.
Proof.
  revert w. induction l1 as [|x l1 IH]; intros w; [reflexivity|].
  cbn [for_each app]. rewrite !run_bind.
  destruct (run (body x) w) as [[[]|e] w1]; [apply IH | reflexivity].
Qed.

(** A loop that only emits events appends them to the trace. *)
Lemma for_each_emit {A} (l : list A) (ev : A → event) (w : World) :
  run (for_each l (λ x, emit (ev x))) w
  = (Ok tt, with_trace (trace w ++ (ev <$> l)) w).
Proof.
  revert w. induction l as [|x l IH]; intros w.
  - cbn. unfold_m. rewrite app_nil_r. destruct w; reflexivity.
  - cbn [for_each fmap list_fmap]. rewrite run_bind.
    change (run (emit (ev x)) w) with (Ok tt, with_trace (trace w ++ [ev x]) w).
    cbn beta iota. rewrite IH. cbn. rewrite <- app_assoc. reflexivity.
Qed.

(** The primitives, one equation each.  Proofs about long computations
    rewrite with these and put the world back in the form of a record
    after every step. *)
Lemma run_ret {A} (a : A) (w : World) : run (mret a) w = (Ok a, w).
Proof. reflexivity. Qed.

Lemma run_raise {A} (e : exn) (w : World) : run (raise e : M A) w = (Raise e, w).
Proof. reflexivity. Qed.

Lemma run_lift {A} (r : result A) (w : World) : run (lift r) w = (r, w).
Proof. reflexivity. Qed.

Lemma run_get_world (w : World) : run get_world w = (Ok w, w).
Proof. reflexivity. Qed.

Lemma run_modify (f : World → World) (w : World) :
  run (modify f) w = (Ok tt, f w).
Proof. reflexivity. Qed.

Lemma run_emit (e : event) (w : World) :
  run (emit e) w = (Ok tt, with_trace (trace w ++ [e]) w).
Proof. reflexivity. Qed.

Lemma run_try_except {A} (c : M A) (h : exn → M A) (w : World) :
  run (try_except c h) w =
  match run c w with
  | (Ok a, w') => (Ok a, w')
  | (Raise e, w') => run (h e) w'
  end.
Proof. reflexivity. Qed.

Ltac world_norm :=
  unfold with_files, with_datasets, with_cache, with_upstream, with_ticks,
    with_trace;
  cbn [files datasets cache upstream_keys ticks trace].

Ltac run_step :=
  first
    [ rewrite run_bind
    | rewrite run_ret
    | rewrite run_raise
    | rewrite run_emit
    | rewrite run_modify
    | rewrite run_lift
    | rewrite run_get_world
    | rewrite run_try_except
    | progress cbv beta iota ];
  world_norm.

Ltac run_steps := repeat run_step.

(** ** The ledger queries *)

Lemma positions_filter (P : File → Prop) `{∀ f, Decision (P f)}
    (l : list File) (k : nat) :
  Forall2 (λ i f, l !! (i - k)%nat = Some f ∧ (k ≤ i)%nat)
    (Files.positions P k l) (filter P l).
Proof.
  revert k. induction l as [|g l IH]; intros k; [constructor|].
  cbn [Files.positions]. rewrite filter_cons. destruct (decide (P g)).
  - constructor.
    + rewrite Nat.sub_diag. split; [reflexivity | lia].
    + eapply Forall2_impl; [apply (IH (S k))|].
      intros i f [Hl Hk]. split; [|lia].
      replace (i - k)%nat with (S (i - S k)) by lia. exact Hl.
  - eapply Forall2_impl; [apply (IH (S k))|].
    intros i f [Hl Hk]. split; [|lia].
    replace (i - k)%nat with (S (i - S k)) by lia. exact Hl.
Qed.

(** [.one] on a query that selects exactly one row returns that row and
    its position, and leaves the world as it is. *)
Lemma one_single (P : File → Prop) `{∀ f, Decision (P f)} (w : World) (f : File) :
  filter P (files w) = [f] →
  ∃ i, files w !! i = Some f ∧ run (Files.one P) w = (Ok (i, f), w).
Proof.
  intros Hf. pose proof (positions_filter P (files w) 0) as HF.
  rewrite Hf in HF.
  inversion HF as [|i f' li lf [Hi _] Hrest Hp Heq]; subst.
  inversion Hrest; subst.
  rewrite Nat.sub_0_r in Hi. exists i. split; [exact Hi|].
  unfold Files.one. unfold_m. rewrite <- Hp, Hi. reflexivity.
Qed.

Lemma one_none (P : File → Prop) `{∀ f, Decision (P f)} (w : World) :
  filter P (files w) = [] →
  run (Files.one P) w = (Raise NoResultFound, w).
Proof.
  intros Hf. pose proof (positions_filter P (files w) 0) as HF.
  rewrite Hf in HF. inversion HF as [Hp|]; subst.
  unfold Files.one. unfold_m. rewrite <- Hp. reflexivity.
Qed.

Lemma one_maybe_single (P : File → Prop) `{∀ f, Decision (P f)} (w : World) (f : File) :
  filter P (files w) = [f] →
  run (Files.one_maybe P) w = (Ok (Some f), w).
Proof.
  intros Hf. destruct (one_single P w f Hf) as (i & _ & Hone).
  unfold Files.one_maybe, try_except, run. cbn.
  unfold run in Hone. unfold mbind, M_bind. rewrite Hone. reflexivity.
Qed.

Lemma one_maybe_none (P : File → Prop) `{∀ f, Decision (P f)} (w : World) :
  filter P (files w) = [] →
  run (Files.one_maybe P) w = (Ok None, w).
Proof.
  intros Hf. pose proof (one_none P w Hf) as Hone.
  unfold Files.one_maybe, try_except, run. cbn.
  unfold run in Hone. unfold mbind, M_bind. rewrite Hone. reflexivity.
Qed.

(** ** [has] on a reference that does not resolve *)

(** When the resolver finds nothing, or rejects the reference as not an
    object number, [resolve] returns [None]. *)
Lemma resolve_none (env : Env) (ref : reference) (location : option (list file_type))
    (w : World) :
  let s := match ref with RefString s => s | RefIdentity i => vid (dataset i) end in
  let loc := Some (default default_location location) in
  resolve_ref_one env s loc = Ok None
  ∨ resolve_ref_one env s loc = Raise NotObjectNumberError →
  run (resolve env ref location) w = (Ok None, w).
Proof.
  intros s loc [H|H]; unfold resolve; fold s; fold loc; unfold_m;
    rewrite H; reflexivity.
Qed.

(** C9: for every reference that [resolve] maps to [None], [has] does
    not return [False]: it raises [AttributeError], from reading
    [.partition] on [None]. *)
Theorem has_unresolved_raises (env : Env) (ref : reference)
    (location : option (list file_type)) (w w' : World) :
  run (resolve env ref location) w = (Ok None, w') →
  run (has env ref location) w = (Raise AttributeError, w')
  ∧ ∀ b : bool, fst (run (has env ref location) w) ≠ Ok b.
Proof.
  intros H. assert (Hr : run (has env ref location) w = (Raise AttributeError, w')).
  { unfold has. rewrite (run_bind_ok _ _ _ _ _ H). reflexivity. }
  split; [exact Hr|]. intros b. rewrite Hr. discriminate.
Qed.

Lemma has_unresolved_raises_witness :
  run (has (Demo.plain []) (RefString "nothing") None) Demo.empty
  = (Raise AttributeError, Demo.empty)
  ∧ ∀ b : bool,
      fst (run (has (Demo.plain []) (RefString "nothing") None) Demo.empty) ≠ Ok b.
Proof.
  apply (has_unresolved_raises (Demo.plain []) (RefString "nothing") None
           Demo.empty Demo.empty).
  reflexivity.
Defined.

(** On a reference that resolves, [has] answers from the local cache. *)
Example has_resolved :
  run (has Demo.resolving (RefString "a-0.0.1.db") None)
      (Demo.holding "a-0.0.1.db" "installed" ∅)
  = (Ok true, Demo.holding "a-0.0.1.db" "installed" ∅).
Proof. vm_compute. reflexivity. Qed.

(** ** [remove] *)

(** C10: [remove] deletes the records of the bundle from the library
    database, marks it updated, and removes its cache key from the local
    cache with [propagate=True], so that the removal is attempted on
    every remote tier behind the cache. No argument of [remove] selects
    a removal from the local tier alone. *)
Theorem remove_propagates (env : Env) (bundle : Bundle) (i : Identity) (w : World) :
  b_identity bundle = Ok i →
  let v := vid (dataset i) in
  let key := cache_key (dataset i) in
  run (remove env bundle) w =
  (Ok tt,
   {| files := filter (λ f, ¬ (f_ref f = v
                 ∨ f_ref f ∈ (λ p, vid (p_identity p)) <$> b_partitions bundle))
                 (files w);
      datasets := filter (λ x, x ≠ v) (datasets w);
      cache := cache w ∖ {[ key ]};
      upstream_keys := upstream_keys w;
      ticks := ticks w;
      trace := trace w
               ++ [DbRemoveBundle v; MarkUpdated (Some v) None; CacheRemove key true]
               ++ ((λ r, RemoteRemove r key) <$> cache_upstreams env) |}).
Proof.
  intros Hi v key. unfold remove, database_remove_bundle, mark_updated, cache_remove.
  unfold Files.delete. rewrite Hi.
  unfold_m. cbn -[for_each filter fmap elem_of difference].
  match goal with
  | |- context [for_each ?l ?body ?w0] =>
      replace (for_each l body w0)
        with (Ok tt, with_trace (trace w0 ++ ((λ r, RemoteRemove r key) <$> l)) w0)
        by (symmetry; exact (for_each_emit l (λ r, RemoteRemove r key) w0))
  end.
  cbn -[filter fmap elem_of difference].
  rewrite <- !app_assoc. reflexivity.
Qed.

Lemma remove_propagates_witness :
  run (remove (Demo.plain []) (Demo.bundle_at "a-0.0.1.db"))
      (Demo.holding "a-0.0.1.db" "installed" ∅)
  = (Ok tt,
     {| files := []; datasets := []; cache := {[ "a-0.0.1.db" ]} ∖ {[ "a-0.0.1.db" ]};
        upstream_keys := ∅; ticks := 0;
        trace := [DbRemoveBundle "vid:a-0.0.1.db";
                  MarkUpdated (Some "vid:a-0.0.1.db") None;
                  CacheRemove "a-0.0.1.db" true;
                  RemoteRemove "r1" "a-0.0.1.db"] |}).
Proof.
  apply (remove_propagates (Demo.plain []) (Demo.bundle_at "a-0.0.1.db")
           (Demo.identity_of "a-0.0.1.db")
           (Demo.holding "a-0.0.1.db" "installed" ∅)).
  reflexivity.
Defined.

(** ** [put_bundle] on a bundle that is already recorded *)

Lemma already_installed_single (env : Env) (bundle : Bundle) (i : Identity)
    (f : File) (w : World) :
  b_identity bundle = Ok i →
  filter (λ f, f_ref f = vid (dataset i) ∧ f_type f = BUNDLE) (files w) = [f] →
  run (already_installed bundle false) w = (Ok true, w).
Proof.
  intros Hi Hf. unfold already_installed. rewrite Hi.
  rewrite run_bind. cbn [lift run].
  rewrite (run_bind_ok _ _ _ _ _ (one_maybe_single _ w f Hf)). reflexivity.
Qed.

Lemma already_installed_none (env : Env) (bundle : Bundle) (i : Identity)
    (force : bool) (w : World) :
  b_identity bundle = Ok i →
  filter (λ f, f_ref f = vid (dataset i) ∧ f_type f = BUNDLE) (files w) = [] →
  run (already_installed bundle force) w = (Ok false, w).
Proof.
  intros Hi Hf. unfold already_installed. destruct force; [reflexivity|].
  rewrite Hi. rewrite run_bind. cbn [lift run].
  rewrite (run_bind_ok _ _ _ _ _ (one_maybe_none _ w Hf)). reflexivity.
Qed.

(** C7: when the ledger holds the record of type [BUNDLE] for the vid of
    the bundle, [put_bundle] without [force] returns at once with
    [installed] false and leaves the whole world as it was: the catalog,
    the ledger, the local cache, and the trace, on which a change of the
    search index or of the documentation cache would show. *)
Theorem put_bundle_idempotent (env : Env) (bundle : Bundle)
    (source : option string) (install_partitions : bool) (file_state : string)
    (commit : bool) (i : Identity) (f : File) (w : World) :
  b_identity bundle = Ok i →
  filter (λ f, f_ref f = vid (dataset i) ∧ f_type f = BUNDLE) (files w) = [f] →
  run (put_bundle env bundle source install_partitions file_state commit false) w
  = (Ok (cache_path env (cache_key (dataset i)), NotInstalled), w).
Proof.
  intros Hi Hf. unfold put_bundle.
  rewrite (run_bind_ok _ _ _ _ _ (already_installed_single env bundle i f w Hi Hf)).
  rewrite Hi. reflexivity.
Qed.

Lemma put_bundle_idempotent_witness :
  let w := snd (run (put_bundle (Demo.plain []) (Demo.bundle_at "a-0.0.1.db")
                       None true "installed" true false) Demo.empty) in
  run (put_bundle (Demo.plain []) (Demo.bundle_at "a-0.0.1.db")
         None true "installed" true false) w
  = (Ok ("/cache/a-0.0.1.db", NotInstalled), w).
Proof.
  apply (put_bundle_idempotent (Demo.plain []) (Demo.bundle_at "a-0.0.1.db")
           None true "installed" true (Demo.identity_of "a-0.0.1.db")
           {| f_ref := "vid:a-0.0.1.db"; f_type := BUNDLE; f_source_url := "local";
              f_state := "installed"; f_path := "a-0.0.1.db" |});
    reflexivity.
Defined.

(** The first call of the witness did install the bundle. *)
Example put_bundle_first :
  let '(r, w) := run (put_bundle (Demo.plain []) (Demo.bundle_at "a-0.0.1.db")
                        None true "installed" true false) Demo.empty in
  (∃ f, r = Ok ("/cache/a-0.0.1.db", InstalledAs f))
  ∧ datasets w = ["vid:a-0.0.1.db"]
  ∧ files w = [Demo.row "a-0.0.1.db" BUNDLE "installed"].
Proof. vm_compute. eauto. Qed.

(** ** [push] *)

Lemma alter_as_insert {A} (g : A → A) (l : list A) (i : nat) (x : A) :
  l !! i = Some x → alter g i l = <[i := g x]> l.
Proof.
  intros H. rewrite list_insert_alter. apply list_alter_ext; [|reflexivity].
  intros y Hy. congruence.
Qed.

(** The steps of [push_ref] up to the check of the upstream. *)
Lemma push_ref_found (env : Env) (up ref : string) (cb dry_run : bool)
    (dsid : Identity) (f : File) (w : World) :
  resolve_ref_one env ref None = Ok (Some dsid) →
  filter (is_new_for (vid (push_identity dsid))) (files w) = [f] →
  ∃ n, files w !! n = Some f ∧
  run (push_ref env (Some up) ref cb dry_run) w =
  let identity := push_identity dsid in
  let md := to_meta env identity (f_path f) in
  run (has ← upstream_has (cache_key identity);
       '(what, start, end_) ←
         (if (has : bool) return M (string * option Z * option Z) then
            call_back cb "Has" md 0 ;;
            (if dry_run then mret tt else set_file_state n "pushed") ;;
            mret ("has", None, None)
          else
            start ← clock env;
            call_back cb ("Pushing to " ++ up) md start ;;
            (if dry_run then mret tt
             else upstream_put_file env (f_path f) (cache_key identity) ;;
                  set_file_state n "pushed") ;;
            end_ ← clock env;
            call_back cb "Pushed" md (end_ - start)%Z ;;
            mret ("pushed", Some start, Some end_));
       (if dry_run then mret tt else merge_and_commit n) ;;
       mret (what, start, end_, md !! "size")) w.
Proof.
  intros Hr Hf. destruct (one_single _ w f Hf) as (n & Hn & Hone).
  exists n. split; [exact Hn|].
  unfold push_ref. rewrite Hr. rewrite run_bind. cbn [lift run].
  unfold try_except at 1. unfold run in *.
  unfold mbind at 1. unfold M_bind at 1. cbn beta. rewrite Hone.
  reflexivity.
Qed.

(** [push_ref] when the upstream already has the key. *)
Lemma push_ref_has_short_circuit (env : Env) (up ref : string) (cb : bool)
    (dsid : Identity) (f : File) (w : World) :
  let identity := push_identity dsid in
  let md := to_meta env identity (f_path f) in
  resolve_ref_one env ref None = Ok (Some dsid) →
  filter (is_new_for (vid identity)) (files w) = [f] →
  cache_key identity ∈ upstream_keys w →
  ∃ n, files w !! n = Some f ∧
  run (push_ref env (Some up) ref cb false) w =
  (Ok ("has", None, None, md !! "size"),
   {| files := <[n := set_state "pushed" f]> (files w);
      datasets := datasets w;
      cache := cache w;
      upstream_keys := upstream_keys w;
      ticks := ticks w;
      trace := trace w ++ [UpstreamHas (cache_key identity)]
               ++ (if cb then [Callback "Has" md 0] else [])
               ++ [SessionMerge (set_state "pushed" f); DbCommit] |}).
Proof.
  intros identity md Hr Hf Hup.
  destruct (push_ref_found env up ref cb false dsid f w Hr Hf) as (n & Hn & Hrun).
  exists n. split; [exact Hn|]. rewrite Hrun. clear Hrun.
  fold identity. fold md. cbv zeta.
  unfold upstream_has, call_back, set_file_state, merge_and_commit, database_commit.
  unfold_m. cbn -[alter insert lookup elem_of].
  rewrite (bool_decide_eq_true_2 _ Hup).
  destruct cb; cbn -[alter insert lookup elem_of];
    rewrite list_lookup_alter_eq, Hn; cbn -[alter insert lookup elem_of];
    rewrite (alter_as_insert _ _ _ _ Hn); world_simpl;
    rewrite <- !app_assoc; reflexivity.
Qed.

(** C3: when the single ledger record of the reference is in state
    [new] and the upstream already has its cache key, [push] without
    [dry_run] answers [has], calls [upstream.put] not at all (the trace
    gains the check of the upstream, the callback when one is given, the
    merge and the commit, and the keys of the upstream stay as they were)
    and sets the state of the record to [pushed]. *)
Theorem push_has_short_circuit (env : Env) (up ref : string) (cb : bool)
    (dsid : Identity) (f : File) (w : World) :
  let identity := push_identity dsid in
  let md := to_meta env identity (f_path f) in
  resolve_ref_one env ref None = Ok (Some dsid) →
  filter (is_new_for (vid identity)) (files w) = [f] →
  cache_key identity ∈ upstream_keys w →
  ∃ n, files w !! n = Some f ∧
  run (push env (Some up) (Some ref) cb false) w =
  (Ok (Some ("has", None, None, md !! "size")),
   {| files := <[n := set_state "pushed" f]> (files w);
      datasets := datasets w;
      cache := cache w;
      upstream_keys := upstream_keys w;
      ticks := ticks w;
      trace := trace w ++ [UpstreamHas (cache_key identity)]
               ++ (if cb then [Callback "Has" md 0] else [])
               ++ [SessionMerge (set_state "pushed" f); DbCommit] |}).
Proof.
  intros identity md Hr Hf Hup.
  destruct (push_ref_has_short_circuit env up ref cb dsid f w Hr Hf Hup)
    as (n & Hn & Hrun).
  exists n. split; [exact Hn|].
  unfold push. rewrite (run_bind_ok _ _ _ _ _ Hrun). reflexivity.
Qed.

Lemma push_has_short_circuit_witness :
  ∃ n, files (Demo.holding "a-0.0.1.db" "new" {[ "a-0.0.1.db" ]}) !! n
       = Some (Demo.row "a-0.0.1.db" BUNDLE "new") ∧
  run (push Demo.resolving (Some "up") (Some "a-0.0.1.db") true false)
      (Demo.holding "a-0.0.1.db" "new" {[ "a-0.0.1.db" ]}) =
  (Ok (Some ("has", None, None, Some "10")),
   {| files := <[n := Demo.row "a-0.0.1.db" BUNDLE "pushed"]>
                 [Demo.row "a-0.0.1.db" BUNDLE "new"];
      datasets := ["vid:a-0.0.1.db"];
      cache := {[ "a-0.0.1.db" ]};
      upstream_keys := {[ "a-0.0.1.db" ]};
      ticks := 0;
      trace := [] ++ [UpstreamHas "a-0.0.1.db"]
               ++ [Callback "Has" {[ "size" := "10" ]} 0]
               ++ [SessionMerge (Demo.row "a-0.0.1.db" BUNDLE "pushed"); DbCommit] |}).
Proof.
  exact (push_has_short_circuit Demo.resolving "up" "a-0.0.1.db" true
           (Demo.identity_of "a-0.0.1.db") (Demo.row "a-0.0.1.db" BUNDLE "new")
           (Demo.holding "a-0.0.1.db" "new" {[ "a-0.0.1.db" ]})
           eq_refl eq_refl (proj2 (elem_of_singleton _ _) eq_refl)).
Defined.

(** [push_ref] with [dry_run] set. *)
Lemma push_ref_dry_run (env : Env) (up ref : string) (cb : bool)
    (dsid : Identity) (f : File) (w : World) :
  let identity := push_identity dsid in
  let md := to_meta env identity (f_path f) in
  let has := bool_decide (cache_key identity ∈ upstream_keys w) in
  let t0 := clock_reading env (ticks w) in
  let t1 := clock_reading env (S (ticks w)) in
  resolve_ref_one env ref None = Ok (Some dsid) →
  filter (is_new_for (vid identity)) (files w) = [f] →
  run (push_ref env (Some up) ref cb true) w =
  (Ok (if has then ("has", None, None, md !! "size")
       else ("pushed", Some t0, Some t1, md !! "size")),
   {| files := files w;
      datasets := datasets w;
      cache := cache w;
      upstream_keys := upstream_keys w;
      ticks := if has then ticks w else S (S (ticks w));
      trace := trace w ++ [UpstreamHas (cache_key identity)]
               ++ (if cb then
                     if has then [Callback "Has" md 0]
                     else [Callback ("Pushing to " ++ up) md t0;
                           Callback "Pushed" md (t1 - t0)%Z]
                   else []) |}).
Proof.
  intros identity md has t0 t1 Hr Hf.
  destruct (push_ref_found env up ref cb true dsid f w Hr Hf) as (n & Hn & Hrun).
  rewrite Hrun. clear Hrun. fold identity. fold md. cbv zeta.
  unfold upstream_has, call_back, clock.
  unfold_m. cbn -[elem_of]. fold has. fold t0. fold t1.
  destruct has, cb; cbn -[elem_of]; world_simpl;
    rewrite <- ?app_assoc; reflexivity.
Qed.

(** C6: with [dry_run] set, [push] on a reference whose single ledger
    record is in state [new] checks the upstream, reports through the
    callback and through its result the action that a real push would
    take ([has] or [pushed]), and changes neither the ledger nor the
    catalog nor the caches nor the upstream: the trace gains the check
    and the callbacks, and no put, merge or commit. *)
Theorem push_dry_run (env : Env) (up ref : string) (cb : bool)
    (dsid : Identity) (f : File) (w : World) :
  let identity := push_identity dsid in
  let md := to_meta env identity (f_path f) in
  let has := bool_decide (cache_key identity ∈ upstream_keys w) in
  let t0 := clock_reading env (ticks w) in
  let t1 := clock_reading env (S (ticks w)) in
  resolve_ref_one env ref None = Ok (Some dsid) →
  filter (is_new_for (vid identity)) (files w) = [f] →
  run (push env (Some up) (Some ref) cb true) w =
  (Ok (Some (if has then ("has", None, None, md !! "size")
             else ("pushed", Some t0, Some t1, md !! "size"))),
   {| files := files w;
      datasets := datasets w;
      cache := cache w;
      upstream_keys := upstream_keys w;
      ticks := if has then ticks w else S (S (ticks w));
      trace := trace w ++ [UpstreamHas (cache_key identity)]
               ++ (if cb then
                     if has then [Callback "Has" md 0]
                     else [Callback ("Pushing to " ++ up) md t0;
                           Callback "Pushed" md (t1 - t0)%Z]
                   else []) |}).
Proof.
  intros identity md has t0 t1 Hr Hf.
  unfold push.
  rewrite (run_bind_ok _ _ _ _ _ (push_ref_dry_run env up ref cb dsid f w Hr Hf)).
  reflexivity.
Qed.

Lemma push_dry_run_witness :
  run (push Demo.resolving (Some "up") (Some "a-0.0.1.db") true true)
      (Demo.holding "a-0.0.1.db" "new" ∅) =
  (Ok (Some (if bool_decide ("a-0.0.1.db" ∈ (∅ : gset string))
             then ("has", None, None, Some "10")
             else ("pushed", Some 0%Z, Some 1%Z, Some "10"))),
   {| files := [Demo.row "a-0.0.1.db" BUNDLE "new"];
      datasets := ["vid:a-0.0.1.db"];
      cache := {[ "a-0.0.1.db" ]};
      upstream_keys := ∅;
      ticks := if bool_decide ("a-0.0.1.db" ∈ (∅ : gset string)) then 0%nat else 2%nat;
      trace := [] ++ [UpstreamHas "a-0.0.1.db"]
               ++ (if bool_decide ("a-0.0.1.db" ∈ (∅ : gset string))
                   then [Callback "Has" {[ "size" := "10" ]} 0]
                   else [Callback "Pushing to up" {[ "size" := "10" ]} 0;
                         Callback "Pushed" {[ "size" := "10" ]} (1 - 0)%Z]) |}).
Proof.
  exact (push_dry_run Demo.resolving "up" "a-0.0.1.db" true
           (Demo.identity_of "a-0.0.1.db") (Demo.row "a-0.0.1.db" BUNDLE "new")
           (Demo.holding "a-0.0.1.db" "new" ∅) eq_refl eq_refl).
Defined.

(** Whatever the reference and the ledger, a dry run writes nothing:
    also when the reference does not resolve or the query for its record
    fails. *)
Lemma push_dry_run_frame (env : Env) (upstream : option string) (ref : string)
    (cb : bool) (w : World) :
  let w' := snd (run (push_ref env upstream ref cb true) w) in
  files w' = files w ∧ datasets w' = datasets w ∧ cache w' = cache w
  ∧ upstream_keys w' = upstream_keys w
  ∧ ∃ evs, trace w' = trace w ++ evs ∧ Forall (λ e, writes e = false) evs.
Proof.
  cbv zeta. unfold push_ref.
  destruct upstream as [up|];
    [|cbn; repeat split; exists []; rewrite app_nil_r; split; [reflexivity|constructor]].
  unfold run, lift. unfold mbind at 1, M_bind at 1.
  destruct (resolve_ref_one env ref None) as [[dsid|]|e];
    try (cbn; repeat split; exists []; rewrite app_nil_r; split; [reflexivity|constructor]).
  unfold try_except, Files.one, upstream_has, call_back, clock.
  unfold_m.
  destruct (Files.positions _ 0 (files w)) as [|i [|j l]];
    [ cbn; repeat split; eexists; split; [reflexivity|repeat constructor]
    | | cbn; repeat split; eexists; split; [reflexivity|repeat constructor] ].
  destruct (files w !! i) as [f|];
    [| cbn; repeat split; eexists; split; [reflexivity|repeat constructor] ].
  cbn -[elem_of].
  destruct (bool_decide _), cb; cbn -[elem_of]; repeat split;
    eexists; (split; [rewrite <- ?app_assoc; reflexivity | repeat constructor]).
Qed.

(** ** [put_bundle] on a bundle that is not recorded yet *)

Lemma filter_none {A} (P : A → Prop) `{∀ x, Decision (P x)} (l : list A) :
  Forall (λ x, ¬ P x) l → filter P l = [].
Proof.
  induction 1 as [|x l Hx _ IH]; [reflexivity|].
  rewrite filter_cons_False by exact Hx. exact IH.
Qed.

Lemma record_fresh (f : File) (l : list File) :
  Forall (λ g, ¬ Files.same_key g f) l → Files.record f l = l ++ [f].
Proof.
  induction 1 as [|g l Hg _ IH]; [reflexivity|].
  cbn [Files.record app]. destruct (decide (Files.same_key g f)); [contradiction|].
  rewrite IH. reflexivity.
Qed.

Lemma recorded_as_fresh (f : File) (l : list File) :
  Forall (λ g, ¬ Files.same_key g f) l → Files.recorded_as f l = f.
Proof.
  induction 1 as [|g l Hg _ IH]; [reflexivity|].
  cbn [Files.recorded_as]. destruct (decide (Files.same_key g f)); [contradiction|].
  exact IH.
Qed.

Lemma skip_logs_app (t1 t2 : list event) :
  skip_logs (t1 ++ t2) = skip_logs t1 ++ skip_logs t2.
Proof. apply omap_app. Qed.

Lemma skip_logs_index (l : list Partition) :
  skip_logs ((λ p, IndexPartition (vid (p_identity p))) <$> l) = [].
Proof. induction l as [|p l IH]; [reflexivity | exact IH]. Qed.

Lemma error_logs_app (t1 t2 : list event) :
  error_logs (t1 ++ t2) = error_logs t1 ++ error_logs t2.
Proof. apply omap_app. Qed.

Lemma error_logs_index (l : list Partition) :
  error_logs ((λ p, IndexPartition (vid (p_identity p))) <$> l) = [].
Proof. induction l as [|p l IH]; [reflexivity | exact IH]. Qed.

(** The outcome of [put_bundle], as [sync_remotes] and [sync_library]
    call it, on a valid bundle without a record: the catalog gains the
    vid, the ledger gains the row, and no "Skip old version" is logged. *)
Lemma put_bundle_fresh (env : Env) (b : Bundle) (i : Identity)
    (source file_state : string) (w : World) :
  b_identity b = Ok i →
  install_bundle env b = None →
  unrecorded (vid (dataset i)) (files w) →
  let row := {| f_ref := vid (dataset i); f_type := BUNDLE;
                f_source_url := source; f_state := file_state;
                f_path := cache_key (dataset i) |} in
  ∃ w', run (put_bundle env b (Some source) false file_state true false) w
        = (Ok (cache_path env (cache_key (dataset i)), InstalledAs row), w')
    ∧ files w' = files w ++ [row]
    ∧ datasets w' = datasets w ++ [vid (dataset i)]
    ∧ ∃ evs, trace w' = trace w ++ evs ∧ skip_logs evs = [] ∧ error_logs evs = [].
Proof.
  intros Hi Hinst Hun row. unfold put_bundle.
  rewrite (run_bind_ok _ _ _ _ _
             (already_installed_none env b i false w Hi (filter_none _ _ Hun))).
  unfold database_install_bundle, install_bundle_file, Files.new_file,
    cache_has, cache_put, mark_updated.
  rewrite Hinst, Hi.
  assert (Hfresh : Forall (λ g, ¬ Files.same_key g row) (files w)).
  { eapply Forall_impl; [exact Hun|].
    intros g Hg [Hr [Ht _]]. apply Hg. split; [exact Hr|exact Ht]. }
  pose proof (record_fresh row (files w) Hfresh) as Hrec.
  pose proof (recorded_as_fresh row (files w) Hfresh) as Hras.
  cbn [default from_option id]. unfold id. subst row.
  run_steps. rewrite Hrec, Hras.
  destruct (bool_decide _), (has_doc_cache env); run_steps;
    rewrite ?for_each_emit; run_steps;
    (eexists; split; [reflexivity|]); world_norm;
    (split; [reflexivity|]); (split; [reflexivity|]);
    (eexists; split; [rewrite <- ?app_assoc; reflexivity|]);
    rewrite ?skip_logs_app, ?skip_logs_index, ?error_logs_app, ?error_logs_index;
    split; reflexivity.
Qed.

(** ** One turn of the loop of [sync_remotes] *)

Lemma run_cache_has (key : string) (w : World) :
  run (cache_has key) w = (Ok (bool_decide (key ∈ cache w)), w).
Proof. reflexivity. Qed.

Lemma sync_key_known (env : Env) (remote : Remote) (all_keys : list string)
    (use_only vids : option (list string)) (key : string) (w : World) :
  key ∈ all_keys →
  run (sync_key env remote all_keys use_only vids key) w = (Ok tt, w).
Proof.
  intros H. unfold sync_key. rewrite (bool_decide_eq_true_2 _ H). reflexivity.
Qed.

Lemma sync_key_turned_away (env : Env) (remote : Remote) (all_keys : list string)
    (use_only vids : option (list string)) (key : string) (w : World) :
  key ∉ all_keys →
  truthy use_only && negb (member key use_only) = true →
  run (sync_key env remote all_keys use_only vids key) w
  = (Ok tt, with_trace (trace w ++ [LogInfo (SkipOldVersion key)]) w).
Proof.
  intros H1 H2. unfold sync_key.
  rewrite (bool_decide_eq_false_2 _ H1), H2. reflexivity.
Qed.

Lemma passes_true (all_keys : list string) (use_only : option (list string))
    (key : string) :
  passes all_keys use_only key = true →
  bool_decide (key ∈ all_keys) = false
  ∧ truthy use_only && negb (member key use_only) = false.
Proof.
  unfold passes. intros H. apply andb_true_iff in H as [H1 H2].
  apply negb_true_iff in H1, H2. split; assumption.
Qed.

Lemma install_fetched_fresh (env : Env) (remote : Remote) (key : string)
    (b : Bundle) (i : Identity) (w : World) :
  b_identity b = Ok i →
  install_bundle env b = None →
  unrecorded (vid (dataset i)) (files w) →
  ∃ w', run (install_fetched env remote key b) w = (Ok true, w')
    ∧ files w' = files w ++ [remote_row remote i]
    ∧ datasets w' = datasets w ++ [vid (dataset i)]
    ∧ ∃ evs, trace w' = trace w ++ evs ∧ skip_logs evs = [] ∧ error_logs evs = [].
Proof.
  intros Hi Hinst Hun.
  destruct (put_bundle_fresh env b i (r_repo_id remote) "installed" w Hi Hinst Hun)
    as (w' & Hrun & Hf & Hd & Ht).
  exists w'. split; [|split; [exact Hf | split; [exact Hd | exact Ht]]].
  unfold install_fetched, try_except. unfold run in *.
  unfold mbind at 1, M_bind at 1. rewrite Hrun. reflexivity.
Qed.

Lemma install_fetched_fails (env : Env) (remote : Remote) (key : string)
    (b : Bundle) (i : Identity) (e : exn) (w : World) :
  b_identity b = Ok i →
  install_bundle env b = Some e →
  unrecorded (vid (dataset i)) (files w) →
  run (install_fetched env remote key b) w =
  if decide (e = NotABundle)
  then (Ok false,
        with_trace (trace w ++ [LogError (NotAValidBundle key);
                                BundleClose (b_database_path b)]) w)
  else (Raise e,
        with_trace (trace w ++ [LogError (FailedToPutBundle key e);
                                BundleClose (b_database_path b)]) w).
Proof.
  intros Hi Hinst Hun.
  unfold install_fetched, put_bundle. rewrite run_try_except, run_bind.
  rewrite (run_bind_ok _ _ _ _ _
             (already_installed_none env b i false w Hi (filter_none _ _ Hun))).
  unfold database_install_bundle, bundle_close. rewrite Hinst.
  run_steps.
  destruct (decide (e = NotABundle)); run_steps;
    rewrite <- ?app_assoc; reflexivity.
Qed.

(** What one turn does with a key that passes the filters, class by
    class.  Before the turn the ledger has no record of type [BUNDLE] for
    the bundle handed to [put_bundle]. *)
Lemma sync_key_passes (env : Env) (remote : Remote) (all_keys : list string)
    (use_only : option (list string)) (key : string) (w : World) :
  passes all_keys use_only key = true →
  (∀ i, handed_over (classify env key) = Some i →
        unrecorded (vid (dataset i)) (files w)) →
  ∃ r w' evs,
    run (sync_key env remote all_keys use_only None key) w = (r, w')
    ∧ trace w' = trace w ++ evs ∧ skip_logs evs = []
    ∧ match classify env key with
      | Installs b i =>
          r = Ok tt ∧ files w' = files w ++ [remote_row remote i]
          ∧ datasets w' = datasets w ++ [vid (dataset i)]
          ∧ error_logs evs = []
      | Rejected _ _ | NotFetched =>
          r = Ok tt ∧ files w' = files w ∧ datasets w' = datasets w
          ∧ Some (error_logs evs) = (λ m, [m]) <$> failure_of env key
      | Refused _ _ e =>
          r = Raise e ∧ files w' = files w ∧ datasets w' = datasets w
          ∧ error_logs evs = [FailedToPutBundle key e]
      | Leaves e =>
          r = Raise e ∧ files w' = files w ∧ datasets w' = datasets w
      end.
Proof.
  intros Hp Hun. apply passes_true in Hp as [Hp1 Hp2].
  unfold sync_key. rewrite Hp1, Hp2. cbv iota.
  rewrite run_bind, run_cache_has. cbv iota. generalize (bool_decide (key ∈ cache w)).
  intros has0. run_steps.
  set (ev := LogInfo (if has0 then RemoteHas (r_repo_id remote) key
                      else RemoteSync (r_repo_id remote) key)).
  assert (Hev : skip_logs [ev] = []) by (subst ev; destruct has0; reflexivity).
  assert (Hev' : error_logs [ev] = []) by reflexivity.
  unfold fetch, _get_bundle_by_cache_key, _create_bundle, arc_get_path,
    failure_of, classify in *.
  destruct (arc_get env key) as [[p|]|e].
  - run_steps.
    destruct (bool_decide (p = "") || negb (path_exists env p)) eqn:Hpath.
    + run_steps. do 3 eexists. split; [reflexivity|]. world_norm.
      split; [rewrite <- ?app_assoc; reflexivity|].
      split; [rewrite !skip_logs_app, Hev; reflexivity|].
      repeat split.
    + run_steps. destruct (DbBundle env p) as [b|e] eqn:Hb.
      * run_steps. destruct (b_identity b) as [i|e] eqn:Hi.
        -- run_steps. cbn [truthy andb]. cbv iota.
           destruct (install_bundle env b) as [e|] eqn:Hinst.
           ++ (* the catalog raises *)
              assert (Hu : unrecorded (vid (dataset i)) (files w))
                by (apply Hun; destruct (decide (e = NotABundle)); reflexivity).
              rewrite run_bind.
              match goal with
              | |- context [run (install_fetched env remote key b) ?w1] =>
                  rewrite (install_fetched_fails env remote key b i e w1 Hi Hinst Hu)
              end.
              destruct (decide (e = NotABundle)); run_steps;
                do 3 eexists; (split; [reflexivity|]); world_norm;
                (split; [rewrite <- ?app_assoc; reflexivity|]);
                (split; [rewrite !skip_logs_app, Hev; reflexivity|]);
                repeat split.
           ++ (* the catalog accepts *)
              assert (Hu : unrecorded (vid (dataset i)) (files w))
                by (apply Hun; reflexivity).
              rewrite run_bind.
              match goal with
              | |- context [run (install_fetched env remote key b) ?w1] =>
                  destruct (install_fetched_fresh env remote key b i w1 Hi Hinst Hu)
                    as (w2 & Hrun & Hf & Hd & evs & Ht & Hs & He)
              end.
              rewrite Hrun. clear Hrun.
              unfold database_commit, database_close, bundle_close.
              run_steps.
              do 3 eexists. split; [reflexivity|]. world_norm.
              rewrite Ht, Hf, Hd. world_norm.
              split; [rewrite <- ?app_assoc; reflexivity|].
              split; [rewrite !skip_logs_app, Hs, Hev; reflexivity|].
              repeat split. rewrite !error_logs_app, He. reflexivity.
        -- (* reading the identity raises *)
           run_steps.
           do 3 eexists. split; [reflexivity|]. world_norm.
           split; [rewrite <- ?app_assoc; reflexivity|].
           split; [rewrite ?skip_logs_app, ?Hev; reflexivity|]. auto.
      * (* loading the bundle raises *)
        run_steps.
        destruct e; run_steps;
          do 3 eexists; (split; [reflexivity|]); world_norm;
          (split; [rewrite <- ?app_assoc; reflexivity|]);
          (split; [rewrite ?skip_logs_app, ?Hev; reflexivity|]);
          clear Hun; repeat case_decide; try congruence; repeat split.
  - run_steps.
    do 3 eexists. split; [reflexivity|]. world_norm.
    split; [rewrite <- ?app_assoc; reflexivity|].
    split; [rewrite !skip_logs_app, Hev; reflexivity|]. repeat split.
  - run_steps.
    destruct (decide (e = S3ResponseError)); run_steps;
      do 3 eexists; (split; [reflexivity|]); world_norm;
      (split; [rewrite <- ?app_assoc; reflexivity|]);
      (split; [rewrite ?skip_logs_app, ?Hev; reflexivity|]);
      subst; repeat split.
Qed.

(** ** A pass over the keys of a remote *)

Lemma unrecorded_snoc (v : string) (l : list File) (f : File) :
  unrecorded v l → f_ref f ≠ v → unrecorded v (l ++ [f]).
Proof.
  intros Hl Hf. apply Forall_app. split; [exact Hl|].
  constructor; [|constructor]. intros [H _]. exact (Hf H).
Qed.

(** A pass on which no key leaves the loop: the catalog and the ledger
    gain the bundles of the keys that pass the filters and that the
    catalog accepts, in the order of the listing; "Skip old version" is
    logged for the keys that [use_only] turns away, and one error for
    each key that passes and is not installed. *)
Lemma sync_keys_pass (env : Env) (remote : Remote) (all_keys : list string)
    (use_only : option (list string)) (keys : list string) (w : World) :
  Forall (λ k, passes all_keys use_only k = true →
               goes_on (classify env k) = true) keys →
  NoDup ((λ i, vid (dataset i)) <$> fetches env all_keys use_only keys) →
  Forall (λ i, unrecorded (vid (dataset i)) (files w))
         (fetches env all_keys use_only keys) →
  ∃ w', run (for_each keys (sync_key env remote all_keys use_only None)) w
        = (Ok tt, w')
    ∧ files w' = files w ++ (remote_row remote <$> installs env all_keys use_only keys)
    ∧ datasets w' = datasets w
                    ++ ((λ i, vid (dataset i)) <$> installs env all_keys use_only keys)
    ∧ skip_logs (trace w')
      = skip_logs (trace w) ++ turned_away all_keys use_only keys
    ∧ error_logs (trace w')
      = error_logs (trace w) ++ failures env all_keys use_only keys.
Proof.
  revert w. induction keys as [|k keys IH]; intros w Hgo Hnd Hun.
  { exists w. cbn. rewrite !app_nil_r. auto. }
  apply Forall_cons in Hgo as [Hk Hgo].
  cbn [for_each]. unfold fetches, installs, turned_away, failures in *.
  cbn [omap list_omap] in *. rewrite filter_cons.
  destruct (decide (k ∈ all_keys)) as [Hin|Hin].
  { (* already known for this remote *)
    assert (Hp : passes all_keys use_only k = false)
      by (unfold passes; rewrite (bool_decide_eq_true_2 _ Hin); reflexivity).
    rewrite Hp in *.
    rewrite (run_bind_ok _ _ _ _ _ (sync_key_known env remote all_keys use_only None k w Hin)).
    destruct (IH w Hgo Hnd Hun) as (w' & Hrun & Hf & Hd & Hs & He).
    exists w'. rewrite decide_False by tauto. auto. }
  destruct (truthy use_only && negb (member k use_only)) eqn:Hturn.
  { (* turned away by [use_only] *)
    assert (Hp : passes all_keys use_only k = false)
      by (unfold passes; rewrite Hturn, andb_false_r; reflexivity).
    rewrite Hp in *.
    rewrite (run_bind_ok _ _ _ _ _
               (sync_key_turned_away env remote all_keys use_only None k w Hin Hturn)).
    destruct (IH (with_trace (trace w ++ [LogInfo (SkipOldVersion k)]) w) Hgo Hnd Hun)
      as (w' & Hrun & Hf & Hd & Hs & He).
    exists w'. rewrite decide_True by tauto.
    split; [exact Hrun|]. split; [exact Hf|]. split; [exact Hd|].
    rewrite Hs, He. world_simpl. rewrite skip_logs_app, error_logs_app.
    cbn [skip_logs error_logs omap list_omap]. cbn [app].
    rewrite <- ?app_assoc, ?app_nil_r. auto. }
  (* the key passes *)
  assert (Hp : passes all_keys use_only k = true)
    by (unfold passes; rewrite (bool_decide_eq_false_2 _ Hin), Hturn; reflexivity).
  rewrite Hp in *. specialize (Hk eq_refl).
  rewrite decide_False by (intros [_ Ht]; discriminate).
  destruct (sync_key_passes env remote all_keys use_only k w Hp)
    as (r & w1 & evs & Hrun & Ht & Hs & Hclass).
  { intros i Hi. rewrite Hi in Hun. cbn in Hun.
    apply Forall_cons in Hun as [Hu _]. exact Hu. }
  rewrite run_bind, Hrun. unfold failure_of in *.
  destruct (classify env k) as [b i|b i|b i e| |e]; cbn in Hk; try discriminate;
    cbn [handed_over] in *.
  - (* installed *)
    destruct Hclass as (-> & Hf & Hd & He).
    cbn [fmap list_fmap] in Hnd. apply NoDup_cons in Hnd as [Hfresh Hnd].
    apply Forall_cons in Hun as [_ Hun].
    destruct (IH w1 Hgo Hnd) as (w' & Hrun' & Hf' & Hd' & Hs' & He').
    { rewrite Hf. apply Forall_forall. intros j Hj.
      apply unrecorded_snoc.
      - exact (proj1 (Forall_forall _ _) Hun j Hj).
      - cbn. intros Heq. apply Hfresh. rewrite Heq.
        apply list_elem_of_fmap. exists j. split; [reflexivity | exact Hj]. }
    exists w'. split; [exact Hrun'|].
    rewrite Hf', Hd', Hs', He', Hf, Hd, Ht, skip_logs_app, error_logs_app, Hs, He.
    rewrite <- ?app_assoc. cbn [app fmap list_fmap]. auto.
  - (* rejected with [NotABundle] *)
    destruct Hclass as (-> & Hf & Hd & He). cbn in He. injection He as He.
    cbn [fmap list_fmap] in Hnd. apply NoDup_cons in Hnd as [_ Hnd].
    apply Forall_cons in Hun as [_ Hun].
    destruct (IH w1 Hgo Hnd) as (w' & Hrun' & Hf' & Hd' & Hs' & He').
    { rewrite Hf. exact Hun. }
    exists w'. split; [exact Hrun'|].
    rewrite Hf', Hd', Hs', He', Hf, Hd, Ht, skip_logs_app, error_logs_app, Hs, He.
    rewrite <- ?app_assoc. cbn [app fmap list_fmap]. auto.
  - (* not fetched *)
    destruct Hclass as (-> & Hf & Hd & He).
    destruct (IH w1 Hgo Hnd) as (w' & Hrun' & Hf' & Hd' & Hs' & He').
    { rewrite Hf. exact Hun. }
    exists w'. split; [exact Hrun'|].
    rewrite Hf', Hd', Hs', He', Hf, Hd, Ht, skip_logs_app, error_logs_app, Hs.
    rewrite <- ?app_assoc. cbn [app fmap list_fmap].
    split; [reflexivity|]. split; [reflexivity|]. split; [reflexivity|].
    f_equal.
    destruct (match arc_get env k with
              | Ok (Some p) =>
                  if bool_decide (p = "") || negb (path_exists env p)
                  then Some (FailedToFetchBundle k)
                  else Some (FailedToGet k S3ResponseError)
              | Ok None => Some (FailedToFetchBundle k)
              | Raise _ => Some (FailedToGet k S3ResponseError)
              end) as [m|]; cbn in He; [|discriminate].
    injection He as ->. reflexivity.
Qed.


(** ** [sync_remotes] on one remote *)

(** [sync_remotes] on a dictionary of one remote: the pass over the
    remote, then the two [mark_updated]. *)
Lemma sync_remotes_single (env : Env) (name : string) (remote : Remote)
    (last_only : bool) (v : option N) (w w' : World) :
  run (sync_remote env last_only None None (name, remote)) w = (Ok v, w') →
  run (sync_remotes env (Some [(name, remote)]) false last_only None) w
  = (Ok tt, {| files := files w'; datasets := datasets w'; cache := cache w';
               upstream_keys := upstream_keys w'; ticks := ticks w';
               trace := trace w' ++ [MarkUpdated None (Some "bundle_index");
                                     MarkUpdated None (Some "library_info")] |}).
Proof.
  intros Hrun. unfold sync_remotes, mark_updated.
  cbn [truthy default from_option id fold_m].
  run_steps. rewrite Hrun. run_steps. rewrite <- app_assoc. reflexivity.
Qed.

(** C2 as stated fails: an install that the catalog refuses with an
    exception other than [NotABundle], and a bundle file that does not
    load as a database, end the pass; the artifact after it in the batch,
    which is a valid bundle, is not installed. *)
Lemma sync_remotes_failure_ends_pass :
  let keys := ["a-0.0.1.db"; "bad-0.0.1.db"; "c-0.0.1.db"] in
  (let '(r, w') := run (sync_remotes (Demo.refusing "bad-0.0.1.db" ConflictError keys)
                          None false false None) Demo.empty in
   r = Raise ConflictError
   ∧ datasets w' = ["vid:a-0.0.1.db"]
   ∧ error_logs (trace w') = [FailedToPutBundle "bad-0.0.1.db" ConflictError])
  ∧
  (let '(r, w') := run (sync_remotes (Demo.corrupt "bad-0.0.1.db" SqliteDatabaseError keys)
                          None false false None) Demo.empty in
   r = Raise SqliteDatabaseError
   ∧ datasets w' = ["vid:a-0.0.1.db"]
   ∧ error_logs (trace w')
     = [FailedToLoadDatabundle "bad-0.0.1.db" SqliteDatabaseError])
  ∧
  (let '(r, w') := run (sync_remotes (Demo.plain ["c-0.0.1.db"])
                          None false false None) Demo.empty in
   r = Ok tt ∧ datasets w' = ["vid:c-0.0.1.db"]).
Proof. vm_compute. repeat split. Qed.

(** ** The filter [last_only] *)

Example latest_ex :
  latest "a" ["a-1.0.1.db"; "a-1.0.3.db"; "b-1.0.9.db"; "a-2.0.3.db"]
  = Some (3, "a-1.0.3.db").
Proof. reflexivity. Qed.

(** [latest] is the maximum of its group. *)
Lemma fold_better_max (g : string) (keys : list string) (acc : option (N * string))
    (v : N) (k : string) :
  fold_left (better g) keys acc = Some (v, k) →
  (acc = Some (v, k) ∨ (k ∈ keys ∧ Re.nv_key k = g ∧ Re.search_version k = Some v))
  ∧ (∀ v0 k0, acc = Some (v0, k0) → v0 ≤ v)
  ∧ (∀ k' v', k' ∈ keys → Re.nv_key k' = g → Re.search_version k' = Some v' → v' ≤ v).
Proof.
  revert acc. induction keys as [|x keys IH]; intros acc H; cbn in H.
  - subst acc. split; [left; reflexivity|]. split.
    + intros v0 k0 [= -> ->]. lia.
    + intros k' v' Hin. inversion Hin.
  - destruct (IH _ H) as (Hsrc & Hacc & Hmax). clear IH H.
    unfold better in Hsrc, Hacc.
    destruct (decide (Re.nv_key x = g)) as [Hg|Hg].
    + destruct (Re.search_version x) as [vx|] eqn:Hx.
      * destruct acc as [[v0 k0]|].
        -- destruct (N.ltb_spec v0 vx) as [Hlt|Hge].
           ++ specialize (Hacc _ _ eq_refl). split; [|split].
              ** right. destruct Hsrc as [[= -> ->]|(Hin & Hk & Hv)].
                 --- split; [left|auto].
                 --- split; [right; exact Hin|auto].
              ** intros v1 k1 [= -> ->]. lia.
              ** intros k' v' Hin Hk' Hv'. apply elem_of_cons in Hin as [->|Hin].
                 --- rewrite Hx in Hv'. injection Hv' as ->. exact Hacc.
                 --- eauto.
           ++ specialize (Hacc _ _ eq_refl). split; [|split].
              ** destruct Hsrc as [Hs|(Hin & Hk & Hv)]; [left; exact Hs|].
                 right. split; [right; exact Hin|auto].
              ** intros v1 k1 [= -> ->]. exact Hacc.
              ** intros k' v' Hin Hk' Hv'. apply elem_of_cons in Hin as [->|Hin].
                 --- rewrite Hx in Hv'. injection Hv' as ->. lia.
                 --- eauto.
        -- specialize (Hacc _ _ eq_refl). split; [|split].
           ++ right. destruct Hsrc as [[= -> ->]|(Hin & Hk & Hv)].
              ** split; [left|auto].
              ** split; [right; exact Hin|auto].
           ++ intros v1 k1 [=].
           ++ intros k' v' Hin Hk' Hv'. apply elem_of_cons in Hin as [->|Hin].
              ** rewrite Hx in Hv'. injection Hv' as ->. exact Hacc.
              ** eauto.
      * split; [|split].
        -- destruct Hsrc as [Hs|(Hin & Hk & Hv)]; [left; exact Hs|].
           right. split; [right; exact Hin|auto].
        -- exact Hacc.
        -- intros k' v' Hin Hk' Hv'. apply elem_of_cons in Hin as [->|Hin].
           ++ congruence.
           ++ eauto.
    + split; [|split].
      * destruct Hsrc as [Hs|(Hin & Hk & Hv)]; [left; exact Hs|].
        right. split; [right; exact Hin|auto].
      * exact Hacc.
      * intros k' v' Hin Hk' Hv'. apply elem_of_cons in Hin as [->|Hin].
        -- contradiction.
        -- eauto.
Qed.

Lemma latest_is_max (g : string) (keys : list string) (v : N) (k : string) :
  latest g keys = Some (v, k) →
  k ∈ keys ∧ Re.nv_key k = g ∧ Re.search_version k = Some v
  ∧ ∀ k' v', k' ∈ keys → Re.nv_key k' = g → Re.search_version k' = Some v' → v' ≤ v.
Proof.
  intros H. destruct (fold_better_max g keys None v k H) as ([Hs|Hs] & _ & Hmax).
  - discriminate.
  - destruct Hs as (H1 & H2 & H3). auto.
Qed.

Lemma fold_better_some (g : string) (keys : list string) (p : N * string) :
  is_Some (fold_left (better g) keys (Some p)).
Proof.
  revert p. induction keys as [|x keys IH]; intros p; cbn; [eauto|].
  unfold better at 2. destruct (decide (Re.nv_key x = g)); [|apply IH].
  destruct (Re.search_version x) as [vx|]; [|apply IH].
  destruct p as [v0 k0]. destruct (v0 <? vx); apply IH.
Qed.

Lemma fold_better_member (g : string) (keys : list string)
    (acc : option (N * string)) (k : string) :
  k ∈ keys → Re.nv_key k = g → is_Some (Re.search_version k) →
  is_Some (fold_left (better g) keys acc).
Proof.
  revert acc. induction keys as [|x keys IH]; intros acc Hin Hg [v Hv].
  { inversion Hin. }
  cbn. apply elem_of_cons in Hin as [<-|Hin]; [|apply IH; eauto].
  unfold better at 2. rewrite decide_True by exact Hg. rewrite Hv.
  destruct acc as [[v0 k0]|]; [destruct (v0 <? v)|]; apply fold_better_some.
Qed.

Lemma sorted_by_elem {A} (key : A → nat) (l : list A) (x : A) :
  x ∈ sorted_by key l ↔ x ∈ l.
Proof.
  assert (Hins : ∀ y l', x ∈ insert_by key y l' ↔ x = y ∨ x ∈ l').
  { intros y l'. induction l' as [|z l' IH]; cbn [insert_by].
    - rewrite list_elem_of_singleton. split; [auto|]. intros [?|H]; [auto|inversion H].
    - destruct (key y <=? key z)%nat.
      + rewrite elem_of_cons. reflexivity.
      + rewrite !elem_of_cons, IH. tauto. }
  unfold sorted_by. induction l as [|y l IH]; cbn [foldr]; [reflexivity|].
  rewrite Hins, IH, elem_of_cons. reflexivity.
Qed.

(** The keys of [use_only] are the cache keys held by [last_keys]. *)
Lemma use_only_elem (env : Env) (keys : list string) (st : scan_state) (k : string) :
  member k (filter_result env keys st).1 = true
  ↔ ∃ g v, last_keys st !! g = Some (v, k).
Proof.
  unfold member, filter_result, values_of. cbn [fst default from_option].
  rewrite bool_decide_eq_true. split.
  - intros Hk. apply list_elem_of_fmap in Hk as ([v k'] & Heq & Hk).
    cbn in Heq. subst k'.
    apply list_elem_of_fmap in Hk as ([g p] & Heq & Hk). cbn in Heq. subst p.
    apply sorted_by_elem, elem_of_map_to_list in Hk. eauto.
  - intros (g & v & Hg). apply list_elem_of_fmap. exists (v, k). split; [reflexivity|].
    apply list_elem_of_fmap. exists (g, (v, k)). split; [reflexivity|].
    apply sorted_by_elem, elem_of_map_to_list, Hg.
Qed.

Lemma use_only_truthy (env : Env) (keys : list string) (st : scan_state) (g : string) :
  is_Some (last_keys st !! g) → truthy (filter_result env keys st).1 = true.
Proof.
  intros [[v k] Hg].
  assert (Hk : member k (filter_result env keys st).1 = true)
    by (apply use_only_elem; eauto).
  unfold member in Hk. apply bool_decide_eq_true in Hk.
  destruct (filter_result env keys st).1 as [[|x l]|]; cbn in *;
    [inversion Hk | reflexivity | inversion Hk].
Qed.

(** One turn of the loop that fills [last_keys], on a key whose revision
    parses: no log, no exception, and under every group the dictionary
    holds the entry of what [better] says. *)
Lemma scan_key_spec (st : scan_state) (k : string) (v : N) (w : World)
    (best : string → option (N * string)) :
  Re.search_version k = Some v →
  (∀ g, last_keys st !! g = entry_of (best g)) →
  ∃ lk', run (scan_key st k) w = (Ok {| version := Some v; last_keys := lk' |}, w)
    ∧ ∀ g, lk' !! g = entry_of (better g (best g) k).
Proof.
  intros Hv Hinv. unfold scan_key. rewrite Hv. run_steps.
  unfold last_keys_get. rewrite (Hinv (Re.nv_key k)).
  destruct (best (Re.nv_key k)) as [[v0 k0]|] eqn:Hcur; cbn [entry_of fmap option_fmap option_map fst snd].
  - assert (Hfst : (if v0 =? 0 then (0, "") else (v0, k0)).1 = v0).
    { destruct (N.eqb_spec v0 0) as [->|]; reflexivity. }
    rewrite Hfst.
    destruct (v0 <? v) eqn:Hlt; rewrite run_ret; eexists; (split; [reflexivity|]);
      intros g; unfold better; rewrite Hv;
      destruct (decide (Re.nv_key k = g)) as [<-|Hg].
    + rewrite lookup_insert_eq, Hcur, Hlt. cbn.
      apply N.ltb_lt in Hlt. destruct (N.eqb_spec v 0); [lia | reflexivity].
    + rewrite lookup_insert_ne by exact Hg. apply Hinv.
    + rewrite Hinv, Hcur, Hlt. reflexivity.
    + apply Hinv.
  - destruct (0 <? v) eqn:Hlt; rewrite run_ret; eexists; (split; [reflexivity|]);
      intros g; unfold better; rewrite Hv;
      destruct (decide (Re.nv_key k = g)) as [<-|Hg].
    + rewrite lookup_insert_eq, Hcur. cbn.
      apply N.ltb_lt in Hlt. destruct (N.eqb_spec v 0); [lia | reflexivity].
    + rewrite !lookup_insert_ne by exact Hg. apply Hinv.
    + rewrite lookup_insert_eq, Hcur. cbn.
      apply N.ltb_ge in Hlt. destruct (N.eqb_spec v 0); [reflexivity | lia].
    + rewrite lookup_insert_ne by exact Hg. apply Hinv.
Qed.

Lemma scan_keys_spec (keys : list string) (st : scan_state) (w : World)
    (best : string → option (N * string)) :
  Forall (λ k, is_Some (Re.search_version k)) keys →
  (∀ g, last_keys st !! g = entry_of (best g)) →
  ∃ st', run (fold_m scan_key keys st) w = (Ok st', w)
    ∧ ∀ g, last_keys st' !! g = entry_of (fold_left (better g) keys (best g)).
Proof.
  revert st best. induction keys as [|k keys IH]; intros st best Hpos Hinv.
  { exists st. split; [reflexivity | exact Hinv]. }
  apply Forall_cons in Hpos as [[v Hv] Hpos].
  destruct (scan_key_spec st k v w best Hv Hinv) as (lk' & Hrun & Hlk).
  destruct (IH {| version := Some v; last_keys := lk' |}
              (λ g, better g (best g) k) Hpos Hlk) as (st' & Hrun' & Hst').
  exists st'. split.
  - cbn [fold_m]. rewrite (run_bind_ok _ _ _ _ _ Hrun). exact Hrun'.
  - intros g. rewrite Hst'. reflexivity.
Qed.

(** The best key of a group that has a key of positive revision has a
    positive revision. *)
Lemma latest_positive (keys : list string) (k : string) :
  group_has_revision keys k →
  ∃ v k', latest (Re.nv_key k) keys = Some (v, k') ∧ 1 ≤ v.
Proof.
  intros [_ Hex]. apply Exists_exists in Hex as (k1 & Hin & Hg & Hp).
  unfold positive_revision in Hp.
  destruct (Re.search_version k1) as [v1|] eqn:Hv1; [|contradiction].
  destruct (fold_better_member (Re.nv_key k) keys None k1 Hin Hg) as [[v k'] Hl].
  { rewrite Hv1. eauto. }
  exists v, k'. split; [exact Hl|].
  destruct (latest_is_max _ _ _ _ Hl) as (_ & _ & _ & Hmax).
  specialize (Hmax k1 v1 Hin Hg Hv1). lia.
Qed.

(** On a listing whose keys carry revisions and whose groups each have
    a key of positive revision, [use_only] holds exactly the keys kept
    for their groups, whatever [version] was before. *)
Lemma compute_use_only_spec (env : Env) (keys : list string) (v0 : option N)
    (w : World) :
  Forall (group_has_revision keys) keys →
  ∃ u v', run (compute_use_only env true keys v0) w = (Ok (Some u, v'), w)
    ∧ (∀ k, k ∈ keys → member k (Some u) = is_latest keys k)
    ∧ (keys ≠ [] → truthy (Some u) = true).
Proof.
  intros Hgr.
  assert (Hpos : Forall (λ k, is_Some (Re.search_version k)) keys).
  { eapply Forall_impl; [exact Hgr|]. intros k [Hk _]. exact Hk. }
  destruct (scan_keys_spec keys {| version := v0; last_keys := ∅ |} w (λ _, None) Hpos)
    as (st' & Hrun & Hst').
  { intros g. apply lookup_empty. }
  assert (Hlk : ∀ g, last_keys st' !! g = entry_of (latest g keys)) by exact Hst'.
  assert (Hkept : ∀ k, k ∈ keys →
            ∃ v k', latest (Re.nv_key k) keys = Some (v, k') ∧ 1 ≤ v
                    ∧ last_keys st' !! Re.nv_key k = Some (v, k')).
  { intros k Hin. rewrite Forall_forall in Hgr.
    destruct (latest_positive keys k (Hgr k Hin)) as (v & k' & Hl & Hv).
    exists v, k'. split; [exact Hl|]. split; [exact Hv|].
    rewrite Hlk, Hl. cbn. destruct (N.eqb_spec v 0); [lia | reflexivity]. }
  destruct (filter_result env keys st') as [u v'] eqn:Hres.
  assert (Hu : (filter_result env keys st').1 = u) by (rewrite Hres; reflexivity).
  destruct u as [u|]; [|unfold filter_result in Hres; discriminate].
  exists u, v'. split; [|split].
  - unfold compute_use_only. rewrite (run_bind_ok _ _ _ _ _ Hrun), Hres. reflexivity.
  - intros k Hin. rewrite <- Hu. unfold is_latest.
    destruct (Hkept k Hin) as (v & k' & Hl & Hv & Hentry). rewrite Hl.
    destruct (decide (k' = k)) as [->|Hne].
    + rewrite (bool_decide_eq_true_2 _ eq_refl). apply use_only_elem. eauto.
    + rewrite (bool_decide_eq_false_2 _ Hne).
      destruct (member k (filter_result env keys st').1) eqn:Hm; [|reflexivity].
      exfalso. apply use_only_elem in Hm as (g & v1 & Hg).
      rewrite Hlk in Hg. destruct (latest g keys) as [[v2 k2]|] eqn:Hl2; [|discriminate].
      cbn in Hg. destruct (N.eqb_spec v2 0) as [->|Hv2].
      * injection Hg as _ Hk. subst k.
        rewrite Forall_forall in Hpos. destruct (Hpos "" Hin) as [x Hx].
        discriminate Hx.
      * injection Hg as -> ->.
        destruct (latest_is_max _ _ _ _ Hl2) as (_ & Hgk & _). subst g.
        rewrite Hl in Hl2. congruence.
  - intros Hne. rewrite <- Hu. destruct keys as [|k keys]; [contradiction|].
    destruct (Hkept k) as (v & k' & _ & _ & Hentry); [left|].
    apply (use_only_truthy env (k :: keys) st' (Re.nv_key k)). eauto.
Qed.

Lemma omap_if_filter {A B} (c : A → bool) (P : A → Prop) `{∀ x, Decision (P x)}
    (g f : A → option B) (l : list A) :
  Forall (λ x, (c x = true ↔ P x) ∧ (P x → g x = f x)) l →
  omap (λ x, if c x then g x else None) l = omap f (filter P l).
Proof.
  induction 1 as [|x l [Hc Hg] _ IH]; [reflexivity|].
  cbn [omap list_omap]. rewrite filter_cons, IH.
  destruct (decide (P x)) as [HP|HP].
  - rewrite (proj2 Hc HP), (Hg HP). reflexivity.
  - destruct (c x) eqn:Hcx; [exfalso; apply HP, Hc; reflexivity | reflexivity].
Qed.

Lemma filter_ext_in {A} (P Q : A → Prop) `{∀ x, Decision (P x)}
    `{∀ x, Decision (Q x)} (l : list A) :
  Forall (λ x, P x ↔ Q x) l → filter P l = filter Q l.
Proof.
  induction 1 as [|x l Hx _ IH]; [reflexivity|].
  rewrite !filter_cons, IH.
  destruct (decide (P x)), (decide (Q x)); tauto.
Qed.

(** The pass over one remote with [last_only]. *)
Lemma sync_remote_last_only_pass (env : Env) (name : string) (remote : Remote)
    (keys : list string) (v0 : option N) (w : World) :
  let all_keys := known_keys remote (files w) in
  let chosen := selected all_keys keys in
  r_list remote = Ok keys →
  Forall (group_has_revision keys) keys →
  Forall (λ k, accepted (classify env k) = true) chosen →
  NoDup ((λ i, vid (dataset i)) <$> bundles_of env chosen) →
  Forall (λ i, unrecorded (vid (dataset i)) (files w)) (bundles_of env chosen) →
  ∃ v' w', run (sync_remote env true None v0 (name, remote)) w = (Ok v', w')
    ∧ datasets w' = datasets w ++ ((λ i, vid (dataset i)) <$> bundles_of env chosen)
    ∧ files w' = files w ++ (remote_row remote <$> bundles_of env chosen)
    ∧ skip_logs (trace w') = skip_logs (trace w) ++ superseded all_keys keys.
Proof.
  intros all_keys chosen Hl Hpos Hacc Hnd Hun. unfold sync_remote. rewrite Hl.
  unfold Files.all. run_steps.
  fold (known_keys remote (files w)). fold all_keys.
  set (w0 := {| files := files w; datasets := datasets w; cache := cache w;
                upstream_keys := upstream_keys w; ticks := ticks w;
                trace := trace w ++ [LogInfo (SyncingFromRemote name)] |}).
  destruct (compute_use_only_spec env keys v0 w0 Hpos)
    as (u & v' & Hrun & Hmem & Htruthy).
  rewrite Hrun. run_steps. fold w0.
  (* what the filters do on the keys of the listing *)
  assert (Hpass : Forall (λ k, passes all_keys (Some u) k
                               = bool_decide (k ∉ all_keys) && is_latest keys k) keys).
  { apply Forall_forall. intros k Hin. unfold passes.
    rewrite (Hmem k Hin), Htruthy by (intros ->; inversion Hin).
    destruct (decide (k ∈ all_keys)).
    - rewrite bool_decide_eq_true_2, bool_decide_eq_false_2 by tauto. reflexivity.
    - rewrite bool_decide_eq_false_2, bool_decide_eq_true_2 by tauto.
      destruct (is_latest keys k); reflexivity. }
  assert (Hchosen : ∀ k, k ∈ chosen → accepted (classify env k) = true)
    by exact (proj1 (Forall_forall _ _) Hacc).
  assert (Hsel : ∀ k, k ∈ keys →
            (passes all_keys (Some u) k = true ↔ (k ∉ all_keys) ∧ is_latest keys k = true)).
  { intros k Hin. rewrite (proj1 (Forall_forall _ _) Hpass k Hin).
    rewrite andb_true_iff, bool_decide_eq_true. reflexivity. }
  assert (Hfetch : fetches env all_keys (Some u) keys = bundles_of env chosen).
  { unfold fetches, bundles_of, chosen, selected. apply omap_if_filter.
    apply Forall_forall. intros k Hin. split; [apply Hsel, Hin | reflexivity]. }
  assert (Hinst : installs env all_keys (Some u) keys = bundles_of env chosen).
  { unfold installs, bundles_of, chosen, selected. apply omap_if_filter.
    apply Forall_forall. intros k Hin. split; [apply Hsel, Hin|].
    intros HP. assert (Hk : k ∈ chosen)
      by (apply list_elem_of_filter; split; [exact HP | exact Hin]).
    specialize (Hchosen k Hk). destruct (classify env k); try discriminate.
    reflexivity. }
  assert (Hturn : turned_away all_keys (Some u) keys = superseded all_keys keys).
  { unfold turned_away, superseded. apply filter_ext_in.
    apply Forall_forall. intros k Hin.
    rewrite (Hmem k Hin), Htruthy by (intros ->; inversion Hin).
    cbn [andb]. rewrite negb_true_iff. reflexivity. }
  destruct (sync_keys_pass env remote all_keys (Some u) keys w0)
    as (w' & Hrun' & Hf & Hd & Hs & _).
  - apply Forall_forall. intros k Hin Hp.
    assert (Hk : k ∈ chosen).
    { apply list_elem_of_filter. split; [apply Hsel; assumption | exact Hin]. }
    specialize (Hchosen k Hk). destruct (classify env k); try discriminate.
    reflexivity.
  - rewrite Hfetch. exact Hnd.
  - rewrite Hfetch. exact Hun.
  - exists v', w'. rewrite Hrun'. run_steps. split; [reflexivity|].
    rewrite Hd, Hf, Hs, Hinst, Hturn. subst w0. cbn [files datasets trace].
    rewrite skip_logs_app. cbn [skip_logs omap list_omap]. rewrite app_nil_r.
    auto.
Qed.

(** C1, as the code has it: on a listing whose keys carry revisions, and
    in which every group has a key with a last number of at least 1, a
    pass of [sync_remotes] with [last_only] groups the keys of the
    listing by their name without revision and keeps in each group the
    key of maximum revision.  The kept keys that are not yet known are
    fetched; when the catalog accepts them, exactly they are installed,
    in the catalog and in the ledger; "Skip old version" is logged for
    every other unknown key.  This holds of the pass over any remote of
    the call, whatever [version] the remotes before it have left, and of
    the call on one remote. *)
Theorem sync_remotes_last_only (env : Env) (name : string) (remote : Remote)
    (keys : list string) (v0 : option N) (w : World) :
  let all_keys := known_keys remote (files w) in
  let chosen := selected all_keys keys in
  r_list remote = Ok keys →
  Forall (group_has_revision keys) keys →
  Forall (λ k, accepted (classify env k) = true) chosen →
  NoDup ((λ i, vid (dataset i)) <$> bundles_of env chosen) →
  Forall (λ i, unrecorded (vid (dataset i)) (files w)) (bundles_of env chosen) →
  (∃ v' w', run (sync_remote env true None v0 (name, remote)) w = (Ok v', w')
     ∧ datasets w' = datasets w ++ ((λ i, vid (dataset i)) <$> bundles_of env chosen)
     ∧ files w' = files w ++ (remote_row remote <$> bundles_of env chosen)
     ∧ skip_logs (trace w') = skip_logs (trace w) ++ superseded all_keys keys)
  ∧ (∃ w', run (sync_remotes env (Some [(name, remote)]) false true None) w
           = (Ok tt, w')
     ∧ datasets w' = datasets w ++ ((λ i, vid (dataset i)) <$> bundles_of env chosen)
     ∧ files w' = files w ++ (remote_row remote <$> bundles_of env chosen)
     ∧ skip_logs (trace w') = skip_logs (trace w) ++ superseded all_keys keys).
Proof.
  intros all_keys chosen Hl Hpos Hacc Hnd Hun. split.
  - exact (sync_remote_last_only_pass env name remote keys v0 w Hl Hpos Hacc Hnd Hun).
  - destruct (sync_remote_last_only_pass env name remote keys None w Hl Hpos Hacc Hnd Hun)
      as (v' & w1 & Hrun & Hd & Hf & Hs).
    eexists. split; [exact (sync_remotes_single env name remote true v' w w1 Hrun)|].
    cbn [files datasets trace]. rewrite skip_logs_app, Hs.
    cbn [skip_logs omap list_omap]. rewrite app_nil_r. auto.
Qed.

Lemma sync_remotes_last_only_witness :
  let keys := ["a-1.0.0.db"; "a-1.0.1.db"; "b-1.0.1.db"] in
  let rows := [ {| f_ref := "vid:a-1.0.1.db"; f_type := BUNDLE;
                   f_source_url := "r1"; f_state := "installed";
                   f_path := "a-1.0.1.db" |};
                {| f_ref := "vid:b-1.0.1.db"; f_type := BUNDLE;
                   f_source_url := "r1"; f_state := "installed";
                   f_path := "b-1.0.1.db" |} ] in
  (∃ v' w', run (sync_remote (Demo.plain keys) true None (Some 7%N)
                   ("r1", Demo.r1 keys)) Demo.empty = (Ok v', w')
     ∧ datasets w' = ["vid:a-1.0.1.db"; "vid:b-1.0.1.db"]
     ∧ files w' = rows
     ∧ skip_logs (trace w') = ["a-1.0.0.db"])
  ∧ (∃ w', run (sync_remotes (Demo.plain keys) (Some [("r1", Demo.r1 keys)])
                  false true None) Demo.empty
           = (Ok tt, w')
     ∧ datasets w' = ["vid:a-1.0.1.db"; "vid:b-1.0.1.db"]
     ∧ files w' = rows
     ∧ skip_logs (trace w') = ["a-1.0.0.db"]).
Proof.
  intros keys rows.
  refine (sync_remotes_last_only (Demo.plain keys) "r1" (Demo.r1 keys) keys
            (Some 7%N) Demo.empty eq_refl _ _ _ _).
  - refine (bool_decide_unpack _ _). vm_compute. exact I.
  - refine (bool_decide_unpack _ _). vm_compute. exact I.
  - refine (bool_decide_unpack _ _). vm_compute. exact I.
  - refine (bool_decide_unpack _ _). vm_compute. exact I.
Defined.

(** C1 as stated fails: the groups are formed over the whole listing,
    not over the delta.  The remote lists two revisions of [a]; the
    later one is already known for the remote, so that the delta is the
    older key alone.  That key is the one of maximum revision in its
    group of the delta, and the pass does not install it: it is not the
    latest of the listing, and is skipped as an old version. *)
Lemma sync_remotes_groups_whole_listing :
  let keys := ["a-1.0.1.db"; "a-1.0.2.db"] in
  let w := Demo.knowing "a-1.0.2.db" in
  let delta := filter (λ k, k ∉ known_keys (Demo.r1 keys) (files w)) keys in
  let '(r, w') := run (sync_remotes (Demo.plain keys) None false true None) w in
  delta = ["a-1.0.1.db"]
  ∧ selected [] delta = ["a-1.0.1.db"]
  ∧ r = Ok tt
  ∧ datasets w' = []
  ∧ skip_logs (trace w') = ["a-1.0.1.db"].
Proof. vm_compute. repeat split. Qed.

(** The initial entry of [last_keys].  On the listing of the spec's
    example the key [b-1.0.0.db] is the only one of its group, and the
    pass skips it as an old version: a key whose last number is 0 never
    replaces the entry [[0, '']], the comparison being strict. *)
Example sync_remotes_revision_zero_skipped :
  let keys := ["a-1.0.0.db"; "a-1.0.1.db"; "b-1.0.0.db"] in
  let '(r, w') := run (sync_remotes (Demo.plain keys) None false true None)
                      Demo.empty in
  r = Ok tt
  ∧ datasets w' = ["vid:a-1.0.1.db"]
  ∧ skip_logs (trace w') = ["a-1.0.0.db"; "b-1.0.0.db"]
  ∧ selected [] keys = ["a-1.0.1.db"; "b-1.0.0.db"].
Proof. vm_compute. repeat split. Qed.

(** ** A key without a revision suffix *)

(** C4, the code at a failing input.  The key [README] has no revision
    suffix.  Listed after a key that parses, it is logged and then
    compared with the version left by the key before it: it enters
    [use_only] as the latest of its own group and its artifact is
    fetched and installed.  Listed first, it is logged and the read of
    the unbound [version] ends [sync_remotes] with [UnboundLocalError]. *)
Theorem unparsed_key_not_excluded :
  (let '(r, w') := run (compute_use_only (Demo.plain []) true ["a-0.0.1.db"; "README"]
                          None) Demo.empty in
   (∃ u v, r = Ok (Some u, v) ∧ "README" ∈ u)
   ∧ trace w' = [LogError (FailedToFindVersion "README")])
  ∧
  (let '(r, w') := run (sync_remotes (Demo.plain ["a-0.0.1.db"; "README"])
                          None false true None) Demo.empty in
   r = Ok tt ∧ datasets w' = ["vid:a-0.0.1.db"; "vid:README"]
   ∧ skip_logs (trace w') = [])
  ∧
  (let '(r, w') := run (sync_remotes (Demo.plain ["README"; "a-0.0.1.db"])
                          None false true None) Demo.empty in
   r = Raise UnboundLocalError ∧ datasets w' = []
   ∧ error_logs (trace w') = [FailedToFindVersion "README"]).
Proof.
  vm_compute. repeat split.
  eexists _, _. split; [reflexivity|]. apply list_elem_of_In. cbn. tauto.
Qed.

(** ** The walk of [sync_library] *)

Lemma fold_m_app {A B} (f : B → A → M B) (l1 l2 : list A) (b : B) (w : World) :
  run (fold_m f (l1 ++ l2) b) w =
  match run (fold_m f l1 b) w with
  | (Ok b', w') => run (fold_m f l2 b') w'
  | (Raise e, w') => (Raise e, w')
  end.
Proof.
  revert b w. induction l1 as [|x l1 IH]; intros b w; [reflexivity|].
  cbn [fold_m app]. rewrite !run_bind.
  destruct (run (f b x) w) as [[b'|e] w1]; [apply IH | reflexivity].
Qed.

(** The loop over the files of a directory opens its [.db] files in
    order. *)
Lemma scan_files_flat (env : Env) (r : string) (f : list string)
    (bs : list Bundle) (w : World) :
  run (fold_m (scan_file env r) f bs) w =
  run (fold_m (open_file env)
         ((λ file_, (file_, path_join r file_))
            <$> filter (λ file_, endswith ".db" file_ = true) f) bs) w.
Proof.
  revert bs w. induction f as [|x f IH]; intros bs w; [reflexivity|].
  cbn [fold_m]. rewrite filter_cons, run_bind.
  assert (Hstep : run (scan_file env r bs x) w
                  = if endswith ".db" x
                    then run (open_file env bs (x, path_join r x)) w
                    else (Ok bs, w))
    by (unfold scan_file; destruct (endswith ".db" x); reflexivity).
  rewrite Hstep. clear Hstep. destruct (endswith ".db" x) eqn:Hx.
  - rewrite decide_True by reflexivity. cbn [fmap list_fmap fold_m].
    rewrite run_bind. destruct (run (open_file env bs (x, path_join r x)) w)
      as [[bs'|e] w1]; [apply IH | reflexivity].
  - rewrite decide_False by discriminate. apply IH.
Qed.

(** The two nested loops of the walk open the files of [db_paths]. *)
Lemma scan_dirs_flat (env : Env) (dirs : list (string * list string))
    (bs : list Bundle) (w : World) :
  run (fold_m (scan_dir env) dirs bs) w =
  run (fold_m (open_file env)
         (flat_map (λ rf : string * list string,
            if contains "/meta/" rf.1 then []
            else (λ file_, (file_, path_join rf.1 file_))
                   <$> filter (λ file_, endswith ".db" file_ = true) rf.2) dirs)
         bs) w.
Proof.
  revert bs w. induction dirs as [|[r f] dirs IH]; intros bs w; [reflexivity|].
  cbn [fold_m flat_map fst snd]. rewrite fold_m_app, run_bind. unfold scan_dir at 1.
  destruct (contains "/meta/" r).
  - rewrite run_ret. cbn [fold_m]. rewrite run_ret. apply IH.
  - rewrite scan_files_flat.
    destruct (run (fold_m (open_file env) _ bs) w) as [[bs'|e] w1];
      [apply IH | reflexivity].
Qed.

(** What the loop does on a list of files: it stops at the first file
    whose bundle cannot be built for a reason other than
    [NotFoundError]; before that file it collects the bundles and logs
    the files whose identity cannot be extracted. *)
Lemma open_files_spec (env : Env) (paths : list (string * string))
    (bs : list Bundle) (w : World) :
  let reached := (upto_fatal env paths).1 in
  ∃ w', run (fold_m (open_file env) paths bs) w
        = (match (upto_fatal env paths).2 with
           | None => Ok (bs ++ collected env reached)
           | Some (_, _, e) => Raise e
           end, w')
    ∧ files w' = files w ∧ datasets w' = datasets w
    ∧ error_logs (trace w')
      = error_logs (trace w) ++ unopened env reached
        ++ match (upto_fatal env paths).2 with
           | None => []
           | Some (file_, path_, e) => [FailedToProcess file_ path_ e]
           end.
Proof.
  revert bs w. induction paths as [|[file_ path_] paths IH]; intros bs w.
  { exists w. cbn. rewrite !app_nil_r. auto. }
  cbn [fold_m upto_fatal fst snd].
  rewrite run_bind. unfold open_file at 1. unfold bundle_close, _create_bundle.
  unfold collected, unopened in *.
  destruct (DbBundle env path_) as [b|e] eqn:Hb.
  - destruct (b_identity b) as [i|e] eqn:Hi; run_steps.
    + match goal with
      | |- context [run (fold_m (open_file env) paths ?bs') ?w1] =>
          destruct (IH bs' w1) as (w' & Hrun & Hf & Hd & He)
      end.
      exists w'. rewrite Hrun, Hf, Hd, He. cbn [files datasets trace fst snd].
      cbn [omap list_omap fst snd]. rewrite Hb, Hi.
      rewrite error_logs_app. cbn [error_logs omap list_omap]. rewrite app_nil_r.
      split; [|auto]. f_equal.
      destruct (upto_fatal env paths).2 as [[[? ?] ?]|]; [reflexivity|].
      f_equal. destruct (is_bundle i); [rewrite <- app_assoc|]; reflexivity.
    + match goal with
      | |- context [run (fold_m (open_file env) paths ?bs') ?w1] =>
          destruct (IH bs' w1) as (w' & Hrun & Hf & Hd & He)
      end.
      exists w'. rewrite Hrun, Hf, Hd, He. cbn [files datasets trace fst snd].
      cbn [omap list_omap fst snd]. rewrite Hb, Hi.
      rewrite !error_logs_app. cbn [error_logs omap list_omap].
      rewrite <- !app_assoc. auto.
  - destruct (decide (e = NotFoundError)) as [->|Hne]; run_steps.
    + destruct (IH bs w) as (w' & Hrun & Hf & Hd & He).
      exists w'. rewrite Hrun, Hf, Hd, He. cbn [fst snd].
      cbn [omap list_omap fst snd]. rewrite Hb. auto.
    + eexists. split; [reflexivity|]. cbn [files datasets trace fst snd].
      rewrite error_logs_app. auto.
Qed.

Lemma upto_fatal_none (env : Env) (paths : list (string * string)) :
  (upto_fatal env paths).2 = None → (upto_fatal env paths).1 = paths.
Proof.
  induction paths as [|fp paths IH]; [reflexivity|]. cbn [upto_fatal].
  destruct (DbBundle env fp.2) as [b|e].
  - cbn. intros H. rewrite (IH H). reflexivity.
  - destruct (decide (e = NotFoundError)); cbn; [|discriminate].
    intros H. rewrite (IH H). reflexivity.
Qed.

(** The string tests of the walk, in terms of concatenation. *)
Lemma prefix_app (p s : string) : String.prefix p s = true ↔ ∃ b, s = (p ++ b)%string.
Proof.
  revert s. induction p as [|c p IH]; intros s.
  - split; [intros _; exists s; reflexivity | intros _; destruct s; reflexivity].
  - destruct s as [|c' s]; [split; [discriminate | intros [b Hb]; discriminate]|].
    cbn. destruct (ascii_dec c c') as [->|Hc].
    + rewrite IH. split; intros [b Hb]; exists b.
      * rewrite Hb. reflexivity.
      * change (String c' p ++ b)%string with (String c' (p ++ b)) in Hb. congruence.
    + split; [discriminate|]. intros [b Hb].
      change (String c p ++ b)%string with (String c (p ++ b)) in Hb. congruence.
Qed.

Lemma contains_app (needle s : string) :
  contains needle s = true ↔ ∃ a b, s = (a ++ needle ++ b)%string.
Proof.
  induction s as [|c s IH]; cbn [contains].
  - rewrite orb_false_r, prefix_app. split.
    + intros [b Hb]. exists "", b. exact Hb.
    + intros (a & b & Hab). destruct a; [exists b; exact Hab | discriminate].
  - rewrite orb_true_iff, prefix_app, IH. split.
    + intros [[b Hb]|(a & b & Hab)].
      * exists "", b. exact Hb.
      * exists (String c a), b. rewrite Hab. reflexivity.
    + intros (a & b & Hab). destruct a as [|c' a].
      * left. exists b. exact Hab.
      * right. exists a, b.
        change (String c' a ++ needle ++ b)%string
          with (String c' (a ++ needle ++ b)) in Hab. congruence.
Qed.

Lemma append_cons (c : ascii) (p q : string) :
  (String c p ++ q)%string = String c (p ++ q).
Proof. reflexivity. Qed.

Lemma substring_all (s : string) : String.substring 0 (String.length s) s = s.
Proof. induction s; cbn; congruence. Qed.

Lemma substring_app_r (p q : string) :
  String.substring (String.length p) (String.length q) (p ++ q) = q.
Proof.
  induction p as [|c p IH]; [apply substring_all|].
  rewrite append_cons. cbn [String.length String.substring]. exact IH.
Qed.

Lemma length_app (p q : string) :
  String.length (p ++ q) = (String.length p + String.length q)%nat.
Proof.
  induction p as [|c p IH]; [reflexivity|].
  rewrite append_cons. cbn [String.length]. rewrite IH. reflexivity.
Qed.

Lemma substring_split (s : string) (n : nat) :
  (n ≤ String.length s)%nat →
  s = (String.substring 0 n s ++ String.substring n (String.length s - n) s)%string.
Proof.
  revert n. induction s as [|c s IH]; intros n Hn; cbn in Hn.
  - destruct n; [reflexivity | lia].
  - destruct n as [|n]; cbn [String.substring String.length].
    + rewrite Nat.sub_0_r. change (String c s = String c (String.substring 0 (String.length s) s)).
      rewrite substring_all. reflexivity.
    + rewrite append_cons. f_equal. apply IH. lia.
Qed.

Lemma endswith_app (suffix s : string) :
  endswith suffix s = true ↔ ∃ p, s = (p ++ suffix)%string.
Proof.
  unfold endswith. rewrite andb_true_iff, Nat.leb_le, bool_decide_eq_true. split.
  - intros [Hlen Hsub]. exists (String.substring 0 (String.length s - String.length suffix) s).
    pose proof (substring_split s (String.length s - String.length suffix)) as H.
    replace (String.length s - (String.length s - String.length suffix))%nat
      with (String.length suffix) in H by lia.
    rewrite Hsub in H. apply H. lia.
  - intros [p ->]. rewrite length_app. split; [lia|].
    replace (String.length p + String.length suffix - String.length suffix)%nat
      with (String.length p) by lia.
    apply substring_app_r.
Qed.

(** Induction on a directory tree, with the property for the
    subdirectories. *)
Lemma dir_rect_forall (P : dir → Prop) :
  (∀ name subdirs filenames, Forall P subdirs → P (Dir name subdirs filenames)) →
  ∀ t, P t.
Proof.
  intros H. fix IH 1. intros [name subdirs filenames]. apply H.
  induction subdirs as [|d subdirs IHs]; constructor; [apply IH | exact IHs].
Qed.

(** [walk] lists the directories that the walk comes to. *)
Lemma walk_visits (t : dir) (top r : string) (f : list string) :
  (r, f) ∈ walk top t ↔ visits top t r f.
Proof.
  split.
  - revert top. induction t as [name subdirs filenames IH] using dir_rect_forall.
    intros top Hin. cbn [walk] in Hin. apply elem_of_cons in Hin as [[= -> ->]|Hin].
    { constructor. }
    apply list_elem_of_In, in_flat_map in Hin as (d & Hd & Hin).
    apply list_elem_of_In in Hd, Hin.
    destruct (bool_decide ((dir_name d ++ ".db")%string ∈ filenames)) eqn:Hdb;
      [inversion Hin|].
    apply bool_decide_eq_false in Hdb.
    rewrite Forall_forall in IH.
    exact (visits_sub top name subdirs filenames d r f Hd Hdb (IH d Hd _ Hin)).
  - induction 1 as [top name subdirs filenames
                   | top name subdirs filenames d r f Hd Hdb _ IH]; cbn [walk].
    + left.
    + right. apply list_elem_of_In, in_flat_map. exists d.
      split; [apply list_elem_of_In, Hd|]. apply list_elem_of_In.
      rewrite (bool_decide_eq_false_2 _ Hdb). exact IH.
Qed.

(** The files that the walk tries to open are the files named [*.db] of
    the directories that it comes to and whose path does not contain
    [/meta/]. *)
Lemma db_paths_visits (env : Env) (tree : dir) (file_ path_ : string) :
  (file_, path_) ∈ db_paths env tree ↔
  ∃ r f, visits (cache_dir env) tree r f
         ∧ file_ ∈ f
         ∧ (∃ stem, file_ = (stem ++ ".db")%string)
         ∧ (¬ ∃ a b, r = (a ++ "/meta/" ++ b)%string)
         ∧ path_ = path_join r file_.
Proof.
  unfold db_paths. rewrite list_elem_of_In, in_flat_map. split.
  - intros ([r f] & Hrf & Hin). apply list_elem_of_In in Hrf, Hin. cbn [fst snd] in Hin.
    destruct (contains "/meta/" r) eqn:Hmeta; [inversion Hin|].
    apply list_elem_of_fmap in Hin as (x & [= -> ->] & Hx).
    apply list_elem_of_filter in Hx as [Hdb Hx].
    exists r, f. split; [apply walk_visits, Hrf|]. split; [exact Hx|].
    split; [apply endswith_app, Hdb|]. split; [|reflexivity].
    intros Hc. apply contains_app in Hc. congruence.
  - intros (r & f & Hv & Hin & Hdb & Hmeta & ->). exists (r, f).
    split; [apply list_elem_of_In, walk_visits, Hv|]. apply list_elem_of_In.
    cbn [fst snd]. destruct (contains "/meta/" r) eqn:Hc.
    { exfalso. apply Hmeta, contains_app, Hc. }
    apply list_elem_of_fmap. exists file_. split; [reflexivity|].
    apply list_elem_of_filter. split; [apply endswith_app, Hdb | exact Hin].
Qed.

(** C8, as the code has it: the walk of [sync_library] over the cache
    directory.  The files that it tries to open are the files named
    [*.db] of the directories it comes to, a directory being left out
    when a file named like it with [.db] appended lies beside it, or when
    its path contains [/meta/].  A file whose bundle is built but whose
    identity cannot be extracted is logged ("Failed to open bundle") and
    skipped, and the walk goes on; a file whose bundle cannot be built
    for [NotFoundError] is skipped without a log entry; at the first file
    whose bundle cannot be built for another reason the walk logs
    "Failed to process" and raises.  The bundles collected for
    installation are the files reached that open, yield their identity
    and are bundles; the ledger and the catalog are not touched. *)
Theorem find_bundles_logs_and_skips (env : Env) (tree : dir) (w : World) :
  let paths := db_paths env tree in
  let reached := (upto_fatal env paths).1 in
  (∀ file_ path_,
     (file_, path_) ∈ paths ↔
     ∃ r f, visits (cache_dir env) tree r f
            ∧ file_ ∈ f
            ∧ (∃ stem, file_ = (stem ++ ".db")%string)
            ∧ (¬ ∃ a b, r = (a ++ "/meta/" ++ b)%string)
            ∧ path_ = path_join r file_)
  ∧ ∃ w', run (find_bundles env tree) w
          = (match (upto_fatal env paths).2 with
             | None => Ok (collected env reached)
             | Some (_, _, e) => Raise e
             end, w')
      ∧ files w' = files w ∧ datasets w' = datasets w
      ∧ error_logs (trace w')
        = error_logs (trace w) ++ unopened env reached
          ++ match (upto_fatal env paths).2 with
             | None => []
             | Some (file_, path_, e) => [FailedToProcess file_ path_ e]
             end.
Proof.
  intros paths reached. split; [exact (db_paths_visits env tree)|].
  unfold find_bundles. rewrite scan_dirs_flat.
  fold (db_paths env tree). fold paths.
  exact (open_files_spec env paths [] w).
Qed.

(** C8 as stated fails on a file whose bundle cannot be built.  When
    [DbBundle] raises [SqliteDatabaseError] for the first file, the walk
    logs it and raises: [sync_library] ends there, and the valid bundle
    after it is neither collected nor installed.  When [DbBundle] raises
    [NotFoundError], the file is skipped and the walk goes on, but
    nothing is logged. *)
Lemma find_bundles_fatal_file_ends_walk :
  let tree := Dir "cache" [] ["bad.db"; "good-0.0.1.db"] in
  (let '(r, w') := run (sync_library (Demo.corrupt "/cache/bad.db" SqliteDatabaseError [])
                          tree false) Demo.empty in
   r = Raise SqliteDatabaseError
   ∧ datasets w' = []
   ∧ error_logs (trace w')
     = [FailedToProcess "bad.db" "/cache/bad.db" SqliteDatabaseError])
  ∧
  (let '(r, w') := run (sync_library (Demo.corrupt "/cache/bad.db" NotFoundError [])
                          tree false) Demo.empty in
   r = Ok [Demo.bundle_at "/cache/good-0.0.1.db"]
   ∧ datasets w' = ["vid:/cache/good-0.0.1.db"]
   ∧ error_logs (trace w') = []).
Proof. vm_compute. repeat split. Qed.

(** The walk on a small cache directory: the directory of partitions
    and the subdirectory of [meta] are not searched, the broken file is
    logged, and the two bundles are collected. *)
Example find_bundles_demo :
  db_paths Demo.walking Demo.tree
  = [("a-0.0.1.db", "/cache/a-0.0.1.db");
     ("broken-0.0.1.db", "/cache/broken-0.0.1.db");
     ("m.db", "/cache/meta/m.db");
     ("c-0.0.2.db", "/cache/src/c-0.0.2.db")]
  ∧ (let '(r, w') := run (find_bundles Demo.walking Demo.tree) Demo.empty in
     r = Ok [Demo.bundle_at "/cache/a-0.0.1.db"; Demo.bundle_at "/cache/src/c-0.0.2.db"]
     ∧ error_logs (trace w')
       = [FailedToOpenBundle "/cache/broken-0.0.1.db" SqliteDatabaseError]).
Proof. vm_compute. repeat split. Qed.

(** ** The states of a ledger record *)

Lemma advances_refl (l : list File) : advances l l.
Proof. apply Forall2_same_length_lookup. split; [reflexivity|]. intros i f f' H1 H2. left. congruence. Qed.

Lemma advances_trans (l1 l2 l3 : list File) :
  advances l1 l2 → advances l2 l3 → advances l1 l3.
Proof.
  intros H12. revert l3. induction H12 as [|f1 f2 l1 l2 Hf _ IH]; intros l3 H23.
  - inversion H23. constructor.
  - inversion H23 as [|? f3 ? l3' Hf' H23']; subst. constructor; [|apply IH; exact H23'].
    destruct Hf as [->|[Hnew ->]]; [exact Hf'|].
    destruct Hf' as [->|[Hnew' _]]; [right; auto|].
    cbn in Hnew'. discriminate.
Qed.

Lemma advances_alter (l : list File) (i : nat) (f : File) :
  l !! i = Some f → f_state f = "new" →
  advances l (alter (set_state "pushed") i l).
Proof.
  revert i. induction l as [|g l IH]; intros i Hi Hnew; [constructor|].
  destruct i as [|i]; cbn in Hi.
  - injection Hi as ->. constructor; [right; auto | apply advances_refl].
  - constructor; [left; reflexivity | apply (IH i Hi Hnew)].
Qed.

(** [.one] reads the ledger: the world stays, and the row returned is at
    the position returned and satisfies the query. *)
Lemma one_result (P : File → Prop) `{∀ f, Decision (P f)} (w : World) :
  (run (Files.one P) w).2 = w
  ∧ ∀ i f, (run (Files.one P) w).1 = Ok (i, f) → files w !! i = Some f ∧ P f.
Proof.
  pose proof (positions_filter P (files w) 0) as HF.
  unfold Files.one. rewrite run_bind, run_get_world. cbv iota beta.
  destruct (Files.positions P 0 (files w)) as [|i [|j l]].
  - split; [reflexivity|]. intros i f H0. discriminate.
  - inversion HF as [|i' f' li lf [Hi _] Hrest Hp Heq]; subst.
    rewrite Nat.sub_0_r in Hi. rewrite Hi.
    split; [reflexivity|]. intros i0 f0 [= <- <-]. split; [exact Hi|].
    assert (Hin : f' ∈ filter P (files w)) by (rewrite <- Heq; left).
    apply list_elem_of_filter in Hin as [HP _]. exact HP.
  - split; [reflexivity|]. intros i0 f0 H0. discriminate.
Qed.

(** [push] on one reference moves no state but that of the record it
    pushes, from [new] to [pushed]; this holds for every outcome, also
    when the push fails. *)
Lemma push_ref_advances (env : Env) (upstream : option string) (ref : string)
    (cb dry_run : bool) (w : World) :
  advances (files w) (files (run (push_ref env upstream ref cb dry_run) w).2).
Proof.
  unfold push_ref. destruct upstream as [up|]; [|apply advances_refl].
  rewrite run_bind, run_lift.
  destruct (resolve_ref_one env ref None) as [[dsid|]|e]; try apply advances_refl.
  cbv iota beta. rewrite run_bind, run_try_except.
  destruct (one_result (is_new_for (vid (push_identity dsid))) w) as [Hw Hone].
  destruct (run (Files.one (is_new_for (vid (push_identity dsid)))) w)
    as [[[i f]|e] w1]; cbn [fst snd] in *; subst w1.
  2: { run_steps. apply advances_refl. }
  destruct (Hone i f eq_refl) as [Hi (_ & _ & Hnew)]. clear Hone.
  pose proof (advances_alter (files w) i f Hi Hnew) as Halter.
  unfold upstream_has, call_back, clock, set_file_state, upstream_put_file,
    merge_and_commit, database_commit.
  run_steps. destruct (bool_decide _), cb, dry_run; run_steps;
    try apply advances_refl;
    try (destruct (alter (set_state "pushed") i (files w) !! i);
         run_steps; exact Halter).
  all: destruct (upstream_put env (f_path f) (cache_key (push_identity dsid)));
    run_steps; try apply advances_refl;
    destruct (alter (set_state "pushed") i (files w) !! i);
    run_steps; exact Halter.
Qed.

Lemma for_each_advances {A} (l : list A) (body : A → M unit) :
  (∀ x w, advances (files w) (files (run (body x) w).2)) →
  ∀ w, advances (files w) (files (run (for_each l body) w).2).
Proof.
  intros Hbody. induction l as [|x l IH]; intros w; [apply advances_refl|].
  cbn [for_each]. rewrite run_bind. specialize (Hbody x w).
  destruct (run (body x) w) as [[[]|e] w1]; cbn [snd] in *; [|exact Hbody].
  exact (advances_trans _ _ _ Hbody (IH w1)).
Qed.

Lemma push_advances (env : Env) (upstream ref : option string)
    (cb dry_run : bool) (w : World) :
  advances (files w) (files (run (push env upstream ref cb dry_run) w).2).
Proof.
  unfold push. destruct ref as [r|].
  - rewrite run_bind. pose proof (push_ref_advances env upstream r cb dry_run w) as H.
    destruct (run (push_ref env upstream r cb dry_run) w) as [[x|e] w1]; exact H.
  - destruct upstream as [up|]; [|apply advances_refl].
    unfold new_files, Files.all. run_steps.
    pose proof (for_each_advances
                  (f_ref <$> filter (λ f, Files.installed f ∧ f_state f = "new") (files w))
                  (λ r, push_ref env (Some up) r cb dry_run ;; mret tt)) as Hloop.
    match type of Hloop with
    | ?H → _ => assert (Hbody : H)
    end.
    { intros r w0. rewrite run_bind.
      pose proof (push_ref_advances env (Some up) r cb dry_run w0) as H.
      destruct (run (push_ref env (Some up) r cb dry_run) w0) as [[x|e] w1]; exact H. }
    specialize (Hloop Hbody w). clear Hbody.
    destruct (run (for_each _ _) w) as [[[]|e] w1]; cbn [snd] in Hloop; [|exact Hloop].
    unfold store_list. destruct (upstream_store_list env) as [e|]; run_steps.
    + destruct (decide (e = AttributeError)); run_steps; exact Hloop.
    + exact Hloop.
Qed.

(** ** What a method leaves alone *)

Section Keeps.

Variable R : World → World → Prop.
Hypothesis R_refl : ∀ w, R w w.
Hypothesis R_trans : ∀ w1 w2 w3, R w1 w2 → R w2 w3 → R w1 w3.

Lemma keeps_ret {A} (a : A) : keeps R (mret a).
Proof. intros w. apply R_refl. Qed.

Lemma keeps_raise {A} (e : exn) : keeps R (raise e : M A).
Proof. intros w. apply R_refl. Qed.

Lemma keeps_lift {A} (r : result A) : keeps R (lift r).
Proof. intros w. apply R_refl. Qed.

Lemma keeps_get_world : keeps R get_world.
Proof. intros w. apply R_refl. Qed.

Lemma keeps_modify (f : World → World) : (∀ w, R w (f w)) → keeps R (modify f).
Proof. intros H w. apply H. Qed.

Lemma keeps_bind {A B} (c : M A) (f : A → M B) :
  keeps R c → (∀ a, keeps R (f a)) → keeps R (c ≫= f).
Proof.
  intros Hc Hf w. rewrite run_bind. specialize (Hc w).
  destruct (run c w) as [[a|e] w1]; cbn [snd] in *; [|exact Hc].
  exact (R_trans _ _ _ Hc (Hf a w1)).
Qed.

Lemma keeps_bind_lift {A B} (r : result A) (f : A → M B) :
  (∀ a, r = Ok a → keeps R (f a)) → keeps R (lift r ≫= f).
Proof.
  intros Hf w. rewrite run_bind, run_lift.
  destruct r as [a|e]; [exact (Hf a eq_refl w) | apply R_refl].
Qed.

Lemma keeps_try_except {A} (c : M A) (h : exn → M A) :
  keeps R c → (∀ e, keeps R (h e)) → keeps R (try_except c h).
Proof.
  intros Hc Hh w. rewrite run_try_except. specialize (Hc w).
  destruct (run c w) as [[a|e] w1]; cbn [snd] in *; [exact Hc|].
  exact (R_trans _ _ _ Hc (Hh e w1)).
Qed.

Lemma keeps_for_each {A} (l : list A) (body : A → M unit) :
  (∀ x, keeps R (body x)) → keeps R (for_each l body).
Proof.
  intros Hb. induction l as [|x l IH]; [apply keeps_ret|].
  cbn [for_each]. apply keeps_bind; [apply Hb | intros _; exact IH].
Qed.

Lemma keeps_fold_m {A B} (f : B → A → M B) (l : list A) (b : B) :
  (∀ b x, keeps R (f b x)) → keeps R (fold_m f l b).
Proof.
  intros Hf. revert b. induction l as [|x l IH]; intros b; [apply keeps_ret|].
  cbn [fold_m]. apply keeps_bind; [apply Hf | intros b'; apply IH].
Qed.

End Keeps.

Ltac keeps_with Hrefl Htrans base :=
  repeat first
    [ assumption
    | base
    | apply (keeps_ret _ Hrefl)
    | apply (keeps_raise _ Hrefl)
    | apply (keeps_lift _ Hrefl)
    | apply (keeps_get_world _ Hrefl)
    | apply (keeps_bind_lift _ Hrefl);
      let a := fresh "a" in let H := fresh "H" in
      intros a H; try discriminate H; try (injection H as <-)
    | apply (keeps_bind _ Htrans)
    | apply (keeps_try_except _ Htrans)
    | apply (keeps_for_each _ Hrefl Htrans)
    | apply (keeps_fold_m _ Hrefl Htrans)
    | match goal with
      | |- ∀ _, _ => intro
      | |- keeps _ (match ?x with _ => _ end) => destruct x
      end
    | progress cbv beta iota ].

(** ** What the synchronisation methods leave alone *)

Lemma sync_frame_refl (w : World) : sync_frame w w.
Proof. repeat split; reflexivity. Qed.

Lemma sync_frame_trans (w1 w2 w3 : World) :
  sync_frame w1 w2 → sync_frame w2 w3 → sync_frame w1 w3.
Proof.
  intros (Hf & Hc & Hu & Ht) (Hf' & Hc' & Hu' & Ht').
  split; [exact (eq_trans Hf' Hf)|].
  split; [exact (transitivity Hc Hc')|].
  split; [exact (eq_trans Hu' Hu) | exact (eq_trans Ht' Ht)].
Qed.

(** The row that [enter] keeps has the key and the path of the row
    recorded; its state is that of one of the two rows. *)
Lemma enter_fields (f g : File) :
  f_ref (Files.enter f g) = f_ref f ∧ f_type (Files.enter f g) = f_type f
  ∧ f_source_url (Files.enter f g) = f_source_url f
  ∧ f_path (Files.enter f g) = f_path f
  ∧ (f_state (Files.enter f g) = f_state f ∨ f_state (Files.enter f g) = f_state g).
Proof.
  unfold Files.enter. destruct (decide _); cbn; auto 10.
Qed.

Lemma other_rows_record (f : File) (l : list File) :
  Files.installed f → other_rows (Files.record f l) = other_rows l.
Proof.
  intros Hf. unfold other_rows.
  induction l as [|g l IH]; cbn [Files.record].
  - rewrite filter_cons_False by tauto. reflexivity.
  - destruct (decide (Files.same_key g f)) as [(_ & Ht & _)|Hk].
    + assert (Hg : Files.installed g) by (unfold Files.installed in *; rewrite Ht; exact Hf).
      assert (He : Files.installed (Files.enter f g)).
      { unfold Files.installed in *.
        destruct (enter_fields f g) as (_ & -> & _). exact Hf. }
      rewrite !filter_cons_False by tauto. reflexivity.
    + rewrite !filter_cons. rewrite IH. reflexivity.
Qed.

Lemma other_rows_delete (P : File → Prop) `{∀ f, Decision (P f)} (l : list File) :
  (∀ f, P f → Files.installed f) →
  other_rows (filter (λ f, ¬ P f) l) = other_rows l.
Proof.
  intros HP. unfold other_rows. rewrite list_filter_filter.
  apply list_filter_iff. intros f. split; [tauto|]. intros Hf. split; [exact Hf|].
  intros HPf. apply Hf, HP, HPf.
Qed.

Lemma keeps_sync_emit (e : event) : keeps sync_frame (emit e).
Proof. intros w. rewrite run_emit. repeat split; reflexivity. Qed.

Lemma keeps_sync_delete (P : File → Prop) `{∀ f, Decision (P f)} :
  (∀ f, P f → Files.installed f) → keeps sync_frame (Files.delete P).
Proof.
  intros HP w. unfold Files.delete. rewrite run_modify. world_norm.
  split; [apply other_rows_delete, HP | repeat split; reflexivity].
Qed.

(** [new_file] records the row and changes nothing else but the
    trace. *)
Lemma new_file_run (f : File) (commit : bool) (w : World) :
  run (Files.new_file f commit) w
  = (Ok (Files.recorded_as f (files w)),
     {| files := Files.record f (files w); datasets := datasets w; cache := cache w;
        upstream_keys := upstream_keys w; ticks := ticks w;
        trace := trace w ++ (if commit then [DbCommit] else []) |}).
Proof.
  unfold Files.new_file. destruct commit; run_steps; rewrite ?app_nil_r; reflexivity.
Qed.

Lemma keeps_sync_new_file (f : File) (commit : bool) :
  Files.installed f → keeps sync_frame (Files.new_file f commit).
Proof.
  intros Hf w. rewrite new_file_run. cbn [snd].
  split; [apply other_rows_record, Hf | repeat split; reflexivity].
Qed.

Lemma keeps_sync_cache_add (key : string) :
  keeps sync_frame (modify (λ w, with_cache ({[key]} ∪ cache w) w)).
Proof.
  intros w. rewrite run_modify.
  split; [reflexivity|]. split; [cbn; set_solver|]. split; reflexivity.
Qed.

Lemma keeps_sync_datasets (f : list string → list string) :
  keeps sync_frame (modify (λ w, with_datasets (f (datasets w)) w)).
Proof. intros w. rewrite run_modify. repeat split; cbn; reflexivity. Qed.

Ltac keeps_sync_base :=
  first [ apply keeps_sync_emit
        | apply keeps_sync_cache_add
        | apply keeps_sync_datasets
        | apply (keeps_sync_datasets (λ l, l ++ [_]))
        | apply keeps_sync_new_file; unfold Files.installed; cbn; tauto
        | apply keeps_sync_delete; unfold Files.installed; cbn; tauto ].

Ltac keeps_sync := keeps_with sync_frame_refl sync_frame_trans keeps_sync_base.

Lemma keeps_sync_put_partition (env : Env) (p : Partition) (source : option string)
    (file_state : string) (commit : bool) :
  keeps sync_frame (put_partition env p source file_state commit).
Proof.
  unfold put_partition, install_partition_file, cache_has, cache_put.
  keeps_sync.
Qed.

Lemma keeps_sync_put_bundle (env : Env) (b : Bundle) (source : option string)
    (install_partitions : bool) (file_state : string) (commit force : bool) :
  keeps sync_frame (put_bundle env b source install_partitions file_state commit force).
Proof.
  unfold put_bundle, already_installed, Files.one_maybe, Files.one,
    database_install_bundle, install_bundle_file, cache_has, cache_put, mark_updated.
  keeps_sync; apply keeps_sync_put_partition.
Qed.

Lemma keeps_sync_get_bundle (env : Env) (key : string) :
  keeps sync_frame (_get_bundle_by_cache_key env key).
Proof.
  unfold _get_bundle_by_cache_key, arc_get_path. keeps_sync.
Qed.

Lemma keeps_sync_find_bundles (env : Env) (tree : dir) :
  keeps sync_frame (find_bundles env tree).
Proof.
  unfold find_bundles, scan_dir, scan_file, open_file, bundle_close. keeps_sync.
Qed.

Lemma keeps_sync_install_found (env : Env) (b : Bundle) :
  keeps sync_frame (install_found env b).
Proof.
  unfold install_found, database_commit, database_close, bundle_close.
  keeps_with sync_frame_refl sync_frame_trans
    ltac:(first [ apply keeps_sync_put_bundle | apply keeps_sync_put_partition
                | keeps_sync_base ]).
Qed.

(** [sync_library], with or without [clean] and whatever it finds in the
    cache directory, leaves the ledger rows of the other types as they
    are, removes no file from the local cache, and touches neither the
    upstream nor the clock.  This holds also when it raises. *)
Theorem sync_library_frame (env : Env) (tree : dir) (clean : bool) (w : World) :
  let w' := (run (sync_library env tree clean) w).2 in
  other_rows (files w') = other_rows (files w)
  ∧ cache w ⊆ cache w'
  ∧ upstream_keys w' = upstream_keys w
  ∧ ticks w' = ticks w.
Proof.
  revert w. change (keeps sync_frame (sync_library env tree clean)).
  unfold sync_library.
  keeps_with sync_frame_refl sync_frame_trans
    ltac:(first [ apply keeps_sync_find_bundles | apply keeps_sync_install_found
                | keeps_sync_base ]).
Qed.

Lemma keeps_sync_sync_key (env : Env) (remote : Remote) (all_keys : list string)
    (use_only vids : option (list string)) (key : string) :
  keeps sync_frame (sync_key env remote all_keys use_only vids key).
Proof.
  unfold sync_key, fetch, install_fetched, cache_has, database_commit,
    database_close, bundle_close.
  keeps_with sync_frame_refl sync_frame_trans
    ltac:(first [ apply keeps_sync_put_bundle | apply keeps_sync_get_bundle
                | keeps_sync_base ]).
Qed.

Lemma keeps_sync_sync_remote (env : Env) (last_only : bool)
    (vids : option (list string)) (v : option N) (nr : string * Remote) :
  keeps sync_frame (sync_remote env last_only vids v nr).
Proof.
  unfold sync_remote, compute_use_only, scan_key, Files.all.
  keeps_with sync_frame_refl sync_frame_trans
    ltac:(first [ apply keeps_sync_sync_key | keeps_sync_base ]).
Qed.

(** [sync_remotes], for every choice of its arguments and every
    behaviour of the remotes, leaves the ledger rows of the other types
    as they are, removes no file from the local cache, and touches
    neither the upstream nor the clock.  This holds also when it
    raises. *)
Theorem sync_remotes_frame (env : Env) (remotes : option (list (string * Remote)))
    (clean last_only : bool) (vids : option (list string)) (w : World) :
  let w' := (run (sync_remotes env remotes clean last_only vids) w).2 in
  other_rows (files w') = other_rows (files w)
  ∧ cache w ⊆ cache w'
  ∧ upstream_keys w' = upstream_keys w
  ∧ ticks w' = ticks w.
Proof.
  revert w. change (keeps sync_frame (sync_remotes env remotes clean last_only vids)).
  unfold sync_remotes, mark_updated.
  keeps_with sync_frame_refl sync_frame_trans
    ltac:(first [ apply keeps_sync_sync_remote | keeps_sync_base ]).
Qed.

(** ** The states of the ledger under the methods that write it *)

Lemma state_le_refl (a : string) : state_le a a.
Proof. left. reflexivity. Qed.

Lemma state_le_trans (a b c : string) : state_le a b → state_le b c → state_le a c.
Proof.
  intros [->|Hab] [->|Hbc]; [left; reflexivity | right; exact Hbc | right; exact Hab|].
  right. unfold Files.moves_forward in *.
  destruct (Files.state_rank a), (Files.state_rank b), (Files.state_rank c);
    try contradiction. lia.
Qed.

Lemma later_row_refl (f : File) : later_row f f.
Proof. split; [repeat split | apply state_le_refl]. Qed.

Lemma later_row_trans (f g h : File) : later_row f g → later_row g h → later_row f h.
Proof.
  intros [(H1 & H2 & H3) Hs] [(H1' & H2' & H3') Hs'].
  split; [repeat split; congruence | exact (state_le_trans _ _ _ Hs Hs')].
Qed.

Lemma states_advance_refl (l : list File) : states_advance l l.
Proof.
  exists l, []. split; [rewrite app_nil_r; reflexivity|].
  apply Forall2_same_length_lookup. split; [reflexivity|].
  intros i f f' H1 H2. assert (f' = f) as -> by congruence. apply later_row_refl.
Qed.

Lemma later_rows_trans (l1 l2 l3 : list File) :
  Forall2 later_row l1 l2 → Forall2 later_row l2 l3 → Forall2 later_row l1 l3.
Proof.
  intros H12. revert l3. induction H12 as [|f g l1 l2 Hfg _ IH]; intros l3 H23.
  - inversion H23. constructor.
  - inversion H23 as [|? h ? l3' Hgh H23']; subst.
    constructor; [exact (later_row_trans _ _ _ Hfg Hgh) | apply IH, H23'].
Qed.

Lemma states_advance_trans (l1 l2 l3 : list File) :
  states_advance l1 l2 → states_advance l2 l3 → states_advance l1 l3.
Proof.
  intros (a & b & -> & Ha) (c & d & -> & Hc).
  apply Forall2_app_inv_l in Hc as (c1 & c2 & Hc1 & Hc2 & ->).
  exists c1, (c2 ++ d). split; [rewrite app_assoc; reflexivity|].
  exact (later_rows_trans _ _ _ Ha Hc1).
Qed.

Lemma ledger_advances_refl (w : World) : ledger_advances w w.
Proof. apply states_advance_refl. Qed.

Lemma ledger_advances_trans (w1 w2 w3 : World) :
  ledger_advances w1 w2 → ledger_advances w2 w3 → ledger_advances w1 w3.
Proof. apply states_advance_trans. Qed.

(** Entering a row on a record of its key moves the state of the record
    forward or leaves it. *)
Lemma later_row_enter (f g : File) : Files.same_key g f → later_row g (Files.enter f g).
Proof.
  intros (H1 & H2 & H3). unfold Files.enter.
  destruct (decide (Files.moves_forward (f_state g) (f_state f))) as [Hm|Hm].
  - split; [repeat split; assumption | right; exact Hm].
  - split; [repeat split; assumption | left; reflexivity].
Qed.

Lemma states_advance_record (f : File) (l : list File) :
  states_advance l (Files.record f l).
Proof.
  induction l as [|g l IH]; cbn [Files.record].
  - exists [], [f]. split; [reflexivity | constructor].
  - destruct (decide (Files.same_key g f)) as [Hs|Hs].
    + exists (Files.enter f g :: l), []. split; [rewrite app_nil_r; reflexivity|].
      constructor; [exact (later_row_enter f g Hs)|].
      destruct (states_advance_refl l) as (l1 & l2 & Heq & Hl).
      apply Forall2_same_length_lookup. split; [reflexivity|].
      intros i x y Hx Hy. assert (y = x) as -> by congruence. apply later_row_refl.
    + destruct IH as (l1 & l2 & -> & Hl).
      exists (g :: l1), l2. split; [reflexivity|].
      constructor; [apply later_row_refl | exact Hl].
Qed.

(** A push moves the states forward. *)
Lemma advances_states (l l' : list File) : advances l l' → states_advance l l'.
Proof.
  intros H. exists l', []. split; [rewrite app_nil_r; reflexivity|].
  eapply Forall2_impl; [exact H|]. intros f f' [->|[Hnew ->]].
  - apply later_row_refl.
  - split; [repeat split|]. right. cbn [f_state set_state]. rewrite Hnew.
    change (Files.moves_forward "new" "pushed"). vm_compute. repeat constructor.
Qed.

Lemma keeps_states_same (f : World → World) :
  (∀ w, files (f w) = files w) → keeps ledger_advances (modify f).
Proof.
  intros Hf w. rewrite run_modify. unfold ledger_advances. cbn [snd]. rewrite Hf.
  apply states_advance_refl.
Qed.

Lemma keeps_states_emit (e : event) : keeps ledger_advances (emit e).
Proof. intros w. rewrite run_emit. apply states_advance_refl. Qed.

Lemma keeps_states_new_file (f : File) (commit : bool) :
  keeps ledger_advances (Files.new_file f commit).
Proof. intros w. rewrite new_file_run. apply states_advance_record. Qed.

Ltac keeps_states_base :=
  first [ apply keeps_states_emit
        | apply keeps_states_new_file
        | apply keeps_states_same; intros ?; reflexivity ].

Ltac keeps_states :=
  keeps_with ledger_advances_refl ledger_advances_trans keeps_states_base.

Lemma keeps_states_put_partition (env : Env) (p : Partition) (source : option string)
    (file_state : string) (commit : bool) :
  keeps ledger_advances (put_partition env p source file_state commit).
Proof.
  unfold put_partition, install_partition_file, cache_has, cache_put.
  keeps_states.
Qed.

Lemma keeps_states_put_bundle (env : Env) (b : Bundle) (source : option string)
    (install_partitions : bool) (file_state : string) (commit force : bool) :
  keeps ledger_advances
    (put_bundle env b source install_partitions file_state commit force).
Proof.
  unfold put_bundle, already_installed, Files.one_maybe, Files.one,
    database_install_bundle, install_bundle_file, cache_has, cache_put, mark_updated.
  keeps_with ledger_advances_refl ledger_advances_trans
    ltac:(first [ apply keeps_states_put_partition | keeps_states_base ]).
Qed.

Lemma keeps_states_sync_library (env : Env) (tree : dir) :
  keeps ledger_advances (sync_library env tree false).
Proof.
  unfold sync_library, find_bundles, scan_dir, scan_file, open_file, install_found,
    database_commit, database_close, bundle_close.
  keeps_with ledger_advances_refl ledger_advances_trans
    ltac:(first [ apply keeps_states_put_bundle | apply keeps_states_put_partition
                | keeps_states_base ]).
Qed.

Lemma keeps_states_sync_remotes (env : Env) (remotes : option (list (string * Remote)))
    (last_only : bool) (vids : option (list string)) :
  keeps ledger_advances (sync_remotes env remotes false last_only vids).
Proof.
  unfold sync_remotes, sync_remote, compute_use_only, scan_key, Files.all, sync_key,
    fetch, install_fetched, _get_bundle_by_cache_key, arc_get_path, cache_has,
    database_commit, database_close, bundle_close, mark_updated.
  keeps_with ledger_advances_refl ledger_advances_trans
    ltac:(first [ apply keeps_states_put_bundle | keeps_states_base ]).
Qed.

(** C5: under [put_bundle], [put_partition], [sync_library] and
    [sync_remotes] without [clean], and [push], the ledger only moves
    forward, for every argument and every outcome of the call: every
    record is still there, row by row, with its key, and no record is in
    an earlier state of the sequence [new], [installed], [pushed] than
    before; rows are added after them.  Under [push] no record changes
    but records in state [new], which become [pushed]. *)
Theorem ledger_states_move_forward (env : Env) (w : World) :
  (∀ b source install_partitions file_state commit force,
     states_advance (files w)
       (files (run (put_bundle env b source install_partitions file_state
                      commit force) w).2))
  ∧ (∀ p source file_state commit,
       states_advance (files w)
         (files (run (put_partition env p source file_state commit) w).2))
  ∧ (∀ tree,
       states_advance (files w) (files (run (sync_library env tree false) w).2))
  ∧ (∀ remotes last_only vids,
       states_advance (files w)
         (files (run (sync_remotes env remotes false last_only vids) w).2))
  ∧ (∀ upstream ref cb dry_run,
       advances (files w) (files (run (push env upstream ref cb dry_run) w).2)).
Proof.
  split; [intros; apply keeps_states_put_bundle|].
  split; [intros; apply keeps_states_put_partition|].
  split; [intros; apply keeps_states_sync_library|].
  split; [intros; apply keeps_states_sync_remotes|].
  intros. apply push_advances.
Qed.

(** A partition recorded as [new] and pushed is in state [pushed]; the
    next [put_partition] for it, as [get] and [sync_library] issue it,
    asks for [installed], and the record stays [pushed]. *)
Example put_partition_keeps_pushed :
  let env := Demo.resolving_partition in
  let p := Demo.partition_at "a-0.0.1/part.db" in
  let w1 := (run (put_partition env p None "new" true) Demo.empty).2 in
  let w2 := (run (push env (Some "up") (Some "a-0.0.1/part.db") false false) w1).2 in
  let w3 := (run (put_partition env p None "installed" true) w2).2 in
  f_state <$> files w1 = ["new"]
  ∧ f_state <$> files w2 = ["pushed"]
  ∧ f_state <$> files w3 = ["pushed"].
Proof. vm_compute. repeat split. Qed.

(** ** [push] leaves the catalog and the cache alone *)

Lemma push_frame_refl (w : World) : push_frame w w.
Proof. repeat split; reflexivity. Qed.

Lemma push_frame_trans (w1 w2 w3 : World) :
  push_frame w1 w2 → push_frame w2 w3 → push_frame w1 w3.
Proof.
  intros (Hd & Hc & Hu & Hl) (Hd' & Hc' & Hu' & Hl').
  split; [exact (eq_trans Hd' Hd)|]. split; [exact (eq_trans Hc' Hc)|].
  split; [exact (transitivity Hu Hu') | exact (eq_trans Hl' Hl)].
Qed.

Lemma keeps_push_emit (e : event) : keeps push_frame (emit e).
Proof. intros w. rewrite run_emit. repeat split; reflexivity. Qed.

Lemma keeps_push_ticks (n : nat) : keeps push_frame (modify (with_ticks n)).
Proof. intros w. rewrite run_modify. repeat split; reflexivity. Qed.

Lemma keeps_push_upstream (key : string) :
  keeps push_frame (modify (λ w, with_upstream ({[key]} ∪ upstream_keys w) w)).
Proof.
  intros w. rewrite run_modify.
  split; [reflexivity|]. split; [reflexivity|]. split; [cbn; set_solver | reflexivity].
Qed.

Lemma keeps_push_state (i : nat) (s : string) : keeps push_frame (set_file_state i s).
Proof.
  intros w. unfold set_file_state. rewrite run_modify.
  split; [reflexivity|]. split; [reflexivity|]. split; [reflexivity|].
  cbn. apply length_alter.
Qed.

Ltac keeps_push_base :=
  first [ apply keeps_push_emit | apply keeps_push_ticks | apply keeps_push_upstream
        | apply keeps_push_state ].

(** [push], with one reference or with none, dry or not, and whatever
    the upstream does, leaves the datasets of the catalog and the local
    cache as they are, removes no key from the upstream, and neither
    adds nor deletes a ledger row.  This holds also when it raises. *)
Theorem push_leaves_catalog_and_cache (env : Env) (upstream ref : option string)
    (cb dry_run : bool) (w : World) :
  let w' := (run (push env upstream ref cb dry_run) w).2 in
  datasets w' = datasets w
  ∧ cache w' = cache w
  ∧ upstream_keys w ⊆ upstream_keys w'
  ∧ List.length (files w') = List.length (files w).
Proof.
  revert w. change (keeps push_frame (push env upstream ref cb dry_run)).
  assert (Href : ∀ up r, keeps push_frame (push_ref env up r cb dry_run)).
  { intros up r. unfold push_ref, Files.one, upstream_has, call_back, clock,
      upstream_put_file, merge_and_commit, database_commit.
    keeps_with push_frame_refl push_frame_trans keeps_push_base. }
  unfold push, new_files, Files.all, store_list.
  keeps_with push_frame_refl push_frame_trans
    ltac:(first [ apply Href | keeps_push_base ]).
Qed.

(** ** [resolve] *)

Lemma resolve_frame (env : Env) (ref : reference)
    (location : option (list file_type)) (w : World) :
  (run (resolve env ref location) w).2 = w.
Proof.
  unfold resolve. unfold_m.
  destruct (resolve_ref_one env _ _) as [[i|]|e]; cbn.
  - destruct (source_path env) as [sp|]; [|reflexivity].
    destruct (sp i) as [p|e]; cbn; [reflexivity|]. case_decide; reflexivity.
  - reflexivity.
  - case_decide; reflexivity.
Qed.

(** [resolve] reads and never writes: the world is the same after it,
    whatever it returns or raises.  A [NotObjectNumberError] of the
    resolver is not raised but reported as [None].  An identity that
    [resolve] returns is the one the resolver has found, with at most
    its [bundle_path] set from the source directory. *)
Theorem resolve_reads_only (env : Env) (ref : reference)
    (location : option (list file_type)) (w : World) :
  let s := match ref with RefString s => s | RefIdentity i => vid (dataset i) end in
  let found := resolve_ref_one env s (Some (default default_location location)) in
  (run (resolve env ref location) w).2 = w
  ∧ (found = Raise NotObjectNumberError →
     (run (resolve env ref location) w).1 = Ok None)
  ∧ (∀ i', (run (resolve env ref location) w).1 = Ok (Some i') →
     ∃ i, found = Ok (Some i) ∧ dataset i' = dataset i
          ∧ partition i' = partition i ∧ is_bundle i' = is_bundle i).
Proof.
  intros s found. unfold resolve. fold s. fold found. unfold_m.
  destruct found as [[i|]|e]; cbn.
  - destruct (source_path env) as [sp|]; cbn.
    + destruct (sp i) as [p|e]; cbn.
      * split; [reflexivity|]. split; [discriminate|].
        intros i' [= <-]. exists i. auto.
      * case_decide; cbn; (split; [reflexivity|]); (split; [discriminate|]).
        -- intros i' [= <-]. exists i. auto.
        -- discriminate.
    + split; [reflexivity|]. split; [discriminate|].
      intros i' [= <-]. exists i. auto.
  - split; [reflexivity|]. split; [reflexivity|]. discriminate.
  - case_decide; cbn; (split; [reflexivity|]); (split; [|discriminate]).
    + reflexivity.
    + intros [= ->]. contradiction.
Qed.

(** ** [put_partition] and [put_bundle], step by step *)

(** The row that [put_partition] records. *)
Lemma put_partition_run (env : Env) (p : Partition) (source : option string)
    (file_state : string) (commit : bool) (w : World) :
  let key := cache_key (p_identity p) in
  let row := {| f_ref := vid (p_identity p); f_type := PARTITION;
                f_source_url := default (repo_id env) source;
                f_state := file_state; f_path := key |} in
  let copies := negb (bool_decide (key ∈ cache w))
                && path_exists env (p_database_path p) in
  run (put_partition env p source file_state commit) w =
  (Ok (cache_path env key, InstalledAs (Files.recorded_as row (files w))),
   {| files := Files.record row (files w);
      datasets := datasets w;
      cache := if copies then {[key]} ∪ cache w else cache w;
      upstream_keys := upstream_keys w;
      ticks := ticks w;
      trace := trace w ++ (if commit then [DbCommit] else [])
               ++ (if copies then [CachePut (p_database_path p) key] else []) |}).
Proof.
  intros key row copies. subst copies.
  unfold put_partition, install_partition_file, Files.new_file, cache_has, cache_put.
  fold key. fold row.
  run_steps. destruct commit; run_steps;
    destruct (negb (bool_decide _) && path_exists env (p_database_path p));
    run_steps; rewrite ?app_nil_r, <- ?app_assoc; reflexivity.
Qed.

Lemma filter_record_other (P : File → Prop) `{∀ f, Decision (P f)}
    (f : File) (l : list File) :
  ¬ P f → (∀ g, Files.same_key g f → ¬ P g) →
  filter P (Files.record f l) = filter P l.
Proof.
  intros Hf Hk. induction l as [|g l IH]; cbn [Files.record].
  - rewrite filter_cons_False by exact Hf. reflexivity.
  - destruct (decide (Files.same_key g f)) as [Hs|Hs].
    + rewrite !filter_cons_False; [reflexivity | exact (Hk g Hs) |].
      apply Hk. destruct (enter_fields f g) as (H1 & H2 & H3 & _).
      split; [exact H1 | split; [exact H2 | exact H3]].
    + rewrite !filter_cons, IH. reflexivity.
Qed.

Lemma filter_record_new (P : File → Prop) `{∀ f, Decision (P f)}
    (f : File) (l : list File) :
  P f → (∀ g, Files.same_key g f → P g) → filter P l = [] →
  filter P (Files.record f l) = [f].
Proof.
  intros Hf Hk Hl. induction l as [|g l IH]; cbn [Files.record].
  - rewrite filter_cons_True by exact Hf. reflexivity.
  - rewrite filter_cons in Hl. destruct (decide (P g)) as [Hg|Hg]; [discriminate|].
    destruct (decide (Files.same_key g f)) as [Hs|Hs]; [exfalso; exact (Hg (Hk g Hs))|].
    rewrite filter_cons_False by exact Hg. apply IH, Hl.
Qed.

(** The loop of [put_bundle] over the partitions returns, records rows
    of type partition only, and removes nothing from the cache. *)
Lemma put_partitions_loop (env : Env) (source file_state : string) (commit : bool)
    (P : File → Prop) `{∀ f, Decision (P f)} (ps : list Partition) (w : World) :
  (∀ f, P f → f_type f ≠ PARTITION) →
  ∃ w', run (for_each ps (λ p, put_partition env p (Some source) file_state commit
                               ;; mret tt)) w = (Ok tt, w')
    ∧ filter P (files w') = filter P (files w)
    ∧ cache w ⊆ cache w'
    ∧ datasets w' = datasets w.
Proof.
  intros HP. revert w. induction ps as [|p ps IH]; intros w.
  - exists w. repeat split; reflexivity.
  - cbn [for_each]. rewrite run_bind, run_bind, put_partition_run.
    cbv beta iota. rewrite run_ret. cbv beta iota.
    match goal with |- context [run (for_each ps _) ?w1] =>
      destruct (IH w1) as (w' & Hrun & Hf & Hc & Hd) end.
    exists w'. split; [exact Hrun|]. cbn [files cache datasets] in *.
    split; [|split; [|exact Hd]].
    + rewrite Hf. apply filter_record_other.
      * intros HPf. exact (HP _ HPf eq_refl).
      * intros g (_ & Ht & _) HPg. exact (HP g HPg Ht).
    + etrans; [|exact Hc]. destruct (_ && _); set_solver.
Qed.

Lemma unrecorded_filter (v : string) (l : list File) :
  unrecorded v l → filter (λ f, f_ref f = v ∧ f_type f = BUNDLE) l = [].
Proof. intros H. apply filter_none. exact H. Qed.

Lemma already_installed_fresh (env : Env) (b : Bundle) (i : Identity)
    (force : bool) (w : World) :
  b_identity b = Ok i →
  force = true ∨ unrecorded (vid (dataset i)) (files w) →
  run (already_installed b force) w = (Ok false, w).
Proof.
  intros Hi Hg. unfold already_installed.
  destruct force; [reflexivity|]. destruct Hg as [Hg|Hg]; [discriminate|].
  rewrite Hi. rewrite run_bind, run_lift. cbv beta iota.
  rewrite run_bind, (one_maybe_none _ w (unrecorded_filter _ _ Hg)).
  reflexivity.
Qed.

(** ** [put_bundle] when the catalog refuses the bundle *)

Lemma put_bundle_refused (env : Env) (b : Bundle)
    (source : option string) (install_partitions : bool) (file_state : string)
    (commit force : bool) (i : Identity) (e : exn) (w : World) :
  b_identity b = Ok i →
  install_bundle env b = Some e →
  force = true ∨ unrecorded (vid (dataset i)) (files w) →
  run (put_bundle env b source install_partitions file_state commit force) w
  = (Raise e, w).
Proof.
  intros Hi He Hg. unfold put_bundle.
  rewrite (run_bind_ok _ _ _ _ _ (already_installed_fresh env b i force w Hi Hg)).
  cbv beta iota. unfold database_install_bundle. rewrite He. reflexivity.
Qed.

(** When [database.install_bundle] raises, [put_bundle] raises the same
    exception and has written nothing: no ledger row, no file in the
    cache, no entry in the search index, no [mark_updated].  The
    precondition says that the call reaches the catalog: [force] is set,
    or the ledger has no bundle row for the vid. *)
Theorem put_bundle_refused_writes_nothing (env : Env) (b : Bundle)
    (source : option string) (install_partitions : bool) (file_state : string)
    (commit force : bool) (i : Identity) (e : exn) (w : World) :
  b_identity b = Ok i →
  install_bundle env b = Some e →
  force = true ∨ unrecorded (vid (dataset i)) (files w) →
  run (put_bundle env b source install_partitions file_state commit force) w
  = (Raise e, w).
Proof.
  exact (put_bundle_refused env b source install_partitions file_state commit force
           i e w).
Qed.

Lemma put_bundle_refused_writes_nothing_witness :
  run (put_bundle (Demo.refusing "a-0.0.1.db" ConflictError [])
         (Demo.bundle_at "a-0.0.1.db") None true "installed" true false)
      Demo.empty
  = (Raise ConflictError, Demo.empty).
Proof.
  refine (put_bundle_refused_writes_nothing
            (Demo.refusing "a-0.0.1.db" ConflictError [])
            (Demo.bundle_at "a-0.0.1.db") None true "installed" true false
            (Demo.identity_of "a-0.0.1.db") ConflictError Demo.empty
            eq_refl eq_refl _).
  right. constructor.
Defined.

(** ** [put_bundle] twice *)

(** The first [put_bundle] of a bundle that the ledger does not
    record. *)
Lemma put_bundle_installs (env : Env) (b : Bundle) (source : option string)
    (install_partitions : bool) (file_state : string) (commit : bool)
    (i : Identity) (w : World) :
  b_identity b = Ok i →
  install_bundle env b = None →
  unrecorded (vid (dataset i)) (files w) →
  let path := cache_path env (cache_key (dataset i)) in
  let row := {| f_ref := vid (dataset i); f_type := BUNDLE;
                f_source_url := default (repo_id env) source;
                f_state := file_state; f_path := cache_key (dataset i) |} in
  ∃ w1,
    run (put_bundle env b source install_partitions file_state commit false) w
    = (Ok (path, InstalledAs row), w1)
    ∧ cache_key (dataset i) ∈ cache w1
    ∧ filter (λ f, f_ref f = vid (dataset i) ∧ f_type f = BUNDLE) (files w1) = [row].
Proof.
  intros Hi He Hu path row.
  set (P := λ f : File, f_ref f = vid (dataset i) ∧ f_type f = BUNDLE).
  unfold put_bundle.
  rewrite (run_bind_ok _ _ _ _ _
             (already_installed_fresh env b i false w Hi (or_intror Hu))).
  cbv beta iota.
  unfold database_install_bundle, install_bundle_file. rewrite He, Hi.
  run_steps. fold row. rewrite new_file_run. run_steps.
  assert (Hfresh : Forall (λ g, ¬ Files.same_key g row) (files w)).
  { eapply Forall_impl; [exact Hu|].
    intros g Hg [Hr [Ht _]]. apply Hg. split; [exact Hr|exact Ht]. }
  rewrite (recorded_as_fresh row (files w) Hfresh).
  assert (Hrec : filter P (Files.record row (files w)) = [row]).
  { apply filter_record_new; [split; reflexivity | | apply unrecorded_filter, Hu].
    intros g (Hr & Ht & _). split; [exact Hr | exact Ht]. }
  assert (HP : ∀ f, P f → f_type f ≠ PARTITION).
  { intros f [_ Ht]. rewrite Ht. discriminate. }
  assert (Hloop : ∀ w0 : World, filter P (files w0) = [row] →
    ∃ w', run (if install_partitions
               then for_each (b_partitions b)
                      (λ p, put_partition env p (Some (default (repo_id env) source))
                              file_state commit ;; mret tt)
               else mret tt) w0 = (Ok tt, w')
      ∧ filter P (files w') = [row] ∧ cache w0 ⊆ cache w').
  { intros w0 Hw0. destruct install_partitions.
    - destruct (put_partitions_loop env (default (repo_id env) source) file_state
                  commit P (b_partitions b) w0 HP) as (w' & Hrun & Hf & Hc & _).
      exists w'. rewrite Hf. auto.
    - exists w0. auto. }
  match goal with |- context [run (if install_partitions then _ else _) ?w0] =>
    destruct (Hloop w0 Hrec) as (w' & Hrun & Hf & Hc) end.
  rewrite Hrun. clear Hrun. cbv beta iota.
  unfold cache_has, cache_put, mark_updated.
  run_steps.
  destruct (bool_decide (cache_key (dataset i) ∈ cache w')) eqn:Hhas;
    [apply bool_decide_eq_true in Hhas|];
    (destruct (has_doc_cache env); run_steps;
     rewrite ?for_each_emit; run_steps;
     (eexists; split; [reflexivity|]; cbn [files cache];
      split; [first [exact Hhas | set_solver]|]; exact Hf)).
Qed.

(** A first [put_bundle] of a bundle that the ledger does not record
    installs it: it returns the row it has written, a bundle row for the
    vid in the state asked for; after the call the local cache holds the
    bundle's key and the ledger has this row and no other bundle row for
    the vid.  From then on [put_bundle] without [force] returns
    [(path, False)] and changes nothing, whatever its other arguments. *)
Theorem put_bundle_then_again (env : Env) (b : Bundle) (source : option string)
    (install_partitions : bool) (file_state : string) (commit : bool)
    (i : Identity) (w : World) :
  b_identity b = Ok i →
  install_bundle env b = None →
  unrecorded (vid (dataset i)) (files w) →
  let path := cache_path env (cache_key (dataset i)) in
  let row := {| f_ref := vid (dataset i); f_type := BUNDLE;
                f_source_url := default (repo_id env) source;
                f_state := file_state; f_path := cache_key (dataset i) |} in
  ∃ w1,
    run (put_bundle env b source install_partitions file_state commit false) w
    = (Ok (path, InstalledAs row), w1)
    ∧ cache_key (dataset i) ∈ cache w1
    ∧ filter (λ f, f_ref f = vid (dataset i) ∧ f_type f = BUNDLE) (files w1) = [row]
    ∧ ∀ source' install_partitions' file_state' commit',
        run (put_bundle env b source' install_partitions' file_state' commit' false) w1
        = (Ok (path, NotInstalled), w1).
Proof.
  intros Hi He Hu path row.
  destruct (put_bundle_installs env b source install_partitions file_state commit
              i w Hi He Hu) as (w1 & H1 & H2 & H3).
  exists w1. split; [exact H1|]. split; [exact H2|]. split; [exact H3|].
  intros source' ip' fs' commit'. unfold put_bundle.
  rewrite (run_bind_ok _ _ _ _ _ (already_installed_single env b i row w1 Hi H3)).
  rewrite Hi. reflexivity.
Qed.

Lemma put_bundle_then_again_witness :
  ∃ w1,
    run (put_bundle (Demo.plain []) (Demo.bundle_at "a-0.0.1.db") None true "new"
           true false) Demo.empty
    = (Ok ("/cache/a-0.0.1.db", InstalledAs (Demo.row "a-0.0.1.db" BUNDLE "new")), w1)
    ∧ "a-0.0.1.db" ∈ cache w1
    ∧ filter (λ f, f_ref f = "vid:a-0.0.1.db" ∧ f_type f = BUNDLE) (files w1)
      = [Demo.row "a-0.0.1.db" BUNDLE "new"]
    ∧ ∀ source' install_partitions' file_state' commit',
        run (put_bundle (Demo.plain []) (Demo.bundle_at "a-0.0.1.db") source'
               install_partitions' file_state' commit' false) w1
        = (Ok ("/cache/a-0.0.1.db", NotInstalled), w1).
Proof.
  exact (put_bundle_then_again (Demo.plain []) (Demo.bundle_at "a-0.0.1.db")
           None true "new" true (Demo.identity_of "a-0.0.1.db") Demo.empty
           eq_refl eq_refl (Forall_nil_2 _)).
Defined.

(** ** [push] that uploads *)

(** When the single record of the reference is in state [new] and the
    upstream does not have its key, [push] without [dry_run] uploads the
    file once: the upstream holds the key afterwards, the record is
    [pushed], merged and committed, the answer is [pushed] with the two
    readings of the clock, and the callback, when given, is called before
    and after the upload with the elapsed time. *)
Theorem push_uploads_then_marks (env : Env) (up ref : string) (cb : bool)
    (dsid : Identity) (f : File) (w : World) :
  let identity := push_identity dsid in
  let md := to_meta env identity (f_path f) in
  let t0 := clock_reading env (ticks w) in
  let t1 := clock_reading env (S (ticks w)) in
  resolve_ref_one env ref None = Ok (Some dsid) →
  filter (is_new_for (vid identity)) (files w) = [f] →
  cache_key identity ∉ upstream_keys w →
  upstream_put env (f_path f) (cache_key identity) = None →
  ∃ n, files w !! n = Some f ∧
  run (push env (Some up) (Some ref) cb false) w =
  (Ok (Some ("pushed", Some t0, Some t1, md !! "size")),
   {| files := <[n := set_state "pushed" f]> (files w);
      datasets := datasets w;
      cache := cache w;
      upstream_keys := {[cache_key identity]} ∪ upstream_keys w;
      ticks := S (S (ticks w));
      trace := trace w ++ [UpstreamHas (cache_key identity)]
               ++ (if cb then [Callback ("Pushing to " ++ up) md t0] else [])
               ++ [UpstreamPut (f_path f) (cache_key identity)]
               ++ (if cb then [Callback "Pushed" md (t1 - t0)%Z] else [])
               ++ [SessionMerge (set_state "pushed" f); DbCommit] |}).
Proof.
  intros identity md t0 t1 Hr Hf Hup Hput.
  destruct (push_ref_found env up ref cb false dsid f w Hr Hf) as (n & Hn & Hrun).
  exists n. split; [exact Hn|]. unfold push. rewrite run_bind, Hrun. clear Hrun.
  fold identity. fold md. cbv zeta.
  unfold upstream_has, call_back, clock, upstream_put_file, set_file_state,
    merge_and_commit, database_commit.
  rewrite Hput. run_steps.
  rewrite (bool_decide_eq_false_2 _ Hup).
  destruct cb; run_steps;
    rewrite list_lookup_alter_eq, Hn; cbn [fmap option_fmap option_map]; run_steps;
    rewrite (alter_as_insert _ _ _ _ Hn);
    rewrite <- ?app_assoc; reflexivity.
Qed.

Lemma push_uploads_then_marks_witness :
  ∃ n, files (Demo.holding "a-0.0.1.db" "new" ∅) !! n
       = Some (Demo.row "a-0.0.1.db" BUNDLE "new") ∧
  run (push Demo.resolving (Some "up") (Some "a-0.0.1.db") true false)
      (Demo.holding "a-0.0.1.db" "new" ∅) =
  (Ok (Some ("pushed", Some 0%Z, Some 1%Z, Some "10")),
   {| files := <[n := Demo.row "a-0.0.1.db" BUNDLE "pushed"]>
                 [Demo.row "a-0.0.1.db" BUNDLE "new"];
      datasets := ["vid:a-0.0.1.db"];
      cache := {[ "a-0.0.1.db" ]};
      upstream_keys := {[ "a-0.0.1.db" ]} ∪ ∅;
      ticks := 2;
      trace := [] ++ [UpstreamHas "a-0.0.1.db"]
               ++ [Callback "Pushing to up" {[ "size" := "10" ]} 0]
               ++ [UpstreamPut "a-0.0.1.db" "a-0.0.1.db"]
               ++ [Callback "Pushed" {[ "size" := "10" ]} (1 - 0)%Z]
               ++ [SessionMerge (Demo.row "a-0.0.1.db" BUNDLE "pushed"); DbCommit] |}).
Proof.
  refine (push_uploads_then_marks Demo.resolving "up" "a-0.0.1.db" true
            (Demo.identity_of "a-0.0.1.db") (Demo.row "a-0.0.1.db" BUNDLE "new")
            (Demo.holding "a-0.0.1.db" "new" ∅) eq_refl eq_refl _ eq_refl).
  cbn. set_solver.
Defined.

(** ** [push] that fails *)

Lemma positions_length (P : File → Prop) `{∀ f, Decision (P f)}
    (l : list File) (k : nat) :
  List.length (Files.positions P k l) = List.length (filter P l).
Proof. exact (Forall2_length _ _ _ (positions_filter P l k)). Qed.

Lemma one_many (P : File → Prop) `{∀ f, Decision (P f)} (w : World) :
  (2 ≤ List.length (filter P (files w)))%nat →
  run (Files.one P) w = (Raise MultipleResultsFound, w).
Proof.
  intros Hl. rewrite <- (positions_length P (files w) 0) in Hl.
  unfold Files.one. rewrite run_bind, run_get_world. cbv beta iota.
  destruct (Files.positions P 0 (files w)) as [|i [|j l]]; cbn in Hl; try lia.
  reflexivity.
Qed.

(** When the upload fails, [push] raises what [upstream.put] has raised
    and the record stays in state [new]: nothing is merged or committed,
    the upstream holds no new key and the callback is not told of a
    push.  A later [push] finds the record again. *)
Theorem push_failed_upload_keeps_new (env : Env) (up ref : string) (cb : bool)
    (dsid : Identity) (f : File) (e : exn) (w : World) :
  let identity := push_identity dsid in
  let md := to_meta env identity (f_path f) in
  let t0 := clock_reading env (ticks w) in
  resolve_ref_one env ref None = Ok (Some dsid) →
  filter (is_new_for (vid identity)) (files w) = [f] →
  cache_key identity ∉ upstream_keys w →
  upstream_put env (f_path f) (cache_key identity) = Some e →
  run (push env (Some up) (Some ref) cb false) w =
  (Raise e,
   {| files := files w;
      datasets := datasets w;
      cache := cache w;
      upstream_keys := upstream_keys w;
      ticks := S (ticks w);
      trace := trace w ++ [UpstreamHas (cache_key identity)]
               ++ (if cb then [Callback ("Pushing to " ++ up) md t0] else [])
               ++ [UpstreamPut (f_path f) (cache_key identity)] |}).
Proof.
  intros identity md t0 Hr Hf Hup Hput.
  destruct (push_ref_found env up ref cb false dsid f w Hr Hf) as (n & Hn & Hrun).
  unfold push. rewrite run_bind, Hrun. clear Hrun.
  fold identity. fold md. cbv zeta.
  unfold upstream_has, call_back, clock, upstream_put_file, set_file_state,
    merge_and_commit, database_commit.
  rewrite Hput. run_steps.
  rewrite (bool_decide_eq_false_2 _ Hup).
  destruct cb; run_steps; rewrite <- ?app_assoc; reflexivity.
Qed.

Lemma push_failed_upload_keeps_new_witness :
  run (push (Cases.by_vid "c" S3ResponseError) (Some "up") (Some "c") true false)
      Cases.three =
  (Raise S3ResponseError,
   {| files := files Cases.three;
      datasets := ["a"; "b"];
      cache := {[ "a"; "b"; "c" ]};
      upstream_keys := {[ "a" ]};
      ticks := 1;
      trace := [] ++ [UpstreamHas "c"]
               ++ [Callback "Pushing to up" ∅ 0]
               ++ [UpstreamPut "c" "c"] |}).
Proof.
  refine (push_failed_upload_keeps_new (Cases.by_vid "c" S3ResponseError) "up" "c" true
            {| dataset := {| vid := "c"; vname := "c"; cache_key := "c" |};
               is_bundle := true; partition := None; bundle_path := None |}
            (Cases.row "c" PARTITION "new") S3ResponseError Cases.three
            eq_refl eq_refl _ eq_refl).
  cbn. set_solver.
Defined.

(** [push] on a reference needs exactly one installed record in state
    [new] for it.  With none, or with several, the failure of the query
    is logged and raised ([NoResultFound], [MultipleResultsFound]), the
    upstream is not asked anything, and nothing but the log is changed:
    pushing a reference a second time fails. *)
Theorem push_needs_one_new_record (env : Env) (up : string) (ref : string)
    (cb dry_run : bool) (dsid : Identity) (w : World) :
  let v := vid (push_identity dsid) in
  let found := filter (is_new_for v) (files w) in
  let e := if decide (found = []) then NoResultFound else MultipleResultsFound in
  resolve_ref_one env ref None = Ok (Some dsid) →
  List.length found ≠ 1%nat →
  run (push env (Some up) (Some ref) cb dry_run) w
  = (Raise e, with_trace (trace w ++ [LogError (FailedFor v e)]) w).
Proof.
  intros v found e Hr Hl. unfold push, push_ref. rewrite Hr. fold v.
  rewrite run_bind, run_bind, run_lift. cbv beta iota.
  rewrite run_bind, run_try_except.
  assert (Hone : run (Files.one (is_new_for v)) w = (Raise e, w)).
  { subst e. fold found. destruct (decide (found = [])) as [H0|H0].
    - apply one_none. exact H0.
    - apply one_many. fold found. destruct found as [|x [|y l]]; cbn in *; try lia.
      congruence. }
  fold v. rewrite Hone. cbv beta iota. run_steps. reflexivity.
Qed.

Lemma push_needs_one_new_record_witness :
  run (push (Cases.by_vid "c" S3ResponseError) (Some "up") (Some "b") true false)
      Cases.three
  = (Raise NoResultFound,
     with_trace (trace Cases.three ++ [LogError (FailedFor "b" NoResultFound)])
       Cases.three).
Proof.
  refine (push_needs_one_new_record (Cases.by_vid "c" S3ResponseError) "up" "b"
            true false
            {| dataset := {| vid := "b"; vname := "b"; cache_key := "b" |};
               is_bundle := true; partition := None; bundle_path := None |}
            Cases.three eq_refl _).
  vm_compute. discriminate.
Defined.

(** ** [push] over every new record *)

Lemma mark_none (P : File → Prop) `{∀ f, Decision (P f)} (h : File → File)
    (l : list File) :
  filter P l = [] → (λ g, if decide (P g) then h g else g) <$> l = l.
Proof.
  induction l as [|g l IH]; [reflexivity|].
  rewrite filter_cons. destruct (decide (P g)) as [Hg|Hg]; [discriminate|].
  intros Hl. cbn [fmap list_fmap]. rewrite decide_False by exact Hg.
  f_equal. apply IH, Hl.
Qed.

Lemma insert_as_mark (P : File → Prop) `{∀ f, Decision (P f)} (h : File → File)
    (l : list File) (n : nat) (f : File) :
  filter P l = [f] → l !! n = Some f →
  <[n := h f]> l = (λ g, if decide (P g) then h g else g) <$> l.
Proof.
  intros Hfil. assert (HPf : P f).
  { assert (Hin : f ∈ filter P l) by (rewrite Hfil; left).
    apply list_elem_of_filter in Hin as [HP _]. exact HP. }
  revert n Hfil. induction l as [|g l IH]; intros n Hfil Hn; [discriminate|].
  rewrite filter_cons in Hfil. cbn [fmap list_fmap].
  destruct (decide (P g)) as [Hg|Hg].
  - injection Hfil as -> Hnil. destruct n as [|n].
    + cbn. f_equal. symmetry. apply mark_none, Hnil.
    + cbn in Hn. apply list_elem_of_lookup_2 in Hn.
      assert (Hin : f ∈ filter P l) by (apply list_elem_of_filter; auto).
      rewrite Hnil in Hin. inversion Hin.
  - destruct n as [|n]; cbn in Hn.
    + injection Hn as ->. contradiction.
    + cbn. f_equal. apply IH; assumption.
Qed.

(** [push] on one reference, without [dry_run], with an upstream that
    takes the upload when one is needed. *)
Lemma push_ref_marks (env : Env) (up ref : string) (cb : bool)
    (dsid : Identity) (f : File) (w : World) :
  let identity := push_identity dsid in
  resolve_ref_one env ref None = Ok (Some dsid) →
  filter (is_new_for (vid identity)) (files w) = [f] →
  upstream_put env (f_path f) (cache_key identity) = None →
  ∃ x w', run (push_ref env (Some up) ref cb false) w = (Ok x, w')
    ∧ files w' = mark_pushed (vid identity) (files w)
    ∧ upstream_keys w' = {[cache_key identity]} ∪ upstream_keys w.
Proof.
  intros identity Hr Hf Hput.
  destruct (push_ref_found env up ref cb false dsid f w Hr Hf) as (n & Hn & Hrun).
  rewrite Hrun. clear Hrun. fold identity. cbv zeta.
  unfold upstream_has, call_back, clock, upstream_put_file, set_file_state,
    merge_and_commit, database_commit.
  rewrite Hput. run_steps.
  assert (Hmark : alter (set_state "pushed") n (files w)
                  = mark_pushed (vid identity) (files w)).
  { rewrite (alter_as_insert _ _ _ _ Hn). apply insert_as_mark; assumption. }
  destruct (bool_decide (cache_key identity ∈ upstream_keys w)) eqn:Hhas.
  - apply bool_decide_eq_true in Hhas.
    destruct cb; run_steps;
      rewrite list_lookup_alter_eq, Hn; cbn [fmap option_fmap option_map]; run_steps;
      (eexists _, _; split; [reflexivity|]; cbn [files upstream_keys];
       split; [exact Hmark|]; symmetry; apply subseteq_union_1_L;
       apply singleton_subseteq_l; exact Hhas).
  - destruct cb; run_steps;
      rewrite list_lookup_alter_eq, Hn; cbn [fmap option_fmap option_map]; run_steps;
      (eexists _, _; split; [reflexivity|]; cbn [files upstream_keys];
       split; [exact Hmark | reflexivity]).
Qed.

Lemma filter_mark_pushed_other (r r' : string) (l : list File) :
  r ≠ r' →
  filter (is_new_for r') (mark_pushed r l) = filter (is_new_for r') l.
Proof.
  intros Hne. unfold mark_pushed. induction l as [|g l IH]; [reflexivity|].
  cbn [fmap list_fmap]. rewrite !filter_cons, IH.
  destruct (decide (is_new_for r g)) as [(Hi & Hr & Hs)|Hg]; [|reflexivity].
  rewrite !decide_False; [reflexivity | |].
  - intros (_ & Hr' & _). congruence.
  - intros (_ & Hr' & _). cbn in Hr'. congruence.
Qed.

Lemma push_loop (env : Env) (up : string) (cb : bool) (rs : list string) (w : World) :
  NoDup rs →
  (∀ r, r ∈ rs → ∃ dsid f,
      resolve_ref_one env r None = Ok (Some dsid)
      ∧ vid (push_identity dsid) = r
      ∧ filter (is_new_for r) (files w) = [f]
      ∧ upstream_put env (f_path f) (cache_key (push_identity dsid)) = None) →
  ∃ w', run (for_each rs (λ r, push_ref env (Some up) r cb false ;; mret tt)) w
        = (Ok tt, w')
    ∧ files w' = foldl (λ l r, mark_pushed r l) (files w) rs
    ∧ upstream_keys w ⊆ upstream_keys w'
    ∧ ∀ r dsid, r ∈ rs → resolve_ref_one env r None = Ok (Some dsid) →
        cache_key (push_identity dsid) ∈ upstream_keys w'.
Proof.
  revert w. induction rs as [|r rs IH]; intros w Hnd Hall.
  - exists w. split; [reflexivity|]. split; [reflexivity|]. split; [reflexivity|].
    intros r dsid Hin. inversion Hin.
  - apply NoDup_cons in Hnd as [Hr Hnd].
    destruct (Hall r) as (dsid & f & Hres & Hv & Hf & Hput); [left|].
    rewrite <- Hv in Hf.
    destruct (push_ref_marks env up r cb dsid f w Hres Hf Hput)
      as (x & w1 & Hrun & Hfiles & Hup).
    rewrite Hv in Hfiles.
    destruct (IH w1 Hnd) as (w' & Hrun' & Hfiles' & Hup' & Hkeys).
    { intros r' Hr'. destruct (Hall r') as (dsid' & f' & H1 & H2 & H3 & H4); [right; exact Hr'|].
      exists dsid', f'. split; [exact H1|]. split; [exact H2|]. split; [|exact H4].
      rewrite Hfiles, filter_mark_pushed_other; [exact H3|].
      intros ->. contradiction. }
    exists w'. cbn [for_each foldl]. rewrite run_bind, run_bind, Hrun.
    cbv beta iota. rewrite run_ret. cbv beta iota.
    split; [exact Hrun'|]. split; [rewrite Hfiles', Hfiles; reflexivity|].
    split; [etrans; [|exact Hup']; rewrite Hup; apply union_subseteq_r|].
    intros r' dsid' Hin Hres'. apply elem_of_cons in Hin as [->|Hin].
    + rewrite Hres in Hres'. injection Hres' as <-. apply Hup'. rewrite Hup.
      apply elem_of_union_l, elem_of_singleton. reflexivity.
    + exact (Hkeys r' dsid' Hin Hres').
Qed.

Lemma foldl_mark_pushed (rs : list string) (l : list File) :
  foldl (λ l r, mark_pushed r l) l rs
  = (λ g, if decide (Files.installed g ∧ f_state g = "new" ∧ f_ref g ∈ rs)
          then set_state "pushed" g else g) <$> l.
Proof.
  revert l. induction rs as [|r rs IH]; intros l; cbn [foldl].
  - symmetry. etrans; [|apply list_fmap_id]. apply list_fmap_ext.
    intros _ g _. rewrite decide_False; [reflexivity|].
    intros (_ & _ & Hin). inversion Hin.
  - rewrite IH. unfold mark_pushed. rewrite <- list_fmap_compose.
    apply list_fmap_ext. intros _ g _. cbn.
    destruct (decide (is_new_for r g)) as [(Hi & Hr & Hs)|Hg].
    + rewrite decide_False by (intros (_ & Hs' & _); cbn in Hs'; discriminate).
      rewrite decide_True; [reflexivity|]. split; [exact Hi|]. split; [exact Hs|].
      rewrite Hr. left.
    + destruct (decide (Files.installed g ∧ f_state g = "new" ∧ f_ref g ∈ rs))
        as [(Hi & Hs & Hin)|Hn].
      * rewrite decide_True; [reflexivity|]. split; [exact Hi|]. split; [exact Hs|].
        right. exact Hin.
      * rewrite decide_False; [reflexivity|]. intros (Hi & Hs & Hin).
        apply elem_of_cons in Hin as [Heq|Hin]; [|tauto].
        apply Hg. split; [exact Hi|]. split; [exact Heq | exact Hs].
Qed.

Lemma filter_key_singleton (l : list File) (f0 : File) :
  NoDup (f_ref <$> l) → f0 ∈ l →
  filter (λ f, f_ref f = f_ref f0) l = [f0].
Proof.
  induction l as [|g l IH]; intros Hnd Hin; [inversion Hin|].
  cbn [fmap list_fmap] in Hnd. apply NoDup_cons in Hnd as [Hg Hnd].
  rewrite filter_cons. apply elem_of_cons in Hin as [->|Hin].
  - rewrite decide_True by reflexivity. f_equal.
    apply filter_none. apply Forall_forall. intros f Hf Heq.
    apply Hg. rewrite <- Heq. apply list_elem_of_fmap. exists f. auto.
  - rewrite decide_False; [apply IH; assumption|].
    intros Heq. apply Hg. rewrite Heq. apply list_elem_of_fmap. exists f0. auto.
Qed.

(** [push] without a reference pushes every installed record in state
    [new].  When these records have distinct references, each of which
    the resolver maps to the identity of that vid, and the upstream takes
    every upload, [push] returns, every such record is [pushed] and no
    other row has changed, [new_files] is empty afterwards, and the
    upstream holds the key of every record pushed.  An upstream without
    [store_list] (an [AttributeError]) is accepted. *)
Theorem push_all_leaves_nothing_new (env : Env) (up : string) (cb : bool) (w : World) :
  let new := filter (λ f, Files.installed f ∧ f_state f = "new") (files w) in
  NoDup (f_ref <$> new) →
  (∀ f, f ∈ new → ∃ dsid,
      resolve_ref_one env (f_ref f) None = Ok (Some dsid)
      ∧ vid (push_identity dsid) = f_ref f
      ∧ upstream_put env (f_path f) (cache_key (push_identity dsid)) = None) →
  upstream_store_list env = None ∨ upstream_store_list env = Some AttributeError →
  ∃ w', run (push env (Some up) None cb false) w = (Ok None, w')
    ∧ files w' = all_pushed (files w)
    ∧ run new_files w' = (Ok [], w')
    ∧ ∀ f dsid, f ∈ new → resolve_ref_one env (f_ref f) None = Ok (Some dsid) →
        cache_key (push_identity dsid) ∈ upstream_keys w'.
Proof.
  intros new Hnd Hall Hstore.
  assert (Hloop := push_loop env up cb (f_ref <$> new) w Hnd).
  destruct Hloop as (w1 & Hrun & Hfiles & _ & Hkeys).
  { intros r Hr. apply list_elem_of_fmap in Hr as (f & -> & Hf).
    destruct (Hall f Hf) as (dsid & H1 & H2 & H3).
    exists dsid, f. split; [exact H1|]. split; [exact H2|]. split; [|exact H3].
    rewrite <- (filter_key_singleton new f Hnd Hf). subst new.
    rewrite list_filter_filter. apply list_filter_iff.
    intros g. unfold is_new_for. tauto. }
  assert (Hall_pushed : files w1 = all_pushed (files w)).
  { rewrite Hfiles, foldl_mark_pushed. unfold all_pushed.
    apply list_fmap_ext. intros n g Hg.
    destruct (decide (Files.installed g ∧ f_state g = "new")) as [[Hi Hs]|Hn].
    - rewrite decide_True; [reflexivity|]. split; [exact Hi|]. split; [exact Hs|].
      apply list_elem_of_fmap. exists g. split; [reflexivity|].
      apply list_elem_of_filter. split; [auto|]. eapply list_elem_of_lookup_2, Hg.
    - rewrite decide_False; [reflexivity|]. tauto. }
  assert (Hnone : filter (λ f, Files.installed f ∧ f_state f = "new") (files w1) = []).
  { rewrite Hall_pushed. unfold all_pushed. apply filter_none, Forall_forall.
    intros g Hg. apply list_elem_of_fmap in Hg as (g0 & -> & _).
    destruct (decide (Files.installed g0 ∧ f_state g0 = "new")) as [H0|H0];
      [|exact H0]. intros [_ Hs]. cbn in Hs. discriminate. }
  assert (Hend : ∃ w', run (push env (Some up) None cb false) w = (Ok None, w')
                       ∧ files w' = files w1 ∧ upstream_keys w' = upstream_keys w1).
  { unfold push, new_files, Files.all. rewrite run_bind, run_bind, run_get_world.
    cbv beta iota. rewrite run_ret. cbv beta iota. fold new.
    rewrite run_bind, Hrun. cbv beta iota. unfold store_list.
    destruct Hstore as [-> | ->]; run_steps; eexists; (split; [reflexivity|]);
      split; reflexivity. }
  destruct Hend as (w' & Hpush & Hf' & Hu').
  exists w'. split; [exact Hpush|]. split; [congruence|]. split.
  - unfold new_files, Files.all. rewrite run_bind, run_get_world. cbv beta iota.
    rewrite Hf', Hnone. reflexivity.
  - intros f dsid Hf Hres. rewrite Hu'. apply (Hkeys (f_ref f) dsid); [|exact Hres].
    apply list_elem_of_fmap. exists f. auto.
Qed.

Lemma push_all_leaves_nothing_new_witness :
  ∃ w', run (push (Cases.by_vid "none" S3ResponseError) (Some "up") None true false)
            Cases.three = (Ok None, w')
    ∧ files w' = all_pushed (files Cases.three)
    ∧ run new_files w' = (Ok [], w')
    ∧ ∀ f dsid,
        f ∈ filter (λ f, Files.installed f ∧ f_state f = "new") (files Cases.three) →
        resolve_ref_one (Cases.by_vid "none" S3ResponseError) (f_ref f) None
        = Ok (Some dsid) →
        cache_key (push_identity dsid) ∈ upstream_keys w'.
Proof.
  refine (push_all_leaves_nothing_new (Cases.by_vid "none" S3ResponseError) "up" true
            Cases.three _ _ (or_intror eq_refl)).
  - refine (bool_decide_unpack _ _). vm_compute. exact I.
  - intros f Hf. eexists. split; [reflexivity|].
    assert (Hp : f_path f = f_ref f).
    { apply list_elem_of_filter in Hf as [_ Hf]. cbn in Hf.
      repeat (apply elem_of_cons in Hf as [->|Hf]; [reflexivity|]). inversion Hf. }
    split; [reflexivity|]. cbn. rewrite bool_decide_eq_false_2; [reflexivity|].
    intros Heq. apply list_elem_of_filter in Hf as [_ Hf]. cbn in Hf.
    repeat (apply elem_of_cons in Hf as [->|Hf]; [discriminate|]). inversion Hf.
Defined.

(** ** [sync_remotes] with [clean], and without remotes *)

Lemma with_files_same (w : World) (l : list File) :
  l = files w → with_files l w = w.
Proof. intros ->. destruct w. reflexivity. Qed.

(** The loop of [sync_remotes] under [clean] deletes the bundle and
    partition rows whose source is one of the remotes. *)
Lemma clean_loop (rs : list (string * Remote)) (w : World) :
  run (for_each rs (λ nr,
         Files.delete (λ f, (f_type f = PARTITION ∨ f_type f = BUNDLE)
                            ∧ f_source_url f = r_repo_id nr.2))) w
  = (Ok tt,
     with_files
       (filter (λ f, ¬ ((f_type f = PARTITION ∨ f_type f = BUNDLE)
                        ∧ f_source_url f ∈ (λ nr : string * Remote, r_repo_id nr.2) <$> rs))
          (files w)) w).
Proof.
  revert w. induction rs as [|nr rs IH]; intros w.
  - cbn [for_each fmap list_fmap]. rewrite run_ret. f_equal. symmetry.
    apply with_files_same.
    induction (files w) as [|f l IHl]; [reflexivity|].
    rewrite filter_cons_True; [f_equal; exact IHl|].
    intros [_ Hin]. inversion Hin.
  - cbn [for_each]. rewrite run_bind. unfold Files.delete at 1. rewrite run_modify.
    cbv beta iota. rewrite IH. f_equal. unfold with_files.
    cbn [files datasets cache upstream_keys ticks trace]. f_equal.
    rewrite list_filter_filter. apply list_filter_iff. intros f.
    cbn [fmap list_fmap]. rewrite elem_of_cons. tauto.
Qed.

(** [sync_remotes] with [clean] needs its argument [remotes]: left out,
    the call raises [AttributeError] at once, from [None.items()], and
    cleans nothing, also in a library that has remotes.  Given remotes,
    [clean] deletes the bundle and partition rows whose source is one of
    them, and no other row, and the pass then runs as without [clean].
    Without [clean] and without any remote, given or of the library,
    [sync_remotes] returns at once: nothing is logged and [mark_updated]
    is not called. *)
Theorem sync_remotes_clean_first (env : Env) (rs : list (string * Remote))
    (last_only : bool) (vids : option (list string)) (w : World) :
  run (sync_remotes env None true last_only vids) w = (Raise AttributeError, w)
  ∧ run (sync_remotes env (Some rs) true last_only vids) w
    = run (sync_remotes env (Some rs) false last_only vids)
        (with_files
           (filter (λ f, ¬ ((f_type f = PARTITION ∨ f_type f = BUNDLE)
                            ∧ f_source_url f
                              ∈ (λ nr : string * Remote, r_repo_id nr.2) <$> rs))
              (files w)) w)
  ∧ (lib_remotes env = [] →
     run (sync_remotes env None false last_only vids) w = (Ok tt, w)
     ∧ run (sync_remotes env (Some []) false last_only vids) w = (Ok tt, w)).
Proof.
  split; [reflexivity|]. split.
  - unfold sync_remotes. rewrite run_bind, clean_loop. cbv beta iota.
    rewrite run_bind, run_ret. reflexivity.
  - intros Hr. unfold sync_remotes. cbn [truthy].
    rewrite Hr. split; reflexivity.
Qed.

(** With [clean], the rows recorded for the remote are deleted and the
    bundle is installed again; the row of another source stays. *)
Example sync_remotes_clean_demo :
  let w := {| files := [remote_row (Demo.r1 []) (Demo.identity_of "old-0.0.1.db");
                        Demo.row "a-0.0.1.db" BUNDLE "installed"];
              datasets := []; cache := ∅; upstream_keys := ∅; ticks := 0; trace := [] |} in
  let w' := (run (sync_remotes (Demo.plain [])
                    (Some [("r1", Demo.r1 ["b-0.0.1.db"])]) true true None) w).2 in
  f_ref <$> files w' = ["vid:a-0.0.1.db"; "vid:b-0.0.1.db"].
Proof. vm_compute. reflexivity. Qed.

(** ** A remote whose listing fails *)

(** When [remote.list()] raises [S3ResponseError], [sync_remotes] logs
    the failure and goes on with the other remotes: the pass is the pass
    over the remaining remotes, started after the log entry. *)
Theorem sync_remotes_skips_failed_listing (env : Env) (name : string)
    (remote : Remote) (rest : list (string * Remote)) (last_only : bool)
    (vids : option (list string)) (w : World) :
  r_list remote = Raise S3ResponseError →
  rest ≠ [] →
  run (sync_remotes env (Some ((name, remote) :: rest)) false last_only vids) w
  = run (sync_remotes env (Some rest) false last_only vids)
        (with_trace (trace w ++ [LogError (FailedToGetList name S3ResponseError)]) w).
Proof.
  intros Hl Hrest. unfold sync_remotes. destruct rest as [|nr rest]; [contradiction|].
  cbn [truthy from_option id]. rewrite !run_bind, !run_ret. cbv beta iota.
  rewrite !run_bind. cbn [fold_m]. rewrite run_bind.
  unfold sync_remote at 1. rewrite Hl.
  rewrite decide_True by reflexivity. rewrite run_bind, run_emit. reflexivity.
Qed.

Lemma sync_remotes_skips_failed_listing_witness :
  run (sync_remotes (Demo.plain []) (Some [("down", {| r_repo_id := "down";
                                                        r_list := Raise S3ResponseError |});
                                           ("r1", Demo.r1 ["a-0.0.1.db"])])
         false true None) Demo.empty
  = run (sync_remotes (Demo.plain []) (Some [("r1", Demo.r1 ["a-0.0.1.db"])])
           false true None)
        (with_trace (trace Demo.empty
                     ++ [LogError (FailedToGetList "down" S3ResponseError)]) Demo.empty).
Proof.
  refine (sync_remotes_skips_failed_listing (Demo.plain []) "down"
            {| r_repo_id := "down"; r_list := Raise S3ResponseError |}
            [("r1", Demo.r1 ["a-0.0.1.db"])] true None Demo.empty eq_refl _).
  discriminate.
Defined.

(** ** The filter [vids] of [sync_remotes] *)

Lemma within_vids_refl (vs : list string) (w : World) : within_vids vs w w.
Proof. split; intros x Hx; left; exact Hx. Qed.

Lemma within_vids_trans (vs : list string) (w1 w2 w3 : World) :
  within_vids vs w1 w2 → within_vids vs w2 w3 → within_vids vs w1 w3.
Proof.
  intros [Hf Hd] [Hf' Hd']. split.
  - intros f H3. destruct (Hf' f H3) as [H2|?]; [exact (Hf f H2) | right; assumption].
  - intros v H3. destruct (Hd' v H3) as [H2|?]; [exact (Hd v H2) | right; assumption].
Qed.

(** A row of the ledger after [f] is recorded was there before, or is
    [f], or is [f] entered on a row of the same key. *)
Lemma record_elem_inv (f g : File) (l : list File) :
  g ∈ Files.record f l →
  g ∈ l ∨ g = f ∨ ∃ h, h ∈ l ∧ Files.same_key h f ∧ g = Files.enter f h.
Proof.
  induction l as [|h l IH]; cbn [Files.record].
  - intros Hg. apply list_elem_of_singleton in Hg. auto.
  - destruct (decide (Files.same_key h f)) as [Hs|Hs]; intros Hg;
      apply elem_of_cons in Hg as [->|Hg].
    + right. right. exists h. split; [left | auto].
    + left. right. exact Hg.
    + left. left.
    + destruct (IH Hg) as [Hl|[->|(h' & Hh' & Hk & ->)]].
      * left. right. exact Hl.
      * auto.
      * right. right. exists h'. split; [right; exact Hh' | auto].
Qed.

Lemma record_elem_ref (f g : File) (l : list File) :
  g ∈ Files.record f l → g ∈ l ∨ f_ref g = f_ref f.
Proof.
  intros Hg. apply record_elem_inv in Hg as [Hl|[->|(h & _ & _ & ->)]]; auto.
  right. exact (proj1 (enter_fields f h)).
Qed.

Lemma within_vids_same (vs : list string) (w w' : World) :
  files w' = files w → datasets w' = datasets w → within_vids vs w w'.
Proof. intros Hf Hd. split; intros x Hx; left; congruence. Qed.

Lemma keeps_vids_emit (vs : list string) (e : event) : keeps (within_vids vs) (emit e).
Proof. intros w. rewrite run_emit. apply within_vids_same; reflexivity. Qed.

Lemma keeps_vids_cache (vs : list string) (f : gset string → gset string) :
  keeps (within_vids vs) (modify (λ w, with_cache (f (cache w)) w)).
Proof. intros w. rewrite run_modify. apply within_vids_same; reflexivity. Qed.

Lemma keeps_vids_delete (vs : list string) (P : File → Prop) `{∀ f, Decision (P f)} :
  keeps (within_vids vs) (Files.delete P).
Proof.
  intros w. unfold Files.delete. rewrite run_modify. split; cbn.
  - intros f Hf. apply list_elem_of_filter in Hf as [_ Hf]. left. exact Hf.
  - intros v Hv. left. exact Hv.
Qed.

Lemma keeps_vids_put_bundle (env : Env) (vs : list string) (b : Bundle) (i : Identity)
    (source : option string) (file_state : string) (commit force : bool) :
  b_identity b = Ok i → vid (dataset i) ∈ vs →
  keeps (within_vids vs) (put_bundle env b source false file_state commit force).
Proof.
  intros Hi Hv.
  assert (Hnew : ∀ f commit, f_ref f = vid (dataset i) →
                             keeps (within_vids vs) (Files.new_file f commit)).
  { intros f c Hf w. rewrite new_file_run. split; cbn.
    - intros g Hg. apply record_elem_ref in Hg as [Hg|Hg]; [left; exact Hg|].
      right. rewrite Hg, Hf. exact Hv.
    - intros v Hin. left. exact Hin. }
  unfold put_bundle, already_installed, Files.one_maybe, Files.one,
    database_install_bundle, install_bundle_file, cache_has,
    cache_put, mark_updated.
  rewrite Hi.
  keeps_with (within_vids_refl vs) (within_vids_trans vs)
    ltac:(first [ apply keeps_vids_emit
                | apply (keeps_vids_cache vs (λ c, {[_]} ∪ c))
                | apply Hnew; reflexivity ]).
  apply keeps_modify. intros w. split; cbn.
  - intros f Hf. left. exact Hf.
  - intros v Hin. apply elem_of_app in Hin as [Hin|Hin]; [left; exact Hin|].
    apply list_elem_of_singleton in Hin as ->. right. exact Hv.
Qed.

Ltac keeps_vids vs :=
  keeps_with (within_vids_refl vs) (within_vids_trans vs)
    ltac:(first [ apply keeps_vids_emit
                | apply (keeps_vids_cache vs (λ c, {[_]} ∪ c))
                | apply keeps_vids_delete
                | eapply keeps_vids_put_bundle; [eassumption | assumption] ]).

Lemma keeps_vids_sync_key (env : Env) (vs : list string) (remote : Remote)
    (all_keys : list string) (use_only : option (list string)) (key : string) :
  vs ≠ [] →
  keeps (within_vids vs) (sync_key env remote all_keys use_only (Some vs) key).
Proof.
  intros Hvs. unfold sync_key.
  destruct (bool_decide (key ∈ all_keys)); [keeps_vids vs|].
  destruct (truthy use_only && negb (member key use_only)); [keeps_vids vs|].
  apply (keeps_bind _ (within_vids_trans vs)); [unfold cache_has; keeps_vids vs|].
  intros has. apply (keeps_bind _ (within_vids_trans vs)); [keeps_vids vs|]. intros _.
  apply (keeps_bind _ (within_vids_trans vs)).
  { unfold fetch, _get_bundle_by_cache_key, arc_get_path. keeps_vids vs. }
  intros [[b|]|]; [|keeps_vids vs..].
  apply (keeps_bind_lift _ (within_vids_refl vs)). intros i Hi.
  destruct (truthy (Some vs) && negb (member (vid (dataset i)) (Some vs))) eqn:Hc.
  { unfold bundle_close. keeps_vids vs. }
  assert (Hv : vid (dataset i) ∈ vs).
  { destruct vs as [|v vs]; [contradiction|]. cbn [truthy andb] in Hc.
    apply negb_false_iff, bool_decide_eq_true in Hc. exact Hc. }
  unfold install_fetched, database_commit, database_close, bundle_close.
  keeps_vids vs.
Qed.

(** With a non-empty [vids], [sync_remotes] installs nothing but bundles
    whose vid is listed: every ledger row and every dataset of the
    catalog after the call was there before or belongs to one of the
    vids.  This holds for every remote and every listing, also when the
    call raises. *)
Theorem sync_remotes_installs_within_vids (env : Env)
    (remotes : option (list (string * Remote))) (clean last_only : bool)
    (vs : list string) (w : World) :
  vs ≠ [] →
  let w' := (run (sync_remotes env remotes clean last_only (Some vs)) w).2 in
  (∀ f, f ∈ files w' → f ∈ files w ∨ f_ref f ∈ vs)
  ∧ (∀ v, v ∈ datasets w' → v ∈ datasets w ∨ v ∈ vs).
Proof.
  intros Hvs. revert w.
  change (keeps (within_vids vs) (sync_remotes env remotes clean last_only (Some vs))).
  assert (Hremote : ∀ v nr,
            keeps (within_vids vs) (sync_remote env last_only (Some vs) v nr)).
  { intros v nr. unfold sync_remote, compute_use_only, scan_key, Files.all.
    keeps_with (within_vids_refl vs) (within_vids_trans vs)
      ltac:(first [ apply keeps_vids_sync_key; assumption | apply keeps_vids_emit ]). }
  unfold sync_remotes, mark_updated.
  keeps_with (within_vids_refl vs) (within_vids_trans vs)
    ltac:(first [ apply Hremote | apply keeps_vids_emit | apply keeps_vids_delete ]).
Qed.

Lemma sync_remotes_installs_within_vids_witness :
  let w' := (run (sync_remotes (Demo.plain []) (Some [("r1", Demo.r1 ["a-0.0.1.db"; "b-0.0.1.db"])])
                    false false (Some ["vid:b-0.0.1.db"])) Demo.empty).2 in
  (∀ f, f ∈ files w' → f ∈ files Demo.empty ∨ f_ref f ∈ ["vid:b-0.0.1.db"])
  ∧ (∀ v, v ∈ datasets w' → v ∈ datasets Demo.empty ∨ v ∈ ["vid:b-0.0.1.db"]).
Proof.
  refine (sync_remotes_installs_within_vids (Demo.plain [])
            (Some [("r1", Demo.r1 ["a-0.0.1.db"; "b-0.0.1.db"])])
            false false ["vid:b-0.0.1.db"] Demo.empty _).
  discriminate.
Defined.

(** On the library of the witness the bundle that is listed is
    installed, the other one is fetched and closed. *)
Example sync_remotes_vids_demo :
  let w' := (run (sync_remotes (Demo.plain []) (Some [("r1", Demo.r1 ["a-0.0.1.db"; "b-0.0.1.db"])])
                    false false (Some ["vid:b-0.0.1.db"])) Demo.empty).2 in
  f_ref <$> files w' = ["vid:b-0.0.1.db"]
  ∧ datasets w' = ["vid:b-0.0.1.db"]
  ∧ BundleClose "a-0.0.1.db" ∈ trace w'.
Proof.
  vm_compute. split; [reflexivity|]. split; [reflexivity|].
  apply list_elem_of_In. cbn. tauto.
Qed.

(** ** The install phase of [sync_library] *)

Lemma one_row_record_partition (f : File) (l : list File) :
  f_type f = PARTITION →
  one_bundle_row_per_vid l → one_bundle_row_per_vid (Files.record f l).
Proof.
  intros Ht Hl v. rewrite filter_record_other; [apply Hl| |].
  - intros [_ Hb]. congruence.
  - intros g (_ & Hg & _) [_ Hb]. congruence.
Qed.

Lemma one_row_record_bundle (f : File) (l : list File) :
  f_type f = BUNDLE →
  filter (λ g, f_ref g = f_ref f ∧ f_type g = BUNDLE) l = [] →
  one_bundle_row_per_vid l → one_bundle_row_per_vid (Files.record f l).
Proof.
  intros Ht Hnew Hl v. destruct (decide (v = f_ref f)) as [->|Hv].
  - rewrite filter_record_new;
      [reflexivity | split; [reflexivity | exact Ht] | | exact Hnew].
    intros g (Hr & Hg & _). split; [exact Hr | congruence].
  - rewrite filter_record_other; [apply Hl| |].
    + intros [Hr _]. congruence.
    + intros g (Hg & _ & _) [Hr _]. congruence.
Qed.

(** The loop of [sync_library] over the partitions of a bundle. *)
Lemma install_partitions_loop (env : Env) (ps : list Partition) (w : World) :
  one_bundle_row_per_vid (files w) →
  ∃ w', run (for_each ps
               (λ p, put_partition env p (Some (repo_id env)) "installed" false ;;
                     emit (LogInfo (InstalledPartition (vname (p_identity p)))))) w
        = (Ok tt, w')
    ∧ one_bundle_row_per_vid (files w')
    ∧ error_logs (trace w') = error_logs (trace w).
Proof.
  revert w. induction ps as [|p ps IH]; intros w Hinv.
  - exists w. auto.
  - cbn [for_each]. rewrite run_bind, run_bind, put_partition_run.
    cbv beta iota. rewrite run_emit. cbv beta iota.
    match goal with |- context [run (for_each ps _) ?w1] =>
      destruct (IH w1) as (w' & Hrun & Hinv' & Hlog) end.
    { cbn [files with_trace]. apply one_row_record_partition; [reflexivity | exact Hinv]. }
    exists w'. split; [exact Hrun|]. split; [exact Hinv'|].
    rewrite Hlog. cbn [trace with_trace]. rewrite !error_logs_app.
    destruct (_ && _); cbn; rewrite !app_nil_r; reflexivity.
Qed.

Lemma filter_nil_unrecorded (v : string) (l : list File) :
  filter (λ f, f_ref f = v ∧ f_type f = BUNDLE) l = [] → unrecorded v l.
Proof.
  intros Hnil. apply Forall_forall. intros f Hin HP.
  assert (Hf : f ∈ filter (λ f, f_ref f = v ∧ f_type f = BUNDLE) l)
    by (apply list_elem_of_filter; auto).
  rewrite Hnil in Hf. inversion Hf.
Qed.

(** [put_bundle] as [sync_library] calls it, when the catalog accepts
    the bundle or refuses it with [ConflictError]. *)
Lemma put_bundle_outcome (env : Env) (b : Bundle) (i : Identity) (w : World) :
  b_identity b = Ok i →
  install_bundle env b = None ∨ install_bundle env b = Some ConflictError →
  one_bundle_row_per_vid (files w) →
  ∃ r w', run (put_bundle env b (Some (repo_id env)) false "installed" true false) w
          = (r, w')
    ∧ (r = Raise ConflictError ∨ ∃ x, r = Ok x)
    ∧ one_bundle_row_per_vid (files w')
    ∧ error_logs (trace w') = error_logs (trace w).
Proof.
  intros Hi Hinst Hinv. pose proof (Hinv (vid (dataset i))) as Hlen.
  destruct (filter (λ f, f_ref f = vid (dataset i) ∧ f_type f = BUNDLE) (files w))
    as [|f [|g l]] eqn:Hfil; cbn in Hlen; [| |lia].
  - apply filter_nil_unrecorded in Hfil as Hu. destruct Hinst as [Hn|Hc].
    + destruct (put_bundle_fresh env b i (repo_id env) "installed" w Hi Hn Hu)
        as (w' & Hrun & Hf & _ & evs & Ht & _ & He).
      eexists _, w'. split; [exact Hrun|]. split; [right; eauto|]. split.
      * rewrite Hf. intros v. rewrite filter_app.
        destruct (decide (v = vid (dataset i))) as [->|Hv].
        -- rewrite Hfil. cbn [app]. rewrite filter_cons_True by (cbn; auto).
           rewrite filter_nil. reflexivity.
        -- rewrite filter_cons_False by (cbn; intros [? _]; congruence).
           rewrite filter_nil, app_nil_r. apply Hinv.
      * rewrite Ht, error_logs_app, He, app_nil_r. reflexivity.
    + exists (Raise ConflictError), w.
      rewrite (put_bundle_refused env b _ _ _ _ _ i ConflictError w Hi Hc (or_intror Hu)).
      auto.
  - eexists _, w. unfold put_bundle.
    rewrite (run_bind_ok _ _ _ _ _ (already_installed_single env b i f w Hi Hfil)).
    rewrite Hi. split; [reflexivity|]. split; [right; eauto|]. auto.
Qed.

Lemma install_found_outcome (env : Env) (b : Bundle) (i : Identity) (w : World) :
  b_identity b = Ok i →
  install_bundle env b = None ∨ install_bundle env b = Some ConflictError →
  one_bundle_row_per_vid (files w) →
  ∃ w', run (install_found env b) w = (Ok tt, w')
    ∧ one_bundle_row_per_vid (files w')
    ∧ error_logs (trace w') = error_logs (trace w).
Proof.
  intros Hi Hinst Hinv. unfold install_found. rewrite Hi.
  rewrite run_bind, run_lift. cbv beta iota.
  rewrite run_bind, run_emit. cbv beta iota.
  rewrite run_try_except, run_bind.
  rewrite run_try_except, run_bind.
  match goal with |- context [run (put_bundle env b ?s ?ip ?fs ?c ?f) ?w1] =>
    destruct (put_bundle_outcome env b i w1 Hi Hinst) as (r & w2 & Hrun & Hr & Hinv2 & Hlog);
      [exact Hinv|]; rewrite Hrun; clear Hrun end.
  cbn [trace with_trace] in Hlog. rewrite error_logs_app in Hlog.
  cbn [error_logs omap list_omap] in Hlog. rewrite app_nil_r in Hlog.
  unfold database_commit, database_close, bundle_close.
  destruct Hr as [->|[x ->]]; cbv beta iota.
  - rewrite decide_True by reflexivity. run_steps.
    eexists. split; [reflexivity|]. cbn [files trace]. split; [exact Hinv2|].
    rewrite !error_logs_app, Hlog. cbn. rewrite !app_nil_r. reflexivity.
  - rewrite run_ret. cbv beta iota. rewrite run_bind, run_try_except, run_bind.
    destruct (install_partitions_loop env (b_partitions b) w2 Hinv2)
      as (w3 & Hrun3 & Hinv3 & Hlog3).
    rewrite Hrun3. run_steps.
    eexists. split; [reflexivity|]. cbn [files trace]. split; [exact Hinv3|].
    rewrite !error_logs_app, Hlog3, Hlog. cbn. rewrite !app_nil_r. reflexivity.
Qed.

Lemma collected_identity (env : Env) (paths : list (string * string)) (b : Bundle) :
  b ∈ collected env paths → ∃ i, b_identity b = Ok i.
Proof.
  unfold collected. intros Hb. apply list_elem_of_omap in Hb as (fp & _ & Hfp).
  destruct (DbBundle env fp.2) as [b'|]; [|discriminate].
  destruct (b_identity b') as [i|] eqn:Hi; [|discriminate].
  destruct (is_bundle i); [|discriminate]. injection Hfp as <-. eauto.
Qed.

Lemma install_found_loop (env : Env) (bs : list Bundle) (w : World) :
  Forall (λ b, (∃ i, b_identity b = Ok i)
               ∧ (install_bundle env b = None
                  ∨ install_bundle env b = Some ConflictError)) bs →
  one_bundle_row_per_vid (files w) →
  ∃ w', run (for_each bs (install_found env)) w = (Ok tt, w')
    ∧ error_logs (trace w') = error_logs (trace w).
Proof.
  intros Hbs. revert w. induction Hbs as [|b bs [[i Hi] Hinst] _ IH]; intros w Hinv.
  - exists w. auto.
  - cbn [for_each]. rewrite run_bind.
    destruct (install_found_outcome env b i w Hi Hinst Hinv) as (w1 & Hrun & Hinv1 & Hlog).
    rewrite Hrun. destruct (IH w1 Hinv1) as (w' & Hrun' & Hlog').
    exists w'. split; [exact Hrun'|]. congruence.
Qed.

(** A [ConflictError] does not stop [sync_library].  When the walk meets
    no fatal file and the catalog accepts every bundle found or refuses
    it with [ConflictError], [sync_library] returns the bundles found,
    those refused among them, ordered by their number of partitions, and
    logs no error but those of the walk.  The ledger is cleaned first,
    or has at most one bundle row for each vid. *)
Theorem sync_library_tolerates_conflicts (env : Env) (tree : dir) (clean : bool)
    (w : World) :
  let paths := db_paths env tree in
  (upto_fatal env paths).2 = None →
  Forall (λ b, install_bundle env b = None
               ∨ install_bundle env b = Some ConflictError) (collected env paths) →
  clean = true ∨ one_bundle_row_per_vid (files w) →
  ∃ w', run (sync_library env tree clean) w
        = (Ok (sorted_by (λ b, List.length (b_partitions b)) (collected env paths)), w')
    ∧ error_logs (trace w') = error_logs (trace w) ++ unopened env paths.
Proof.
  intros paths Hfatal Hinst Hclean. unfold sync_library.
  set (w0 := (run (if clean
                   then Files.delete (λ f, f_type f = BUNDLE) ;;
                        Files.delete (λ f, f_type f = PARTITION)
                   else mret tt) w).2).
  assert (H0 : run (if clean
                   then Files.delete (λ f, f_type f = BUNDLE) ;;
                        Files.delete (λ f, f_type f = PARTITION)
                   else mret tt) w = (Ok tt, w0)
               ∧ one_bundle_row_per_vid (files w0) ∧ trace w0 = trace w).
  { subst w0. destruct clean.
    - unfold Files.delete. rewrite run_bind, run_modify. cbv beta iota.
      rewrite run_modify. split; [reflexivity|]. split; [|reflexivity].
      intros v. cbn [snd files with_files]. rewrite !list_filter_filter.
      rewrite filter_none; [cbn; lia|]. apply Forall_forall. tauto.
    - destruct Hclean as [?|Hinv]; [discriminate|]. auto. }
  destruct H0 as (Hrun0 & Hinv0 & Ht0). clearbody w0.
  rewrite run_bind, Hrun0. cbv beta iota. rewrite run_bind, run_emit. cbv beta iota.
  rewrite run_bind. unfold find_bundles. rewrite scan_dirs_flat.
  fold (db_paths env tree). fold paths.
  match goal with |- context [run (fold_m (open_file env) paths []) ?w1] =>
    destruct (open_files_spec env paths [] w1) as (w2 & Hrun2 & Hf2 & _ & Hlog2) end.
  rewrite Hfatal in Hrun2, Hlog2. rewrite (upto_fatal_none env paths Hfatal) in Hrun2, Hlog2.
  rewrite Hrun2. cbn [app]. cbv beta iota. rewrite run_bind.
  destruct (install_found_loop env
              (sorted_by (λ b, List.length (b_partitions b)) (collected env paths)) w2)
    as (w3 & Hrun3 & Hlog3).
  { apply Forall_forall. intros b Hb. apply sorted_by_elem in Hb. split.
    - exact (collected_identity env paths b Hb).
    - rewrite Forall_forall in Hinst. exact (Hinst b Hb). }
  { rewrite Hf2. exact Hinv0. }
  rewrite Hrun3. cbv beta iota. rewrite run_ret.
  exists w3. split; [reflexivity|].
  rewrite Hlog3, Hlog2. cbn [trace with_trace]. rewrite error_logs_app, Ht0.
  cbn. rewrite !app_nil_r. reflexivity.
Qed.

Lemma sync_library_tolerates_conflicts_witness :
  let paths := db_paths Cases.conflicting Demo.tree in
  ∃ w', run (sync_library Cases.conflicting Demo.tree true) Demo.empty
        = (Ok (sorted_by (λ b, List.length (b_partitions b))
                 (collected Cases.conflicting paths)), w')
    ∧ error_logs (trace w')
      = error_logs (trace Demo.empty) ++ unopened Cases.conflicting paths.
Proof.
  refine (sync_library_tolerates_conflicts Cases.conflicting Demo.tree true Demo.empty
            eq_refl _ (or_introl eq_refl)).
  refine (bool_decide_unpack _ _). vm_compute. exact I.
Defined.

(** On the library of the witness the bundle that the catalog refuses is
    returned with the other one, and only the other one is recorded. *)
Example sync_library_conflict_demo :
  let '(r, w') := run (sync_library Cases.conflicting Demo.tree true) Demo.empty in
  r = Ok [Demo.bundle_at "/cache/a-0.0.1.db"; Demo.bundle_at "/cache/src/c-0.0.2.db"]
  ∧ f_ref <$> files w' = ["vid:/cache/src/c-0.0.2.db"].
Proof. vm_compute. split; reflexivity. Qed.

(** ** Every pass of [sync_remotes] *)

Lemma bundle_recorded_app (v : string) (l1 l2 : list File) :
  bundle_recorded v (l1 ++ l2) ↔ bundle_recorded v l1 ∨ bundle_recorded v l2.
Proof. apply Exists_app. Qed.

Lemma bundle_recorded_filter (v : string) (l : list File) :
  bundle_recorded v l
  ↔ filter (λ f, f_ref f = v ∧ f_type f = BUNDLE) l ≠ [].
Proof.
  unfold bundle_recorded. rewrite Exists_exists. split.
  - intros (f & Hin & Hf) Hnil.
    assert (H : f ∈ filter (λ f, f_ref f = v ∧ f_type f = BUNDLE) l)
      by (apply list_elem_of_filter; auto).
    rewrite Hnil in H. inversion H.
  - intros Hne.
    destruct (filter (λ f, f_ref f = v ∧ f_type f = BUNDLE) l) as [|f l'] eqn:Hfil;
      [contradiction|].
    assert (H : f ∈ filter (λ f, f_ref f = v ∧ f_type f = BUNDLE) l)
      by (rewrite Hfil; left).
    apply list_elem_of_filter in H as [Hf Hin]. eauto.
Qed.

Lemma grown_refl (w : World) : grown w w.
Proof. repeat split; auto. Qed.

Lemma grown_trans (w1 w2 w3 : World) : grown w1 w2 → grown w2 w3 → grown w1 w3.
Proof. intros (H1 & H2 & H3) (H1' & H2' & H3'). repeat split; auto. Qed.

(** A step that leaves the ledger and the catalog and adds to the
    trace. *)
Lemma course_same (w wt wt' : World) (evs : list event) :
  files wt' = files wt → datasets wt' = datasets wt → trace wt' = trace wt ++ evs →
  in_course w wt → in_course w wt' ∧ grown wt wt'.
Proof.
  intros Hf Hd Ht (H1 & H2 & H3). unfold in_course, grown. rewrite Hf, Hd, Ht.
  split; [auto|]. split; [auto|]. split; [auto|].
  intros m Hm. rewrite error_logs_app. apply elem_of_app. auto.
Qed.

(** A step that installs a bundle that the ledger did not record. *)
Lemma course_install (w wt wt' : World) (remote : Remote) (i : Identity)
    (evs : list event) :
  files wt' = files wt ++ [remote_row remote i] →
  datasets wt' = datasets wt ++ [vid (dataset i)] →
  trace wt' = trace wt ++ evs →
  unrecorded (vid (dataset i)) (files wt) →
  in_course w wt →
  in_course w wt' ∧ grown wt wt'
  ∧ bundle_recorded (vid (dataset i)) (files wt')
  ∧ vid (dataset i) ∈ datasets wt'.
Proof.
  intros Hf Hd Ht Hun (H1 & H2 & H3).
  assert (Hrow : bundle_recorded (vid (dataset i)) [remote_row remote i]).
  { apply Exists_cons_hd. split; reflexivity. }
  unfold in_course, grown. rewrite Hf, Hd, Ht.
  split; [split; [|split]|split; [split; [|split]|split]].
  - intros v. rewrite filter_app.
    destruct (decide (v = vid (dataset i))) as [->|Hv].
    + rewrite (unrecorded_filter _ _ Hun). cbn [app].
      rewrite filter_cons_True by (cbn; auto). rewrite filter_nil. reflexivity.
    + rewrite filter_cons_False by (cbn; intros [? _]; congruence).
      rewrite filter_nil, app_nil_r. apply H1.
  - intros v Hv. apply bundle_recorded_app in Hv as [Hv|Hv].
    + destruct (H2 v Hv) as [Hin|Hw]; [left; apply elem_of_app; auto | right; exact Hw].
    + left. apply elem_of_app. right.
      apply Exists_cons in Hv as [[Hr _]|Hv]; [|inversion Hv].
      cbn in Hr. subst v. left.
  - intros r. rewrite <- H3. unfold known_keys. rewrite filter_app.
    rewrite (filter_cons_False _ (remote_row remote i)) by (cbn; intros [? _]; discriminate).
    rewrite filter_nil, app_nil_r. reflexivity.
  - intros v Hv. apply bundle_recorded_app. auto.
  - intros v Hv. apply elem_of_app. auto.
  - intros m Hm. rewrite error_logs_app. apply elem_of_app. auto.
  - apply bundle_recorded_app. auto.
  - apply elem_of_app. right. left.
Qed.

Lemma accounted_grown (env : Env) (vids : option (list string)) (k : string)
    (w w1 w2 : World) :
  accounted env vids k w w1 → grown w1 w2 → accounted env vids k w w2.
Proof.
  unfold accounted. intros Ha (H1 & H2 & H3).
  destruct (classify env k) as [b i|b i|b i e| |e]; [| | exact I | | exact I].
  - destruct Ha as [Ha|[Hr [Hd|Hw]]]; auto.
  - destruct Ha as [Ha|[Hr|Hl]]; auto.
  - destruct Ha as (m & Hm & Hl). eauto.
Qed.

(** The install of a fetched bundle, when the catalog accepts it or
    rejects it with [NotABundle], or the ledger records it already. *)
Lemma install_turn (env : Env) (remote : Remote) (key : string) (b : Bundle)
    (i : Identity) (w wt : World) :
  b_identity b = Ok i →
  in_course w wt →
  install_bundle env b = None ∨ install_bundle env b = Some NotABundle
  ∨ bundle_recorded (vid (dataset i)) (files wt) →
  ∃ r wt', run (install_fetched env remote key b) wt = (Ok r, wt')
    ∧ in_course w wt' ∧ grown wt wt'
    ∧ match install_bundle env b with
      | None =>
          bundle_recorded (vid (dataset i)) (files wt')
          ∧ (vid (dataset i) ∈ datasets wt'
             ∨ bundle_recorded (vid (dataset i)) (files w))
      | Some _ =>
          bundle_recorded (vid (dataset i)) (files wt')
          ∨ NotAValidBundle key ∈ error_logs (trace wt')
      end.
Proof.
  intros Hi Hc Hcase. pose proof Hc as (Hone & HJ & HK).
  pose proof (Hone (vid (dataset i))) as Hlen.
  destruct (filter (λ f, f_ref f = vid (dataset i) ∧ f_type f = BUNDLE) (files wt))
    as [|f [|g l]] eqn:Hfil; cbn in Hlen; [| |lia].
  - (* the ledger does not record the bundle *)
    apply filter_nil_unrecorded in Hfil as Hun.
    destruct (install_bundle env b) as [e|] eqn:Hinst.
    + assert (e = NotABundle) as ->.
      { destruct Hcase as [?|[[= ->]|Hr]]; [discriminate | reflexivity |].
        apply bundle_recorded_filter in Hr. contradiction. }
      rewrite (install_fetched_fails env remote key b i NotABundle wt Hi Hinst Hun).
      rewrite decide_True by reflexivity. eexists _, _. split; [reflexivity|].
      destruct (course_same w wt
                  (with_trace (trace wt ++ [LogError (NotAValidBundle key);
                                            BundleClose (b_database_path b)]) wt)
                  _ eq_refl eq_refl eq_refl Hc) as [Hc' Hg].
      split; [exact Hc'|]. split; [exact Hg|]. right.
      cbn [trace with_trace]. rewrite error_logs_app. apply elem_of_app. right. left.
    + destruct (install_fetched_fresh env remote key b i wt Hi Hinst Hun)
        as (wt' & Hrun & Hf & Hd & evs & Ht & _).
      exists true, wt'. split; [exact Hrun|].
      destruct (course_install w wt wt' remote i evs Hf Hd Ht Hun Hc)
        as (Hc' & Hg & Hr & Hin).
      auto.
  - (* the ledger records it: [put_bundle] returns at once *)
    assert (Hr : bundle_recorded (vid (dataset i)) (files wt)).
    { apply bundle_recorded_filter. rewrite Hfil. discriminate. }
    exists true, wt. split.
    { unfold install_fetched. rewrite run_try_except, run_bind.
      unfold put_bundle.
      rewrite (run_bind_ok _ _ _ _ _ (already_installed_single env b i f wt Hi Hfil)).
      rewrite Hi. reflexivity. }
    split; [exact Hc|]. split; [apply grown_refl|].
    destruct (install_bundle env b); auto.
Qed.

(** One turn of the loop over the keys of a remote. *)
Lemma sync_key_accounts (env : Env) (remote : Remote) (all_keys : list string)
    (u vids : option (list string)) (k : string) (w wt : World) :
  in_course w wt →
  (passes all_keys u k = true → tolerated env vids k) →
  ∃ wt', run (sync_key env remote all_keys u vids k) wt = (Ok tt, wt')
    ∧ in_course w wt' ∧ grown wt wt'
    ∧ (passes all_keys u k = true → accounted env vids k w wt').
Proof.
  intros Hc Htol.
  destruct (decide (k ∈ all_keys)) as [Hin|Hin].
  { exists wt. rewrite (sync_key_known env remote all_keys u vids k wt Hin).
    split; [reflexivity|]. split; [exact Hc|]. split; [apply grown_refl|].
    unfold passes. rewrite (bool_decide_eq_true_2 _ Hin). discriminate. }
  destruct (truthy u && negb (member k u)) eqn:Hturn.
  { rewrite (sync_key_turned_away env remote all_keys u vids k wt Hin Hturn).
    eexists. split; [reflexivity|].
    destruct (course_same w wt (with_trace (trace wt ++ [LogInfo (SkipOldVersion k)]) wt)
                _ eq_refl eq_refl eq_refl Hc) as [Hc' Hg].
    split; [exact Hc'|]. split; [exact Hg|].
    unfold passes. rewrite Hturn, andb_false_r. discriminate. }
  assert (Hp : passes all_keys u k = true)
    by (unfold passes; rewrite (bool_decide_eq_false_2 _ Hin), Hturn; reflexivity).
  specialize (Htol Hp).
  enough (∃ wt', run (sync_key env remote all_keys u vids k) wt = (Ok tt, wt')
                 ∧ in_course w wt' ∧ grown wt wt' ∧ accounted env vids k w wt')
    as (wt' & H1 & H2 & H3 & H4) by (exists wt'; auto).
  unfold sync_key. rewrite (bool_decide_eq_false_2 _ Hin), Hturn. cbv iota.
  rewrite run_bind, run_cache_has. cbv iota. generalize (bool_decide (k ∈ cache wt)).
  intros has0. run_steps.
  set (ev := LogInfo (if has0 then RemoteHas (r_repo_id remote) k
                      else RemoteSync (r_repo_id remote) k)).
  assert (Hev : error_logs [ev] = []) by reflexivity.
  unfold tolerated, accounted, failure_of in *.
  unfold fetch, _get_bundle_by_cache_key, _create_bundle, arc_get_path, classify in *.
  (* a turn that leaves the ledger and the catalog *)
  assert (Hsame : ∀ wt' evs, files wt' = files wt → datasets wt' = datasets wt →
            trace wt' = trace wt ++ evs → in_course w wt' ∧ grown wt wt')
    by (intros wt' evs H1 H2 H3; exact (course_same w wt wt' evs H1 H2 H3 Hc)).
  destruct (arc_get env k) as [[p|]|e].
  - run_steps.
    destruct (bool_decide (p = "") || negb (path_exists env p)) eqn:Hpath.
    + run_steps. eexists. split; [reflexivity|].
      match goal with |- in_course w ?w1 ∧ _ =>
        destruct (Hsame w1 [ev; LogError (FailedToFetchBundle k)] eq_refl eq_refl)
          as [Hc' Hg]; [cbn [trace with_trace]; rewrite <- ?app_assoc; reflexivity|] end.
      split; [exact Hc'|]. split; [exact Hg|].
      eexists. split; [reflexivity|]. cbn [trace with_trace].
      rewrite !error_logs_app. apply elem_of_app. right. left.
    + run_steps. destruct (DbBundle env p) as [b|e] eqn:Hb.
      * run_steps. destruct (b_identity b) as [i|e] eqn:Hi; [|contradiction].
        run_steps. fold (filtered_out vids i).
        destruct (filtered_out vids i) eqn:Hvids.
        { (* left aside by [vids] *)
          unfold bundle_close. run_steps. eexists. split; [reflexivity|].
          match goal with |- in_course w ?w1 ∧ _ =>
            destruct (Hsame w1 [ev; BundleClose (b_database_path b)] eq_refl eq_refl)
              as [Hc' Hg]; [cbn [trace with_trace]; rewrite <- ?app_assoc; reflexivity|] end.
          split; [exact Hc'|]. split; [exact Hg|].
          destruct (install_bundle env b) as [e|]; [|auto].
          destruct (decide (e = NotABundle)); [auto | exact I]. }
        rewrite run_bind.
        match goal with |- context [run (install_fetched env remote k b) ?w1] =>
          destruct (Hsame w1 [ev] eq_refl eq_refl eq_refl) as [Hc1 Hg1];
          destruct (install_turn env remote k b i w w1 Hi Hc1)
            as (r & w2 & Hrun & Hc2 & Hg2 & Hout)
        end.
        { destruct (install_bundle env b) as [e|]; [|auto].
          destruct (decide (e = NotABundle)) as [->|]; [auto|].
          cbn in Htol. congruence. }
        rewrite Hrun. clear Hrun. cbv beta iota.
        assert (Hfin : ∃ w3 evs, run (if r then database_commit ;; database_close ;;
                                                 bundle_close b
                                      else mret tt) w2 = (Ok tt, w3)
                         ∧ files w3 = files w2 ∧ datasets w3 = datasets w2
                         ∧ trace w3 = trace w2 ++ evs).
        { destruct r; unfold database_commit, database_close, bundle_close; run_steps.
          - eexists _, _. split; [reflexivity|]. cbn [files datasets trace].
            rewrite <- !app_assoc. auto.
          - exists w2, []. rewrite app_nil_r. auto. }
        destruct Hfin as (w3 & evs & Hrun3 & Hf3 & Hd3 & Ht3). rewrite Hrun3.
        exists w3. split; [reflexivity|].
        destruct (course_same w w2 w3 evs Hf3 Hd3 Ht3 Hc2) as [Hc3 Hg3].
        split; [exact Hc3|].
        split; [exact (grown_trans _ _ _ Hg1 (grown_trans _ _ _ Hg2 Hg3))|].
        destruct Hg3 as (G1 & G2 & G3).
        destruct (install_bundle env b) as [e|].
        -- destruct (decide (e = NotABundle)); [|exact I].
           right. destruct Hout as [Hr|Hl]; auto.
        -- right. destruct Hout as [Hr [Hd|Hw]]; auto.
      * (* loading the bundle raises *)
        destruct (decide (e = S3ResponseError)) as [->|Hne]; [|contradiction].
        run_steps. eexists. split; [reflexivity|].
        match goal with |- in_course w ?w1 ∧ _ =>
          destruct (Hsame w1 [ev; LogError (FailedToGet k S3ResponseError)]
                      eq_refl eq_refl) as [Hc' Hg];
            [cbn [trace with_trace]; rewrite <- ?app_assoc; reflexivity|] end.
        split; [exact Hc'|]. split; [exact Hg|].
        eexists. split; [reflexivity|]. cbn [trace with_trace].
        rewrite !error_logs_app. apply elem_of_app. right. left.
  - run_steps. eexists. split; [reflexivity|].
    match goal with |- in_course w ?w1 ∧ _ =>
      destruct (Hsame w1 [ev; LogError (FailedToFetchBundle k)] eq_refl eq_refl)
        as [Hc' Hg]; [cbn [trace with_trace]; rewrite <- ?app_assoc; reflexivity|] end.
    split; [exact Hc'|]. split; [exact Hg|].
    eexists. split; [reflexivity|]. cbn [trace with_trace].
    rewrite !error_logs_app. apply elem_of_app. right. left.
  - destruct (decide (e = S3ResponseError)) as [->|Hne]; [|contradiction].
    run_steps. eexists. split; [reflexivity|].
    match goal with |- in_course w ?w1 ∧ _ =>
      destruct (Hsame w1 [ev; LogError (FailedToGet k S3ResponseError)]
                  eq_refl eq_refl) as [Hc' Hg];
        [cbn [trace with_trace]; rewrite <- ?app_assoc; reflexivity|] end.
    split; [exact Hc'|]. split; [exact Hg|].
    eexists. split; [reflexivity|]. cbn [trace with_trace].
    rewrite !error_logs_app. apply elem_of_app. right. left.
Qed.

(** The loop over the keys of a remote. *)
Lemma sync_keys_account (env : Env) (remote : Remote) (all_keys : list string)
    (u vids : option (list string)) (keys : list string) (w wt : World) :
  in_course w wt →
  Forall (λ k, passes all_keys u k = true → tolerated env vids k) keys →
  ∃ wt', run (for_each keys (sync_key env remote all_keys u vids)) wt = (Ok tt, wt')
    ∧ in_course w wt' ∧ grown wt wt'
    ∧ Forall (λ k, passes all_keys u k = true → accounted env vids k w wt') keys.
Proof.
  intros Hc Htol. revert wt Hc. induction Htol as [|k keys Hk _ IH]; intros wt Hc.
  { exists wt. split; [reflexivity|]. split; [exact Hc|]. split; [apply grown_refl|].
    constructor. }
  cbn [for_each]. rewrite run_bind.
  destruct (sync_key_accounts env remote all_keys u vids k w wt Hc Hk)
    as (w1 & Hrun & Hc1 & Hg1 & Ha).
  rewrite Hrun. destruct (IH w1 Hc1) as (w2 & Hrun2 & Hc2 & Hg2 & Has).
  exists w2. split; [exact Hrun2|]. split; [exact Hc2|].
  split; [exact (grown_trans _ _ _ Hg1 Hg2)|].
  constructor; [|exact Has].
  intros Hp. exact (accounted_grown env vids k w w1 w2 (Ha Hp) Hg2).
Qed.

(** The loop that fills [last_keys] logs and computes what [scan]
    says. *)
Lemma scan_key_run (st : scan_state) (k : string) (wt : World) :
  ∃ wt' evs,
    run (scan_key st k) wt
    = (match scan_step st k with
       | Some st' => Ok st'
       | None => Raise UnboundLocalError
       end, wt')
    ∧ files wt' = files wt ∧ datasets wt' = datasets wt
    ∧ trace wt' = trace wt ++ evs.
Proof.
  unfold scan_key, scan_step.
  destruct (Re.search_version k) as [v|]; run_steps.
  - destruct (last_keys_get (Re.nv_key k) (last_keys st)) as [cur lk]. run_steps.
    exists wt, []. rewrite app_nil_r. auto.
  - destruct (version st) as [v|]; run_steps.
    + destruct (last_keys_get (Re.nv_key k) (last_keys st)) as [cur lk]. run_steps.
      eexists _, _. split; [reflexivity|]. cbn [files datasets trace]. auto.
    + eexists _, _. split; [reflexivity|]. cbn [files datasets trace]. auto.
Qed.

Lemma scan_run (keys : list string) (st : scan_state) (wt : World) :
  ∃ wt' evs,
    run (fold_m scan_key keys st) wt
    = (match scan keys st with
       | Some st' => Ok st'
       | None => Raise UnboundLocalError
       end, wt')
    ∧ files wt' = files wt ∧ datasets wt' = datasets wt
    ∧ trace wt' = trace wt ++ evs.
Proof.
  revert st wt. induction keys as [|k keys IH]; intros st wt.
  { exists wt, []. rewrite app_nil_r. auto. }
  cbn [fold_m scan]. rewrite run_bind.
  destruct (scan_key_run st k wt) as (w1 & evs1 & Hrun & Hf & Hd & Ht).
  rewrite Hrun. destruct (scan_step st k) as [st'|].
  - destruct (IH st' w1) as (w2 & evs2 & Hrun2 & Hf2 & Hd2 & Ht2).
    exists w2, (evs1 ++ evs2). rewrite Hrun2, Hf2, Hd2, Ht2, Hf, Hd, Ht, app_assoc. auto.
  - exists w1, evs1. auto.
Qed.

Lemma compute_use_only_run (env : Env) (last_only : bool) (keys : list string)
    (v v' : option N) (u : option (list string)) (wt : World) :
  version_filter env last_only keys v = Some (u, v') →
  ∃ wt' evs,
    run (compute_use_only env last_only keys v) wt = (Ok (u, v'), wt')
    ∧ files wt' = files wt ∧ datasets wt' = datasets wt
    ∧ trace wt' = trace wt ++ evs.
Proof.
  unfold version_filter, compute_use_only. destruct last_only.
  - destruct (scan_run keys {| version := v; last_keys := ∅ |} wt)
      as (w1 & evs & Hrun & Hf & Hd & Ht).
    rewrite run_bind, Hrun.
    destruct (scan keys {| version := v; last_keys := ∅ |}) as [st'|]; [|discriminate].
    cbn [fmap option_fmap option_map]. intros Hres.
    assert (Heq : filter_result env keys st' = (u, v')) by congruence.
    rewrite run_ret, Heq.
    exists w1, evs. auto.
  - intros [= <- <-]. exists wt, []. rewrite app_nil_r. auto.
Qed.

(** The loop over the remotes. *)
Lemma sync_remotes_loop (env : Env) (last_only : bool) (vids : option (list string))
    (rs : list (string * Remote)) (v : option N) (w wt : World)
    (ps : list (Remote * list string * option (list string))) :
  in_course w wt →
  passes_of env last_only v rs = Some ps →
  (∀ remote keys u k, (remote, keys, u) ∈ ps → k ∈ keys →
     passes (known_keys remote (files w)) u k = true → tolerated env vids k) →
  ∃ v' wt', run (fold_m (sync_remote env last_only vids) rs v) wt = (Ok v', wt')
    ∧ in_course w wt' ∧ grown wt wt'
    ∧ ∀ remote keys u k, (remote, keys, u) ∈ ps → k ∈ keys →
        passes (known_keys remote (files w)) u k = true → accounted env vids k w wt'.
Proof.
  revert v wt ps. induction rs as [|[name remote] rs IH]; intros v wt ps Hc Hps Htol.
  { injection Hps as <-. exists v, wt. split; [reflexivity|]. split; [exact Hc|].
    split; [apply grown_refl|]. intros remote keys u k Hin. inversion Hin. }
  cbn [fold_m passes_of snd] in *. rewrite run_bind. unfold sync_remote at 1.
  destruct (r_list remote) as [keys|e].
  - (* the listing succeeds *)
    destruct (version_filter env last_only keys v) as [[u v1]|] eqn:Hfilter;
      [|discriminate].
    destruct (passes_of env last_only v1 rs) as [ps'|] eqn:Hps'; [|discriminate].
    injection Hps as <-.
    unfold Files.all. run_steps.
    fold (known_keys remote (files wt)).
    match goal with |- context [run (compute_use_only env last_only keys v) ?w0] =>
      destruct (course_same w wt w0 [LogInfo (SyncingFromRemote name)]
                  eq_refl eq_refl eq_refl Hc) as [Hc0 Hg0];
      destruct (compute_use_only_run env last_only keys v v1 u w0 Hfilter)
        as (w1 & evs & Hrun & Hf & Hd & Ht)
    end.
    rewrite Hrun. clear Hrun. cbv beta iota.
    destruct (course_same w _ w1 evs Hf Hd Ht Hc0) as [Hc1 Hg1].
    assert (Hkeys : known_keys remote (files wt) = known_keys remote (files w))
      by (destruct Hc as (_ & _ & HK); apply HK).
    rewrite Hkeys. rewrite run_bind.
    destruct (sync_keys_account env remote (known_keys remote (files w)) u vids keys
                w w1 Hc1) as (w2 & Hrun2 & Hc2 & Hg2 & Hacc).
    { apply Forall_forall. intros k Hk Hp. apply (Htol remote keys u k); [left|auto..]. }
    rewrite Hrun2. cbv beta iota. rewrite run_ret.
    destruct (IH v1 w2 ps' Hc2 Hps') as (v' & w3 & Hrun3 & Hc3 & Hg3 & Hacc3).
    { intros r' keys' u' k Hin. apply Htol. right. exact Hin. }
    exists v', w3. split; [exact Hrun3|]. split; [exact Hc3|].
    split; [exact (grown_trans _ _ _ Hg0 (grown_trans _ _ _ Hg1
                     (grown_trans _ _ _ Hg2 Hg3)))|].
    intros r' keys' u' k Hin Hk Hp. apply elem_of_cons in Hin as [[= -> -> ->]|Hin].
    + rewrite Forall_forall in Hacc.
      exact (accounted_grown env vids k w w2 w3 (Hacc k Hk Hp) Hg3).
    + exact (Hacc3 r' keys' u' k Hin Hk Hp).
  - (* the listing fails *)
    destruct (decide (e = S3ResponseError)) as [->|Hne]; [|discriminate].
    run_steps.
    match goal with |- context [run (fold_m _ rs v) ?w0] =>
      destruct (course_same w wt w0 [LogError (FailedToGetList name S3ResponseError)]
                  eq_refl eq_refl eq_refl Hc) as [Hc0 Hg0];
      destruct (IH v w0 ps Hc0 Hps Htol) as (v' & w3 & Hrun3 & Hc3 & Hg3 & Hacc3)
    end.
    exists v', w3. split; [exact Hrun3|]. split; [exact Hc3|].
    split; [exact (grown_trans _ _ _ Hg0 Hg3) | exact Hacc3].
Qed.

(** The ledger after the rows of [clean] are deleted. *)
Lemma course_after_clean (P : File → Prop) `{∀ f, Decision (P f)} (w : World) :
  (∀ f, P f → f_type f ≠ REMOTE) →
  one_bundle_row_per_vid (files w) →
  in_course w (with_files (filter (λ f, ¬ P f) (files w)) w).
Proof.
  intros HP Hone. split; [|split]; cbn [files with_files datasets].
  - intros v. rewrite list_filter_filter. etrans; [|apply (Hone v)].
    apply sublist_length. clear Hone. induction (files w) as [|f l IH]; [constructor|].
    rewrite !filter_cons.
    destruct (decide (_ ∧ _)) as [[H1 H2]|Hn].
    + rewrite decide_True by exact H1. constructor. exact IH.
    + destruct (decide (f_ref f = v ∧ f_type f = BUNDLE)); [constructor|]; exact IH.
  - intros v Hv. right. unfold bundle_recorded in *. rewrite Exists_exists in *.
    destruct Hv as (f & Hin & Hf). apply list_elem_of_filter in Hin as [_ Hin]. eauto.
  - intros r. unfold known_keys. rewrite list_filter_filter. f_equal.
    apply list_filter_iff. intros f. split; [tauto|]. intros [Ht Hs].
    split; [auto|]. intros HPf. apply (HP f HPf Ht).
Qed.

(** C2, as the code has it.  In every call of [sync_remotes], with or
    without [clean], [last_only] and [vids], over the remotes given or
    those of the library: a fetch that fails with [S3ResponseError] or
    brings nothing, and an install that the catalog rejects with
    [NotABundle], are logged and the loop goes on with the next key.
    When the listings raise nothing but [S3ResponseError], the version
    filter does not raise, and no key that passes the filters of its
    remote meets another exception, the call ends normally and every
    such key is accounted for: a bundle that the catalog accepts is in
    the ledger, and in the catalog unless the ledger recorded it before;
    a failure is named in an error of the log.  The ledger has at most
    one bundle row for each vid. *)
Theorem sync_remotes_isolates_failures (env : Env)
    (remotes : option (list (string * Remote))) (clean last_only : bool)
    (vids : option (list string)) (w : World)
    (ps : list (Remote * list string * option (list string))) :
  let rs := if truthy remotes then default [] remotes else lib_remotes env in
  (clean = true → is_Some remotes) →
  one_bundle_row_per_vid (files w) →
  passes_of env last_only None rs = Some ps →
  (∀ remote keys u k, (remote, keys, u) ∈ ps → k ∈ keys →
     passes (known_keys remote (files w)) u k = true → tolerated env vids k) →
  ∃ w', run (sync_remotes env remotes clean last_only vids) w = (Ok tt, w')
    ∧ ∀ remote keys u k, (remote, keys, u) ∈ ps → k ∈ keys →
        passes (known_keys remote (files w)) u k = true → accounted env vids k w w'.
Proof.
  intros rs Hclean Hone Hps Htol. unfold sync_remotes. fold rs.
  (* the rows deleted under [clean] *)
  assert (H0 : ∃ w0,
    run (if clean
         then match remotes with
              | None => raise AttributeError
              | Some rs0 =>
                  for_each rs0 (λ nr,
                    Files.delete (λ f, (f_type f = PARTITION ∨ f_type f = BUNDLE)
                                       ∧ f_source_url f = r_repo_id nr.2))
              end
         else mret tt) w = (Ok tt, w0)
    ∧ in_course w w0).
  { destruct clean.
    - destruct (Hclean eq_refl) as [rs0 ->]. rewrite clean_loop.
      eexists. split; [reflexivity|].
      apply course_after_clean; [|exact Hone].
      intros f [[Ht|Ht] _]; rewrite Ht; discriminate.
    - exists w. split; [reflexivity|].
      split; [exact Hone|]. split; [auto | reflexivity]. }
  destruct H0 as (w0 & Hrun0 & Hc0).
  rewrite run_bind, Hrun0. cbv beta iota.
  destruct rs as [|nr rs'] eqn:Hrs.
  { injection Hps as <-. exists w0. rewrite run_ret. split; [reflexivity|].
    intros remote keys u k Hin. inversion Hin. }
  rewrite <- Hrs in *. rewrite run_bind.
  destruct (sync_remotes_loop env last_only vids rs None w w0 ps Hc0 Hps Htol)
    as (v' & w1 & Hrun1 & Hc1 & Hg1 & Hacc).
  rewrite Hrun1. unfold mark_updated. run_steps.
  eexists. split; [reflexivity|].
  intros remote keys u k Hin Hk Hp.
  refine (accounted_grown env vids k w w1 _ (Hacc remote keys u k Hin Hk Hp) _).
  repeat split; cbn [files datasets trace]; auto.
  intros m Hm. rewrite !error_logs_app. do 2 (apply elem_of_app; left). exact Hm.
Qed.

Lemma sync_remotes_isolates_failures_witness :
  let r1 := {| r_repo_id := "r1";
               r_list := Ok ["a-0.0.1.db"; "bad-0.0.1.db"; "lost-0.0.1.db"] |} in
  let r2 := {| r_repo_id := "r2";
               r_list := Ok ["README"; "c-0.0.1.db"; "c-0.0.2.db"] |} in
  let ps := [(r1, ["a-0.0.1.db"; "bad-0.0.1.db"; "lost-0.0.1.db"],
              Some ["a-0.0.1.db"; "bad-0.0.1.db"; "lost-0.0.1.db"]);
             (r2, ["README"; "c-0.0.1.db"; "c-0.0.2.db"],
              Some ["c-0.0.2.db"; "README"])] in
  ∃ w', run (sync_remotes Cases.mirrored None false true None) Demo.empty = (Ok tt, w')
    ∧ ∀ remote keys u k, (remote, keys, u) ∈ ps → k ∈ keys →
        passes (known_keys remote (files Demo.empty)) u k = true →
        accounted Cases.mirrored None k Demo.empty w'.
Proof.
  intros r1 r2 ps.
  refine (sync_remotes_isolates_failures Cases.mirrored None false true None
            Demo.empty ps _ _ eq_refl _).
  - discriminate.
  - intros v. cbn. lia.
  - intros remote keys u k Hin Hk _.
    repeat (apply elem_of_cons in Hin as [Hin|Hin];
            [injection Hin as -> -> ->;
             repeat (apply elem_of_cons in Hk as [->|Hk]; [vm_compute; exact I|]);
             inversion Hk|]).
    inversion Hin.
Defined.

(** On the library of the witness the first remote lists a bundle that
    the catalog rejects and a key that cannot be fetched, the listing of
    the second remote fails, and the third remote lists a key without
    revision before two revisions of [c].  The call returns; the other
    bundles are installed, [README] among them: its turn compares the
    [version] that the pass over the first remote has left. *)
Example sync_remotes_three_remotes_demo :
  let '(r, w') := run (sync_remotes Cases.mirrored None false true None) Demo.empty in
  r = Ok tt
  ∧ datasets w' = ["vid:a-0.0.1.db"; "vid:README"; "vid:c-0.0.2.db"]
  ∧ error_logs (trace w')
    = [NotAValidBundle "bad-0.0.1.db"; FailedToFetchBundle "lost-0.0.1.db";
       FailedToGetList "down" S3ResponseError; FailedToFindVersion "README"]
  ∧ skip_logs (trace w') = ["c-0.0.1.db"].
Proof. vm_compute. repeat split. Qed.

(** ** [get] *)

Section Get.

Variable env : Env.
Variable partitions_get : Bundle → string → option Partition.
Variable partition_ref : Partition → option string.
Variable get_stream : Remote → string → bool.

Lemma run_try_finally {A} (c : M A) (fin : M unit) (w : World) :
  run (try_finally c fin) w =
  match run c w with
  | (r, w') =>
      match run fin w' with
      | (Ok _, w'') => (r, w'')
      | (Raise e, w'') => (Raise e, w'')
      end
  end.
Proof. reflexivity. Qed.

(** The steps of [get] up to the [try] statement. *)
Lemma get_loaded (ref : reference) (remote : option Remote)
    (location : option (list file_type)) (d : Identity) (b : Bundle) (w w1 : World) :
  run (resolve env ref location) w = (Ok (Some d), w) →
  run (_get_bundle_by_cache_key env (cache_key (dataset d))) w = (Ok (Some b), w1) →
  run (get env partitions_get partition_ref get_stream ref remote location) w =
  let dataset_files := filter (λ f, f_type f = BUNDLE ∧ f_ref f = vid (dataset d))
                         (files w) in
  run (try_finally
         (match partition d with
          | None => mret (b, None)
          | Some dp =>
              match partitions_get b (vid dp) with
              | None => raise NotFoundError
              | Some part =>
                  has ← cache_has (cache_key (p_identity part));
                  source ←
                    (if (has : bool) return M string then mret (repo_id env)
                     else
                       match get_remote env remote dataset_files with
                       | None =>
                           match dataset_files with
                           | [] => raise UnboundLocalError
                           | _ :: _ => raise NotFoundError
                           end
                       | Some r =>
                           copy_from_remote env partition_ref get_stream r part ;;
                           mret (r_repo_id r)
                       end);
                  put_partition env part (Some source) "installed" true ;;
                  mret (b, Some part)
              end
          end)
         (bundle_close b)) w1.
Proof.
  intros Hres Hload. unfold get.
  rewrite (run_bind_ok _ _ _ _ _ Hres). cbv beta iota.
  unfold Files.all. rewrite run_bind, run_bind, run_get_world. cbv beta iota.
  rewrite run_ret. cbv beta iota zeta.
  rewrite (run_bind_ok _ _ _ _ _ Hload). reflexivity.
Qed.

Lemma trace_grows_refl (w : World) : trace_grows w w.
Proof. exists []. rewrite app_nil_r. reflexivity. Qed.

Lemma trace_grows_trans (w1 w2 w3 : World) :
  trace_grows w1 w2 → trace_grows w2 w3 → trace_grows w1 w3.
Proof.
  intros [e1 H1] [e2 H2]. exists (e1 ++ e2). rewrite H2, H1, app_assoc. reflexivity.
Qed.

Lemma keeps_trace_emit (e : event) : keeps trace_grows (emit e).
Proof. intros w. rewrite run_emit. exists [e]. reflexivity. Qed.

Lemma keeps_trace_files (f : list File → list File) :
  keeps trace_grows (modify (λ w, with_files (f (files w)) w)).
Proof. intros w. rewrite run_modify. exists []. cbn. rewrite app_nil_r. reflexivity. Qed.

Lemma keeps_trace_cache (f : gset string → gset string) :
  keeps trace_grows (modify (λ w, with_cache (f (cache w)) w)).
Proof. intros w. rewrite run_modify. exists []. cbn. rewrite app_nil_r. reflexivity. Qed.

Lemma keeps_trace_resolve (ref : reference) (location : option (list file_type)) :
  keeps trace_grows (resolve env ref location).
Proof. intros w. rewrite resolve_frame. apply trace_grows_refl. Qed.

Ltac keeps_trace :=
  keeps_with trace_grows_refl trace_grows_trans
    ltac:(first [ apply keeps_trace_emit
                | apply keeps_trace_resolve
                | apply (keeps_trace_files (Files.record _))
                | apply (keeps_trace_cache (λ c, {[_]} ∪ c)) ]).

(** [get] on a reference that does not resolve raises [NotFoundError]
    and changes nothing, where [has] raises [AttributeError]. *)
Theorem get_unresolved_not_found (ref : reference) (remote : option Remote)
    (location : option (list file_type)) (w : World) :
  (run (resolve env ref location) w).1 = Ok None →
  run (get env partitions_get partition_ref get_stream ref remote location) w
  = (Raise NotFoundError, w).
Proof.
  intros Hres. pose proof (resolve_frame env ref location w) as Hw.
  destruct (run (resolve env ref location) w) as [r w0] eqn:E.
  cbn [fst snd] in *. subst r w0. unfold get.
  rewrite (run_bind_ok _ _ _ _ _ E). reflexivity.
Qed.

(** The [finally] clause of [get]: once the bundle is loaded, [get]
    closes it before it returns or raises, whatever happens in between;
    the close is the last event of the trace. *)
Theorem get_always_closes_bundle (ref : reference) (remote : option Remote)
    (location : option (list file_type)) (d : Identity) (b : Bundle) (w w1 : World) :
  run (resolve env ref location) w = (Ok (Some d), w) →
  run (_get_bundle_by_cache_key env (cache_key (dataset d))) w = (Ok (Some b), w1) →
  ∃ evs,
    trace (run (get env partitions_get partition_ref get_stream ref remote location) w).2
    = trace w1 ++ evs ++ [BundleClose (b_database_path b)].
Proof.
  intros Hres Hload. rewrite (get_loaded ref remote location d b w w1 Hres Hload).
  cbv zeta. rewrite run_try_finally.
  match goal with |- context [run ?c w1] =>
    assert (Hbody : keeps trace_grows c) end.
  { unfold copy_from_remote, cache_put_stream, put_partition, install_partition_file,
      Files.new_file, cache_has, cache_put.
    keeps_trace. }
  specialize (Hbody w1).
  match goal with |- context [run ?c w1] => destruct (run c w1) as [r w2] end.
  cbn [snd] in Hbody. destruct Hbody as [evs Hevs].
  unfold bundle_close. rewrite run_emit. exists evs. cbn [snd trace with_trace].
  rewrite Hevs, app_assoc. reflexivity.
Qed.

(** [get] on a reference to a dataset loads the bundle, closes it and
    returns it; it writes nothing to the ledger. *)
Theorem get_dataset_returns_bundle (ref : reference) (remote : option Remote)
    (location : option (list file_type)) (d : Identity) (b : Bundle) (w w1 : World) :
  run (resolve env ref location) w = (Ok (Some d), w) →
  run (_get_bundle_by_cache_key env (cache_key (dataset d))) w = (Ok (Some b), w1) →
  partition d = None →
  run (get env partitions_get partition_ref get_stream ref remote location) w
  = (Ok (b, None), with_trace (trace w1 ++ [BundleClose (b_database_path b)]) w1).
Proof.
  intros Hres Hload Hp. rewrite (get_loaded ref remote location d b w w1 Hres Hload).
  cbv zeta. rewrite Hp. reflexivity.
Qed.

(** [get] on a reference to a partition that the local cache holds and
    that the ledger does not record for the local cache yet: the ledger
    gains the row of the partition for the local cache, in state
    [installed]; [get] commits and returns the bundle with the partition
    attached.  No remote is consulted, with or without one given. *)
Theorem get_local_partition (ref : reference) (remote : option Remote)
    (location : option (list file_type)) (d : Identity) (dp : Ident) (b : Bundle)
    (part : Partition) (w w1 : World) :
  let row := {| f_ref := vid (p_identity part); f_type := PARTITION;
                f_source_url := repo_id env; f_state := "installed";
                f_path := cache_key (p_identity part) |} in
  run (resolve env ref location) w = (Ok (Some d), w) →
  run (_get_bundle_by_cache_key env (cache_key (dataset d))) w = (Ok (Some b), w1) →
  partition d = Some dp →
  partitions_get b (vid dp) = Some part →
  cache_key (p_identity part) ∈ cache w1 →
  Forall (λ g, ¬ Files.same_key g row) (files w1) →
  run (get env partitions_get partition_ref get_stream ref remote location) w
  = (Ok (b, Some part),
     {| files := files w1 ++ [row];
        datasets := datasets w1;
        cache := cache w1;
        upstream_keys := upstream_keys w1;
        ticks := ticks w1;
        trace := trace w1 ++ [DbCommit; BundleClose (b_database_path b)] |}).
Proof.
  intros row Hres Hload Hp Hpart Hin Hfresh.
  rewrite (get_loaded ref remote location d b w w1 Hres Hload).
  cbv zeta. rewrite Hp, Hpart. rewrite run_try_finally.
  rewrite run_bind, run_cache_has. cbv beta iota.
  rewrite (bool_decide_eq_true_2 _ Hin).
  rewrite run_bind, run_ret. cbv beta iota.
  rewrite run_bind, put_partition_run. cbv beta iota zeta.
  rewrite (bool_decide_eq_true_2 _ Hin). cbn [negb andb].
  rewrite run_ret. unfold bundle_close. rewrite run_emit.
  cbn [trace with_trace files datasets cache upstream_keys ticks default from_option id].
  fold row. rewrite (record_fresh row (files w1) Hfresh).
  rewrite app_nil_r, <- app_assoc. reflexivity.
Qed.

(** Without a bundle row for the dataset in the ledger, [get] drops the
    remote it was given.  For a partition that the local cache does not
    hold it then ends in [UnboundLocalError], raised while the message of
    the [NotFoundError] is built, after closing the bundle; the ledger
    and the cache stay as they were after the load of the bundle. *)
Theorem get_partition_without_bundle_row (ref : reference) (remote : option Remote)
    (location : option (list file_type)) (d : Identity) (dp : Ident) (b : Bundle)
    (part : Partition) (w w1 : World) :
  run (resolve env ref location) w = (Ok (Some d), w) →
  run (_get_bundle_by_cache_key env (cache_key (dataset d))) w = (Ok (Some b), w1) →
  partition d = Some dp →
  partitions_get b (vid dp) = Some part →
  cache_key (p_identity part) ∉ cache w1 →
  filter (λ f, f_type f = BUNDLE ∧ f_ref f = vid (dataset d)) (files w) = [] →
  run (get env partitions_get partition_ref get_stream ref remote location) w
  = (Raise UnboundLocalError,
     with_trace (trace w1 ++ [BundleClose (b_database_path b)]) w1).
Proof.
  intros Hres Hload Hp Hpart Hin Hrows.
  rewrite (get_loaded ref remote location d b w w1 Hres Hload).
  cbv zeta. rewrite Hp, Hpart, Hrows. rewrite run_try_finally.
  rewrite run_bind, run_cache_has. cbv beta iota.
  rewrite (bool_decide_eq_false_2 _ Hin). cbn [get_remote].
  rewrite run_bind, run_raise. reflexivity.
Qed.


End Get.

Lemma get_unresolved_not_found_witness :
  run (get (Demo.plain []) Cases.partitions_get (λ _, None) (λ _ _, true)
         (RefString "nothing") None None) Demo.empty
  = (Raise NotFoundError, Demo.empty).
Proof.
  exact (get_unresolved_not_found (Demo.plain []) Cases.partitions_get (λ _, None)
           (λ _ _, true) (RefString "nothing") None None Demo.empty eq_refl).
Defined.

Lemma get_always_closes_bundle_witness :
  ∃ evs,
    trace (run (get Demo.resolving_partition Cases.partitions_get (λ _, None)
                  (λ _ _, false) (RefString "part.db") (Some (Demo.r1 [])) None)
             (Demo.holding "a-0.0.1.db" "installed" ∅)).2
    = [] ++ evs ++ [BundleClose "a-0.0.1.db"].
Proof.
  exact (get_always_closes_bundle Demo.resolving_partition Cases.partitions_get
           (λ _, None) (λ _ _, false) (RefString "part.db") (Some (Demo.r1 [])) None
           {| dataset := Demo.ident_of "a-0.0.1.db"; is_bundle := false;
              partition := Some (Demo.ident_of "part.db"); bundle_path := None |}
           (Demo.bundle_at "a-0.0.1.db")
           (Demo.holding "a-0.0.1.db" "installed" ∅)
           (with_cache ({[ "a-0.0.1.db" ]} ∪ {[ "a-0.0.1.db" ]})
              (Demo.holding "a-0.0.1.db" "installed" ∅))
           eq_refl eq_refl).
Defined.

(** In the library of the witness the remote has no stream for the
    partition: [get] raises [NotFoundError], and has closed the
    bundle. *)
Example get_closes_bundle_demo :
  let '(r, w') := run (get Demo.resolving_partition Cases.partitions_get (λ _, None)
                         (λ _ _, false) (RefString "part.db") (Some (Demo.r1 [])) None)
                    (Demo.holding "a-0.0.1.db" "installed" ∅) in
  r = Raise NotFoundError ∧ trace w' = [BundleClose "a-0.0.1.db"].
Proof. vm_compute. split; reflexivity. Qed.

Lemma get_dataset_returns_bundle_witness :
  run (get Demo.resolving Cases.partitions_get (λ _, None) (λ _ _, true)
         (RefString "a-0.0.1.db") None None) Demo.empty
  = (Ok (Demo.bundle_at "a-0.0.1.db", None),
     with_trace ([] ++ [BundleClose "a-0.0.1.db"])
       (with_cache ({[ "a-0.0.1.db" ]} ∪ ∅) Demo.empty)).
Proof.
  exact (get_dataset_returns_bundle Demo.resolving Cases.partitions_get (λ _, None)
           (λ _ _, true) (RefString "a-0.0.1.db") None None
           (Demo.identity_of "a-0.0.1.db") (Demo.bundle_at "a-0.0.1.db")
           Demo.empty (with_cache ({[ "a-0.0.1.db" ]} ∪ ∅) Demo.empty)
           eq_refl eq_refl eq_refl).
Defined.

Lemma get_local_partition_witness :
  let w1 := with_cache ({[ "a-0.0.1.db" ]} ∪ cache Cases.with_partition)
              Cases.with_partition in
  run (get Demo.resolving_partition Cases.partitions_get (λ _, None) (λ _ _, true)
         (RefString "part.db") None None) Cases.with_partition
  = (Ok (Demo.bundle_at "a-0.0.1.db", Some (Demo.partition_at "part.db")),
     {| files := files w1 ++ [Demo.row "part.db" PARTITION "installed"];
        datasets := datasets w1;
        cache := cache w1;
        upstream_keys := upstream_keys w1;
        ticks := ticks w1;
        trace := trace w1 ++ [DbCommit; BundleClose "a-0.0.1.db"] |}).
Proof.
  refine (get_local_partition Demo.resolving_partition Cases.partitions_get (λ _, None)
            (λ _ _, true) (RefString "part.db") None None
            {| dataset := Demo.ident_of "a-0.0.1.db"; is_bundle := false;
               partition := Some (Demo.ident_of "part.db"); bundle_path := None |}
            (Demo.ident_of "part.db") (Demo.bundle_at "a-0.0.1.db")
            (Demo.partition_at "part.db") Cases.with_partition
            (with_cache ({[ "a-0.0.1.db" ]} ∪ cache Cases.with_partition)
               Cases.with_partition)
            eq_refl eq_refl eq_refl eq_refl _ _).
  - refine (bool_decide_unpack _ _). vm_compute. exact I.
  - refine (bool_decide_unpack _ _). vm_compute. exact I.
Defined.

(** In the library of the witness the ledger has the row of the bundle;
    after [get] it has the row of the partition as well. *)
Example get_local_partition_demo :
  let w' := (run (get Demo.resolving_partition Cases.partitions_get (λ _, None)
                    (λ _ _, true) (RefString "part.db") None None)
               Cases.with_partition).2 in
  (λ f, (f_ref f, f_type f, f_state f)) <$> files w'
  = [("vid:a-0.0.1.db", BUNDLE, "installed"); ("vid:part.db", PARTITION, "installed")].
Proof. vm_compute. reflexivity. Qed.

Lemma get_partition_without_bundle_row_witness :
  run (get Demo.resolving_partition Cases.partitions_get (λ _, None) (λ _ _, true)
         (RefString "part.db") (Some (Demo.r1 [])) None) Demo.empty
  = (Raise UnboundLocalError,
     with_trace ([] ++ [BundleClose "a-0.0.1.db"])
       (with_cache ({[ "a-0.0.1.db" ]} ∪ ∅) Demo.empty)).
Proof.
  refine (get_partition_without_bundle_row Demo.resolving_partition
            Cases.partitions_get (λ _, None) (λ _ _, true)
            (RefString "part.db") (Some (Demo.r1 [])) None
            {| dataset := Demo.ident_of "a-0.0.1.db"; is_bundle := false;
               partition := Some (Demo.ident_of "part.db"); bundle_path := None |}
            (Demo.ident_of "part.db") (Demo.bundle_at "a-0.0.1.db")
            (Demo.partition_at "part.db") Demo.empty
            (with_cache ({[ "a-0.0.1.db" ]} ∪ ∅) Demo.empty)
            eq_refl eq_refl eq_refl eq_refl _ eq_refl).
  refine (bool_decide_unpack _ _). vm_compute. exact I.
Defined.


(** ** [locate] *)

Lemma insert_by_sorted {A} (key : A → nat) (x : A) (l : list A) :
  StronglySorted (λ a b, (key a ≤ key b)%nat) l →
  StronglySorted (λ a b, (key a ≤ key b)%nat) (insert_by key x l).
Proof.
  intros Hl. induction Hl as [|y l Hl IH Hy]; cbn [insert_by].
  - repeat constructor.
  - destruct (key x <=? key y)%nat eqn:Hxy.
    + apply Nat.leb_le in Hxy. constructor; [constructor; assumption|].
      constructor; [exact Hxy|]. eapply Forall_impl; [exact Hy|].
      intros z Hz. cbn in *. lia.
    + apply Nat.leb_gt in Hxy. constructor; [exact IH|].
      apply Forall_forall. intros z Hz.
      assert (Hin : z = x ∨ z ∈ l).
      { clear -Hz. induction l as [|u l IHl]; cbn [insert_by] in Hz.
        - apply list_elem_of_singleton in Hz. auto.
        - destruct (key x <=? key u)%nat.
          + apply elem_of_cons in Hz as [->|Hz]; [auto | right; exact Hz].
          + apply elem_of_cons in Hz as [->|Hz]; [right; left|].
            destruct (IHl Hz) as [->|H]; [auto | right; right; exact H]. }
      destruct Hin as [->|Hin]; [lia|].
      rewrite Forall_forall in Hy. exact (Hy z Hin).
Qed.

Lemma sorted_by_sorted {A} (key : A → nat) (l : list A) :
  StronglySorted (λ a b, (key a ≤ key b)%nat) (sorted_by key l).
Proof.
  unfold sorted_by. induction l as [|x l IH]; cbn [foldr]; [constructor|].
  apply insert_by_sorted, IH.
Qed.

(** The first element of a sorted list that satisfies a test is a least
    one among those that satisfy it. *)
Lemma head_filter_sorted {A} (key : A → nat) (P : A → Prop) `{∀ x, Decision (P x)}
    (l : list A) :
  StronglySorted (λ a b, (key a ≤ key b)%nat) l →
  match head (filter P l) with
  | Some r => P r ∧ r ∈ l ∧ ∀ r', r' ∈ l → P r' → (key r ≤ key r')%nat
  | None => ∀ r, r ∈ l → ¬ P r
  end.
Proof.
  intros Hl. induction Hl as [|y l Hl IH Hy].
  - cbn. intros r Hr. inversion Hr.
  - rewrite filter_cons. destruct (decide (P y)) as [HP|HP].
    + cbn [head]. split; [exact HP|]. split; [left|].
      intros r' Hr' _. apply elem_of_cons in Hr' as [->|Hr']; [lia|].
      rewrite Forall_forall in Hy. exact (Hy r' Hr').
    + destruct (head (filter P l)) as [r|].
      * destruct IH as (HPr & Hin & Hmin). split; [exact HPr|]. split; [right; exact Hin|].
        intros r' Hr' HPr'. apply elem_of_cons in Hr' as [->|Hr']; [contradiction|].
        exact (Hmin r' Hr' HPr').
      * intros r Hr. apply elem_of_cons in Hr as [->|Hr]; [exact HP | exact (IH r Hr)].
Qed.

(** [locate] answers with the identity and the nearest place that has
    its file: the local cache when it holds the key; else a remote that
    has the key and whose priority is least among the remotes that have
    it; else nowhere.  The key is the key of the dataset, also when the
    identity names a partition.  [locate] changes nothing. *)
Theorem locate_finds_nearest (env : Env) (remote_has : Remote → string → bool)
    (priority : Remote → nat) (ref : reference) (i : Identity) (w : World) :
  ref = RefIdentity i
  ∨ (∃ s, ref = RefString s ∧ run (resolve env ref None) w = (Ok (Some i), w)) →
  let key := cache_key (dataset i) in
  let remotes := (λ nr : string * Remote, nr.2) <$> lib_remotes env in
  ∃ loc, run (locate env remote_has priority ref) w = (Ok (Some i, loc), w)
    ∧ match loc with
      | Some AtCache => key ∈ cache w
      | Some (AtRemote r) =>
          (key ∉ cache w) ∧ r ∈ remotes ∧ remote_has r key = true
          ∧ ∀ r', r' ∈ remotes → remote_has r' key = true →
                  (priority r ≤ priority r')%nat
      | None => (key ∉ cache w) ∧ ∀ r, r ∈ remotes → remote_has r key = false
      end.
Proof.
  intros Href key remotes. unfold locate. fold key. fold remotes.
  assert (Hident : run (match ref with
                        | RefString _ => resolve env ref None
                        | RefIdentity i0 => mret (Some i0)
                        end) w = (Ok (Some i), w)).
  { destruct Href as [->|(s & -> & Hres)]; [reflexivity | exact Hres]. }
  rewrite (run_bind_ok _ _ _ _ _ Hident). cbv beta iota.
  rewrite run_bind, run_cache_has. cbv beta iota. fold key.
  destruct (bool_decide (key ∈ cache w)) eqn:Hc.
  { apply bool_decide_eq_true in Hc. exists (Some AtCache). split; [reflexivity | exact Hc]. }
  apply bool_decide_eq_false in Hc.
  pose proof (head_filter_sorted priority (λ r, remote_has r key = true)
                (sorted_by priority remotes) (sorted_by_sorted priority remotes)) as Hhead.
  destruct (head (filter (λ r, remote_has r key = true) (sorted_by priority remotes)))
    as [r|].
  - destruct Hhead as (HP & Hin & Hmin). exists (Some (AtRemote r)).
    split; [reflexivity|]. split; [exact Hc|]. split; [apply sorted_by_elem in Hin; exact Hin|].
    split; [exact HP|]. intros r' Hr' HP'. apply Hmin; [|exact HP'].
    apply sorted_by_elem. exact Hr'.
  - exists None. split; [reflexivity|]. split; [exact Hc|].
    intros r Hr. apply not_true_is_false. apply Hhead. apply sorted_by_elem. exact Hr.
Qed.

Lemma locate_finds_nearest_witness :
  let i := Demo.identity_of "a-0.0.1.db" in
  ∃ loc, run (locate Cases.two_remotes (λ _ _, true) Cases.priority
                (RefString "a-0.0.1.db")) Demo.empty = (Ok (Some i, loc), Demo.empty)
    ∧ match loc with
      | Some AtCache => "a-0.0.1.db" ∈ cache Demo.empty
      | Some (AtRemote r) =>
          ("a-0.0.1.db" ∉ cache Demo.empty)
          ∧ r ∈ (λ nr : string * Remote, nr.2) <$> lib_remotes Cases.two_remotes
          ∧ true = true
          ∧ ∀ r', r' ∈ (λ nr : string * Remote, nr.2) <$> lib_remotes Cases.two_remotes →
                  true = true → (Cases.priority r ≤ Cases.priority r')%nat
      | None => ("a-0.0.1.db" ∉ cache Demo.empty)
                ∧ ∀ r, r ∈ (λ nr : string * Remote, nr.2) <$> lib_remotes Cases.two_remotes →
                       true = false
      end.
Proof.
  refine (locate_finds_nearest Cases.two_remotes (λ _ _, true) Cases.priority
            (RefString "a-0.0.1.db") (Demo.identity_of "a-0.0.1.db") Demo.empty _).
  right. exists "a-0.0.1.db". split; reflexivity.
Defined.

(** In the library of the witness the answer is the remote [near],
    which is listed last. *)
Example locate_demo :
  (run (locate Cases.two_remotes (λ _ _, true) Cases.priority
          (RefString "a-0.0.1.db")) Demo.empty).1
  = Ok (Some (Demo.identity_of "a-0.0.1.db"),
        Some (AtRemote {| r_repo_id := "near"; r_list := Ok [] |})).
Proof. vm_compute. reflexivity. Qed.

(** ** [store], [manifest] and [remove_manifest] *)

Lemma one_maybe_many (P : File → Prop) `{∀ f, Decision (P f)} (w : World) :
  (2 ≤ List.length (filter P (files w)))%nat →
  run (Files.one_maybe P) w = (Raise MultipleResultsFound, w).
Proof.
  intros Hl. unfold Files.one_maybe. rewrite run_try_except, run_bind.
  rewrite (one_many P w Hl). cbv beta iota.
  rewrite decide_False by discriminate. reflexivity.
Qed.

(** [remove_manifest] by the number of ledger rows of type [MANIFEST]
    with the reference [uid].  With none it raises [NotFoundError] and
    changes nothing.  With one, whose manifest can be built, it marks the
    reference updated, deletes that row and no other, and commits.  With
    several it raises [MultipleResultsFound] and changes nothing. *)
Theorem remove_manifest_by_rows (Manifest : Type) (new_manifest : File → result Manifest)
    (uid : string) (w : World) :
  match filter (λ f, f_type f = MANIFEST ∧ f_ref f = uid) (files w) with
  | [] => run (remove_manifest Manifest new_manifest uid) w = (Raise NotFoundError, w)
  | [f] =>
      ∀ m, new_manifest f = Ok m →
        run (remove_manifest Manifest new_manifest uid) w
        = (Ok tt,
           {| files := filter (λ g, g ≠ f) (files w);
              datasets := datasets w;
              cache := cache w;
              upstream_keys := upstream_keys w;
              ticks := ticks w;
              trace := trace w ++ [MarkUpdated (Some uid) None; DbCommit] |})
  | _ :: _ :: _ =>
      run (remove_manifest Manifest new_manifest uid) w
      = (Raise MultipleResultsFound, w)
  end.
Proof.
  destruct (filter (λ f, f_type f = MANIFEST ∧ f_ref f = uid) (files w))
    as [|f [|g l]] eqn:Hfil.
  - unfold remove_manifest, manifest. rewrite run_bind, run_bind.
    rewrite (one_maybe_none _ w Hfil). reflexivity.
  - intros m Hm. unfold remove_manifest, manifest. rewrite run_bind, run_bind.
    rewrite (one_maybe_single _ w f Hfil). cbv beta iota.
    rewrite run_bind, run_lift, Hm. cbv beta iota. rewrite run_ret. cbv beta iota.
    assert (Hf : f_ref f = uid).
    { assert (Hin : f ∈ filter (λ f, f_type f = MANIFEST ∧ f_ref f = uid) (files w))
        by (rewrite Hfil; left).
      apply list_elem_of_filter in Hin as [[_ Hr] _]. exact Hr. }
    unfold mark_updated, session_delete, Files.delete, database_commit.
    run_steps. rewrite Hf, <- app_assoc. reflexivity.
  - unfold remove_manifest, manifest. rewrite run_bind, run_bind.
    rewrite one_maybe_many; [reflexivity|]. rewrite Hfil. cbn. lia.
Qed.

(** [store] looks for the row of type [STORE] by reference first and by
    path second: a row whose reference is [uid] is returned before the
    path is compared, a row whose path is [uid] is returned when no
    reference matches, [None] when neither matches; two rows under one
    reference raise [MultipleResultsFound]. *)
Theorem store_by_ref_then_path (uid : string) (w : World) :
  match filter (λ f, f_type f = STORE ∧ f_ref f = uid) (files w) with
  | [] =>
      match filter (λ f, f_type f = STORE ∧ f_path f = uid) (files w) with
      | [] => run (store uid) w = (Ok None, w)
      | [g] => run (store uid) w = (Ok (Some g), w)
      | _ :: _ :: _ => run (store uid) w = (Raise MultipleResultsFound, w)
      end
  | [f] => run (store uid) w = (Ok (Some f), w)
  | _ :: _ :: _ => run (store uid) w = (Raise MultipleResultsFound, w)
  end.
Proof.
  unfold store.
  destruct (filter (λ f, f_type f = STORE ∧ f_ref f = uid) (files w))
    as [|f [|f' l]] eqn:Href.
  - destruct (filter (λ f, f_type f = STORE ∧ f_path f = uid) (files w))
      as [|g [|g' l]] eqn:Hpath;
      rewrite run_bind, (one_maybe_none _ w Href); cbv beta iota.
    + apply one_maybe_none, Hpath.
    + apply one_maybe_single, Hpath.
    + apply one_maybe_many. rewrite Hpath. cbn. lia.
  - rewrite run_bind, (one_maybe_single _ w f Href). reflexivity.
  - rewrite run_bind, one_maybe_many; [reflexivity|]. rewrite Href. cbn. lia.
Qed.

(** ** [has] after [put_bundle] and after [remove] *)

Lemma remove_cache (env : Env) (b : Bundle) (i : Identity) (w : World) :
  b_identity b = Ok i →
  cache (run (remove env b) w).2 = cache w ∖ {[cache_key (dataset i)]}.
Proof.
  intros Hi. unfold remove, database_remove_bundle, Files.delete, mark_updated,
    cache_remove.
  rewrite Hi. run_steps. rewrite for_each_emit. reflexivity.
Qed.

(** [has] answers from the local cache, which [put_bundle] fills and
    [remove] empties; the resolver is asked at every call, and each call
    has its environment.  Once [put_bundle] has installed a bundle,
    [has] answers true for a reference that resolves to the dataset of
    the bundle.  Once [remove] has removed the bundle, [has] does not
    answer true for such a reference, whatever the resolver says then:
    it answers false when the reference still resolves to the dataset,
    and raises [AttributeError] when it resolves to nothing. *)
Theorem has_follows_put_and_remove (env env1 : Env) (b : Bundle)
    (source : option string) (install_partitions : bool) (file_state : string)
    (commit : bool) (i d : Identity) (ref : reference) (w : World) :
  let w1 := (run (put_bundle env b source install_partitions file_state commit false)
               w).2 in
  let w2 := (run (remove env b) w1).2 in
  b_identity b = Ok i →
  install_bundle env b = None →
  unrecorded (vid (dataset i)) (files w) →
  (run (resolve env1 ref None) w1).1 = Ok (Some d) →
  partition d = None →
  cache_key (dataset d) = cache_key (dataset i) →
  run (has env1 ref None) w1 = (Ok true, w1)
  ∧ ∀ env2,
      match (run (resolve env2 ref None) w2).1 with
      | Ok (Some d2) =>
          partition d2 = None →
          cache_key (dataset d2) = cache_key (dataset i) →
          run (has env2 ref None) w2 = (Ok false, w2)
      | Ok None => run (has env2 ref None) w2 = (Raise AttributeError, w2)
      | Raise e => run (has env2 ref None) w2 = (Raise e, w2)
      end.
Proof.
  intros w1 w2 Hi He Hu Hres Hp Hk.
  assert (Hrun : ∀ env0 w0,
            run (resolve env0 ref None) w0 = ((run (resolve env0 ref None) w0).1, w0)).
  { intros env0 w0. rewrite <- (resolve_frame env0 ref None w0) at 3.
    destruct (run (resolve env0 ref None) w0). reflexivity. }
  split.
  - unfold has. rewrite run_bind, Hrun, Hres. cbv beta iota. rewrite Hp, Hk.
    rewrite run_cache_has.
    destruct (put_bundle_installs env b source install_partitions file_state commit
                i w Hi He Hu) as (w1' & H1 & H2 & _).
    subst w1. rewrite H1. cbn [snd]. rewrite bool_decide_eq_true_2 by exact H2.
    reflexivity.
  - intros env2. unfold has. rewrite run_bind, Hrun.
    destruct (run (resolve env2 ref None) w2).1 as [[d2|]|e]; cbv beta iota;
      [|reflexivity..].
    intros Hp2 Hk2. rewrite Hp2, Hk2, run_cache_has.
    rewrite bool_decide_eq_false_2; [reflexivity|].
    subst w2. rewrite (remove_cache env b i w1 Hi). intros Hin.
    apply elem_of_difference in Hin as [_ Hin]. apply Hin, elem_of_singleton.
    reflexivity.
Qed.

Lemma has_follows_put_and_remove_witness :
  let w1 := (run (put_bundle Demo.resolving (Demo.bundle_at "a-0.0.1.db") None true
                    "installed" true false) Demo.empty).2 in
  let w2 := (run (remove Demo.resolving (Demo.bundle_at "a-0.0.1.db")) w1).2 in
  run (has Demo.resolving (RefString "a-0.0.1.db") None) w1 = (Ok true, w1)
  ∧ ∀ env2,
      match (run (resolve env2 (RefString "a-0.0.1.db") None) w2).1 with
      | Ok (Some d2) =>
          partition d2 = None →
          cache_key (dataset d2) = cache_key (dataset (Demo.identity_of "a-0.0.1.db")) →
          run (has env2 (RefString "a-0.0.1.db") None) w2 = (Ok false, w2)
      | Ok None =>
          run (has env2 (RefString "a-0.0.1.db") None) w2 = (Raise AttributeError, w2)
      | Raise e => run (has env2 (RefString "a-0.0.1.db") None) w2 = (Raise e, w2)
      end.
Proof.
  exact (has_follows_put_and_remove Demo.resolving Demo.resolving
           (Demo.bundle_at "a-0.0.1.db") None
           true "installed" true (Demo.identity_of "a-0.0.1.db")
           (Demo.identity_of "a-0.0.1.db") (RefString "a-0.0.1.db") Demo.empty
           eq_refl eq_refl (Forall_nil_2 _) eq_refl eq_refl eq_refl).
Defined.

(** After the removal a resolver that finds the dataset no more makes
    [has] raise; one that still finds it makes [has] answer false. *)
Example has_after_remove_demo :
  let w1 := (run (put_bundle Demo.resolving (Demo.bundle_at "a-0.0.1.db") None true
                    "installed" true false) Demo.empty).2 in
  let w2 := (run (remove Demo.resolving (Demo.bundle_at "a-0.0.1.db")) w1).2 in
  (run (has (Demo.plain []) (RefString "a-0.0.1.db") None) w2).1 = Raise AttributeError
  ∧ (run (has Demo.resolving (RefString "a-0.0.1.db") None) w2).1 = Ok false.
Proof. vm_compute. split; reflexivity. Qed.

(** ** [versioned_datasets] *)

(** What the map holds after the loop has read the rows [done]: under an
    id, the first row of that id, and under its [other_versions] the
    rows of that id that follow it. *)
Lemma versioned_invariant (done : list DatasetRow) :
  NoDup (ds_vid <$> done) →
  (∀ id, foldl versioned_step ∅ done !! id = None → ∀ x, x ∈ done → ds_id x ≠ id)
  ∧ (∀ id e, foldl versioned_step ∅ done !! id = Some e →
       ∃ l1 l2, done = l1 ++ ve_dict e :: l2
         ∧ ds_id (ve_dict e) = id
         ∧ (∀ x, x ∈ l1 → ds_id x ≠ id)
         ∧ (∀ v r, other_versions e !! v = Some r
                   ↔ r ∈ l2 ∧ ds_id r = id ∧ ds_vid r = v)).
Proof.
  induction done as [|ds done IH] using rev_ind; intros Hnd.
  { split; [intros id _ x Hx; inversion Hx|]. intros id e He.
    cbn [foldl] in He. rewrite lookup_empty in He. discriminate. }
  rewrite fmap_app in Hnd. apply NoDup_app in Hnd as (Hnd & Hfresh & _).
  destruct (IH Hnd) as [INone ISome]. clear IH.
  rewrite foldl_app. cbn [foldl]. set (m := foldl versioned_step ∅ done) in *.
  unfold versioned_step. destruct (m !! ds_id ds) as [e0|] eqn:Hm.
  - destruct (ISome _ _ Hm) as (l1 & l2 & Hdone & Hid & Hl1 & Hov). split.
    + intros id Hlook x Hx. destruct (decide (id = ds_id ds)) as [->|Hne].
      { rewrite lookup_insert_eq in Hlook. discriminate. }
      rewrite lookup_insert_ne in Hlook by congruence.
      apply elem_of_app in Hx as [Hx|Hx]; [exact (INone id Hlook x Hx)|].
      apply list_elem_of_singleton in Hx as ->. congruence.
    + intros id e Hlook. destruct (decide (id = ds_id ds)) as [->|Hne].
      * rewrite lookup_insert_eq in Hlook. injection Hlook as <-. cbn [ve_dict other_versions].
        exists l1, (l2 ++ [ds]). split; [rewrite Hdone, <- app_assoc; reflexivity|].
        split; [exact Hid|]. split; [exact Hl1|].
        intros v r. destruct (decide (v = ds_vid ds)) as [->|Hv].
        -- rewrite lookup_insert_eq. split.
           ++ intros [= <-]. split; [apply elem_of_app; right; left | auto].
           ++ intros (Hr & _ & Hrv). apply elem_of_app in Hr as [Hr|Hr].
              ** exfalso. apply (Hfresh (ds_vid ds)).
                 --- apply list_elem_of_fmap. exists r. split; [auto|].
                     rewrite Hdone. apply elem_of_app. right. right. exact Hr.
                 --- left.
              ** apply list_elem_of_singleton in Hr as ->. reflexivity.
        -- rewrite lookup_insert_ne by congruence. rewrite Hov. split.
           ++ intros (Hr & H1 & H2). split; [apply elem_of_app; left; exact Hr | auto].
           ++ intros (Hr & H1 & H2). apply elem_of_app in Hr as [Hr|Hr]; [auto|].
              apply list_elem_of_singleton in Hr as ->. congruence.
      * rewrite lookup_insert_ne in Hlook by congruence.
        destruct (ISome _ _ Hlook) as (k1 & k2 & Hd & Hi & Hk1 & Hk).
        exists k1, (k2 ++ [ds]). split; [rewrite Hd, <- app_assoc; reflexivity|].
        split; [exact Hi|]. split; [exact Hk1|].
        intros v r. rewrite Hk. split.
        -- intros (Hr & H1 & H2). split; [apply elem_of_app; left; exact Hr | auto].
        -- intros (Hr & H1 & H2). apply elem_of_app in Hr as [Hr|Hr]; [auto|].
           apply list_elem_of_singleton in Hr as ->. congruence.
  - split.
    + intros id Hlook x Hx. destruct (decide (id = ds_id ds)) as [->|Hne].
      { rewrite lookup_insert_eq in Hlook. discriminate. }
      rewrite lookup_insert_ne in Hlook by congruence.
      apply elem_of_app in Hx as [Hx|Hx]; [exact (INone id Hlook x Hx)|].
      apply list_elem_of_singleton in Hx as ->. congruence.
    + intros id e Hlook. destruct (decide (id = ds_id ds)) as [->|Hne].
      * rewrite lookup_insert_eq in Hlook. injection Hlook as <-. cbn [ve_dict other_versions].
        exists done, []. split; [reflexivity|]. split; [reflexivity|].
        split; [exact (INone _ Hm)|].
        intros v r. rewrite lookup_empty. split; [discriminate|].
        intros (Hr & _). inversion Hr.
      * rewrite lookup_insert_ne in Hlook by congruence.
        destruct (ISome _ _ Hlook) as (k1 & k2 & Hd & Hi & Hk1 & Hk).
        exists k1, (k2 ++ [ds]). split; [rewrite Hd, <- app_assoc; reflexivity|].
        split; [exact Hi|]. split; [exact Hk1|].
        intros v r. rewrite Hk. split.
        -- intros (Hr & H1 & H2). split; [apply elem_of_app; left; exact Hr | auto].
        -- intros (Hr & H1 & H2). apply elem_of_app in Hr as [Hr|Hr]; [auto|].
           apply list_elem_of_singleton in Hr as ->. congruence.
Qed.

(** [versioned_datasets] on the rows of the catalog, which the query
    orders by falling revision and whose vids are distinct.  Every row is
    accounted for under its id: it is the dict of the entry, or it stands
    under its vid among the other versions of the entry.  The dict of an
    entry is a row of the id of highest revision, and the other versions
    of an entry are rows of that id, the dict itself not among them. *)
Theorem versioned_datasets_latest (rows : list DatasetRow) :
  StronglySorted (λ a b, ds_revision b ≤ ds_revision a) rows →
  NoDup (ds_vid <$> rows) →
  (∀ r, r ∈ rows →
     ∃ e, versioned_datasets rows !! ds_id r = Some e
       ∧ ds_revision r ≤ ds_revision (ve_dict e)
       ∧ (r = ve_dict e ∨ other_versions e !! ds_vid r = Some r))
  ∧ (∀ id e, versioned_datasets rows !! id = Some e →
       ve_dict e ∈ rows ∧ ds_id (ve_dict e) = id
       ∧ other_versions e !! ds_vid (ve_dict e) = None
       ∧ ∀ v r, other_versions e !! v = Some r →
                r ∈ rows ∧ ds_id r = id ∧ ds_vid r = v).
Proof.
  intros Hsorted Hnd. unfold versioned_datasets.
  destruct (versioned_invariant rows Hnd) as [INone ISome]. split.
  - intros r Hr. destruct (foldl versioned_step ∅ rows !! ds_id r) as [e|] eqn:Hm.
    2: { exfalso. exact (INone _ Hm r Hr eq_refl). }
    exists e. split; [reflexivity|].
    destruct (ISome _ _ Hm) as (l1 & l2 & Hrows & Hid & Hl1 & Hov).
    assert (Hcase : r = ve_dict e ∨ r ∈ l2).
    { rewrite Hrows in Hr. apply elem_of_app in Hr as [Hr|Hr].
      - exfalso. exact (Hl1 r Hr eq_refl).
      - apply elem_of_cons in Hr as [->|Hr]; auto. }
    destruct Hcase as [->|Hl2]; [split; [reflexivity | left; reflexivity]|].
    split.
    + rewrite Hrows in Hsorted. apply StronglySorted_app_1_r in Hsorted.
      apply StronglySorted_inv in Hsorted as [_ Hall].
      rewrite Forall_forall in Hall. apply Hall. exact Hl2.
    + right. apply Hov. auto.
  - intros id e Hm. destruct (ISome _ _ Hm) as (l1 & l2 & Hrows & Hid & Hl1 & Hov).
    split; [rewrite Hrows; apply elem_of_app; right; left|]. split; [exact Hid|]. split.
    + destruct (other_versions e !! ds_vid (ve_dict e)) as [r|] eqn:Hr; [|reflexivity].
      exfalso. apply Hov in Hr as (Hin & _ & Hv).
      rewrite Hrows, fmap_app in Hnd. apply NoDup_app in Hnd as (_ & _ & Hnd).
      cbn [fmap list_fmap] in Hnd. apply NoDup_cons in Hnd as [Hnot _].
      apply Hnot. rewrite <- Hv. apply list_elem_of_fmap. exists r. auto.
    + intros v r Hr. apply Hov in Hr as (Hin & H1 & H2).
      split; [rewrite Hrows; apply elem_of_app; right; right; exact Hin | auto].
Qed.

Lemma versioned_datasets_latest_witness :
  let rows := [ {| ds_id := "d1"; ds_vid := "d1003"; ds_revision := 3 |};
                {| ds_id := "d2"; ds_vid := "d2002"; ds_revision := 2 |};
                {| ds_id := "d1"; ds_vid := "d1001"; ds_revision := 1 |} ] in
  (∀ r, r ∈ rows →
     ∃ e, versioned_datasets rows !! ds_id r = Some e
       ∧ ds_revision r ≤ ds_revision (ve_dict e)
       ∧ (r = ve_dict e ∨ other_versions e !! ds_vid r = Some r))
  ∧ (∀ id e, versioned_datasets rows !! id = Some e →
       ve_dict e ∈ rows ∧ ds_id (ve_dict e) = id
       ∧ other_versions e !! ds_vid (ve_dict e) = None
       ∧ ∀ v r, other_versions e !! v = Some r →
                r ∈ rows ∧ ds_id r = id ∧ ds_vid r = v).
Proof.
  refine (versioned_datasets_latest _ _ _).
  - repeat constructor; cbn; lia.
  - refine (bool_decide_unpack _ _). vm_compute. exact I.
Defined.

(** ** The registry of libraries *)

(** [new_library] builds a library once for a name.  After a call that
    has returned a library, the registry holds that library under the
    name of the configuration ([default] when it has none), and every
    later call for the same name returns the same library: the
    configuration of the later call is not read any further and nothing
    is built.  With [reset] the registry holds nothing else
    afterwards. *)
Theorem new_library_builds_once (Config : Type) (config_name : Config → option string)
    (default_config : result Config) (Parts : Type)
    (_new_library : Config → result (LibraryObject Parts))
    (c : Config) (reset : bool) (libraries libraries' : gmap string (LibraryObject Parts))
    (l : LibraryObject Parts) :
  new_library Config config_name default_config Parts _new_library
    (Some c) reset libraries = (Ok l, libraries') →
  let name := default "default" (config_name c) in
  libraries' !! name = Some l
  ∧ (reset = true → libraries' = {[ name := l ]})
  ∧ ∀ c', config_name c' = config_name c →
      new_library Config config_name default_config Parts _new_library
        (Some c') false libraries' = (Ok l, libraries').
Proof.
  intros Hcall name. unfold new_library in Hcall. fold name in Hcall.
  set (libs0 := if reset then ∅ else libraries) in Hcall.
  assert (Hshape : ∃ x, l = clear_dependencies Parts x
                        ∧ libraries' = <[name := l]> libs0
                        ∧ (libs0 !! name = None ∨ libs0 !! name = Some x)).
  { destruct (libs0 !! name) as [x|] eqn:Hl.
    - injection Hcall as <- <-. exists x. auto.
    - destruct (_new_library c) as [x|e]; [|discriminate].
      injection Hcall as <- <-. exists x. auto. }
  destruct Hshape as (x & Hl & Hlibs & Hbefore).
  assert (Hlook : libraries' !! name = Some l) by (rewrite Hlibs; apply lookup_insert_eq).
  split; [exact Hlook|]. split.
  - intros ->. subst libs0. rewrite Hlibs. reflexivity.
  - intros c' Hname. unfold new_library. rewrite Hname. fold name. rewrite Hlook.
    assert (Hclear : clear_dependencies Parts l = l) by (rewrite Hl; reflexivity).
    rewrite Hclear. f_equal. apply insert_id. exact Hlook.
Qed.

Lemma new_library_builds_once_witness :
  let build := λ c : option string,
    Ok {| parts := default "NONE" c; _dependencies := Some [] |} in
  let l := {| parts := "census"; _dependencies := None |} in
  ({[ "census" := l ]} : gmap string (LibraryObject string)) !! "census" = Some l
  ∧ (true = true → ({[ "census" := l ]} : gmap string (LibraryObject string))
                   = {[ "census" := l ]})
  ∧ ∀ c', id c' = Some "census" →
      new_library (option string) id (Raise ConfigurationError) string build
        (Some c') false {[ "census" := l ]} = (Ok l, {[ "census" := l ]}).
Proof.
  exact (new_library_builds_once (option string) id (Raise ConfigurationError) string
           (λ c, Ok {| parts := default "NONE" c; _dependencies := Some [] |})
           (Some "census") true ∅ {[ "census" := {| parts := "census"; _dependencies := None |} ]}
           {| parts := "census"; _dependencies := None |} eq_refl).
Defined.

(** ** The parser of search phrases *)

Section ParseProperties.

Import SearchTerms.

Variable stem : string → string.

Lemma append_last_some (t : token) (bymarker : list (string * list token)) :
  bymarker ≠ [] →
  ∃ bymarker', append_last t bymarker = Some bymarker' ∧ bymarker' ≠ [].
Proof.
  induction bymarker as [|[m ts] [|g rest] IH]; intros Hne; [contradiction| |].
  - eexists. split; [reflexivity | discriminate].
  - destruct IH as (r & Hr & _); [discriminate|].
    cbn [append_last] in *. rewrite Hr. eexists. split; [reflexivity | discriminate].
Qed.

Lemma group_by_marker_returns (toks : list token)
    (bymarker : list (string * list token)) :
  bymarker ≠ [] → ∃ r, group_by_marker toks bymarker = Returns r.
Proof.
  revert bymarker. induction toks as [|t toks IH]; intros bymarker Hne.
  - eexists. reflexivity.
  - destruct (append_last_some t bymarker Hne) as (bm & Hbm & Hbm').
    destruct t; cbn [group_by_marker]; rewrite ?Hbm; try (apply IH; exact Hbm').
    apply IH. destruct bymarker; discriminate.
Qed.

(** A phrase must begin with a term or a marker.  [parse] raises
    [IndexError] on no token at all, from [toks[0]], and on a phrase
    whose first token is a year, from [bymarker[-1]], and on no other
    phrase. *)
Theorem parse_index_error (toks : list token) :
  parse stem toks = Raises IndexError
  ↔ toks = [] ∨ ∃ y rest, toks = YEAR y :: rest.
Proof.
  split.
  - destruct toks as [|t0 rest]; [auto|]. intros Hparse.
    destruct t0 as [s|s|m|y]; [exfalso..|right; eauto].
    all: unfold parse in Hparse; cbv beta iota zeta in Hparse.
    all: match type of Hparse with
         | context [group_by_marker (MARKER ?m :: ?ts) []] =>
             destruct (group_by_marker_returns ts [(m, [])]) as [r Hr]; [discriminate|];
               change (group_by_marker (MARKER m :: ts) [])
                 with (group_by_marker ts [(m, [])]) in Hparse;
               rewrite Hr in Hparse
         end.
    all: destruct (mapM _ _); discriminate.
  - intros [->|(y & rest & ->)]; reflexivity.
Qed.

Lemma group_plain (ts acc : list token) (m : string) :
  Forall (λ t, is_marker t = false) ts →
  group_by_marker ts [(m, acc)] = Returns [(m, acc ++ ts)].
Proof.
  intros Hts. revert acc. induction Hts as [|t ts Ht _ IH]; intros acc.
  - cbn. rewrite app_nil_r. reflexivity.
  - destruct t; try discriminate; cbn [group_by_marker append_last];
      rewrite IH, <- app_assoc; reflexivity.
Qed.

Lemma convert_about (ts : list token) : convert stem ("about", ts) = ("about", ts).
Proof. destruct ts as [|[] [|]]; reflexivity. Qed.

Lemma strings_of_year (ts : list token) :
  Exists (λ t, is_year t = true) ts → strings_of (token_value <$> ts) = None.
Proof.
  unfold strings_of. induction 1 as [t ts Ht|t ts _ IH].
  - destruct t; try discriminate. reflexivity.
  - cbn [fmap list_fmap mapM]. cbn in IH. rewrite IH.
    destruct (token_value t); reflexivity.
Qed.

(** A phrase without markers is a phrase about its terms.  A single
    term is returned as it is under [about].  Several terms are joined
    with [OR], in parentheses; when a year is among them the join raises
    [TypeError]. *)
Theorem parse_plain_phrase (t0 : token) (rest : list token) :
  Forall (λ t, is_marker t = false) (t0 :: rest) →
  is_year t0 = false →
  parse stem (t0 :: rest) =
  match rest with
  | [] => Returns {[ "about" := Single (token_value t0) ]}
  | _ :: _ =>
      match strings_of (token_value <$> t0 :: rest) with
      | Some ss =>
          Returns {[ "about" := Single (Str ("(" ++ join_strings " OR " ss ++ ")")) ]}
      | None => Raises TypeError
      end
  end
  ∧ (Exists (λ t, is_year t = true) rest → parse stem (t0 :: rest) = Raises TypeError).
Proof.
  intros Hplain Hyear.
  assert (Heq : parse stem (t0 :: rest) =
    match mapM (λ mt : string * list value, (λ g, (mt.1, g)) <$> finish mt.1 mt.2)
            [("about", token_value <$> t0 :: rest)] with
    | Some l => Returns (list_to_map l)
    | None => Raises TypeError
    end).
  { unfold parse.
    assert (Hgroup : group_by_marker
                       (match t0 with
                        | TERM _ | QUOTEDTERM _ => MARKER "about" :: t0 :: rest
                        | _ => t0 :: rest
                        end) []
                     = Returns [("about", t0 :: rest)]).
    { inversion Hplain as [|? ? Ht0 Hrest]; subst.
      destruct t0; try discriminate; cbn [group_by_marker app];
        exact (group_plain (_ :: rest) [] "about" Hplain). }
    rewrite Hgroup. cbn [fmap list_fmap]. rewrite convert_about.
    unfold collect. cbn [foldl fst snd]. rewrite lookup_empty. cbn [default from_option app].
    rewrite insert_empty, map_to_list_singleton. reflexivity. }
  assert (Hmain : parse stem (t0 :: rest) =
    match rest with
    | [] => Returns {[ "about" := Single (token_value t0) ]}
    | _ :: _ =>
        match strings_of (token_value <$> t0 :: rest) with
        | Some ss =>
            Returns {[ "about" := Single (Str ("(" ++ join_strings " OR " ss ++ ")")) ]}
        | None => Raises TypeError
        end
    end).
  { rewrite Heq. destruct rest as [|t1 rest].
    - cbn. rewrite insert_empty. reflexivity.
    - cbn [fmap list_fmap mapM fst snd finish]. unfold join.
      change (contains "about" "in") with false. cbv iota.
      cbn [fmap list_fmap].
      destruct (strings_of (token_value t0 :: token_value t1 :: (token_value <$> rest)))
        as [ss|]; cbn; [rewrite insert_empty|]; reflexivity. }
  split; [exact Hmain|].
  intros Hy. rewrite Hmain. destruct rest as [|t1 rest]; [inversion Hy|].
  rewrite (strings_of_year (t0 :: t1 :: rest)); [reflexivity|].
  right. exact Hy.
Qed.

End ParseProperties.

Lemma parse_plain_phrase_witness :
  SearchTerms.parse id [SearchTerms.TERM "census"; SearchTerms.YEAR 2010] =
  match SearchTerms.strings_of
          (SearchTerms.token_value <$> [SearchTerms.TERM "census"; SearchTerms.YEAR 2010]) with
  | Some ss =>
      SearchTerms.Returns
        {[ "about" := SearchTerms.Single
                        (SearchTerms.Str ("(" ++ SearchTerms.join_strings " OR " ss ++ ")")) ]}
  | None => SearchTerms.Raises SearchTerms.TypeError
  end
  ∧ (Exists (λ t, SearchTerms.is_year t = true) [SearchTerms.YEAR 2010] →
     SearchTerms.parse id [SearchTerms.TERM "census"; SearchTerms.YEAR 2010]
     = SearchTerms.Raises SearchTerms.TypeError).
Proof.
  refine (parse_plain_phrase id (SearchTerms.TERM "census") [SearchTerms.YEAR 2010] _ eq_refl).
  repeat constructor.
Defined.

(** Two phrases: the terms of the first are joined, the year of the
    second is fatal. *)
Example parse_demo :
  SearchTerms.parse id [SearchTerms.TERM "census"; SearchTerms.TERM "income"]
  = SearchTerms.Returns
      {[ "about" := SearchTerms.Single (SearchTerms.Str "(census OR income)") ]}
  ∧ SearchTerms.parse id [SearchTerms.TERM "census"; SearchTerms.YEAR 2010]
    = SearchTerms.Raises SearchTerms.TypeError.
Proof. split; vm_compute; reflexivity. Qed.

(** ** [sync_remotes] without [last_only] *)

Lemma same_skips_refl (w : World) : same_skips w w.
Proof. reflexivity. Qed.

Lemma same_skips_trans (w1 w2 w3 : World) :
  same_skips w1 w2 → same_skips w2 w3 → same_skips w1 w3.
Proof. unfold same_skips. congruence. Qed.

Lemma keeps_skips_emit (e : event) :
  skip_logs [e] = [] → keeps same_skips (emit e).
Proof.
  intros He w. rewrite run_emit. unfold same_skips. cbn [snd trace with_trace].
  rewrite skip_logs_app, He, app_nil_r. reflexivity.
Qed.

Lemma keeps_skips_modify (f : World → World) :
  (∀ w, trace (f w) = trace w) → keeps same_skips (modify f).
Proof. intros Hf w. rewrite run_modify. unfold same_skips. cbn [snd]. rewrite Hf. reflexivity. Qed.

Ltac keeps_skips :=
  keeps_with same_skips_refl same_skips_trans
    ltac:(first [ apply keeps_skips_emit; reflexivity
                | apply keeps_skips_modify; intros ?; reflexivity ]).

Lemma keeps_skips_put_bundle (env : Env) (b : Bundle) (source : option string)
    (file_state : string) (commit force : bool) :
  keeps same_skips (put_bundle env b source false file_state commit force).
Proof.
  unfold put_bundle, already_installed, Files.one_maybe, Files.one,
    database_install_bundle, install_bundle_file, Files.new_file, cache_has,
    cache_put, mark_updated.
  keeps_skips.
Qed.

Lemma keeps_skips_sync_key (env : Env) (remote : Remote) (all_keys : list string)
    (vids : option (list string)) (key : string) :
  keeps same_skips (sync_key env remote all_keys None vids key).
Proof.
  unfold sync_key. cbn [truthy andb].
  unfold fetch, _get_bundle_by_cache_key, arc_get_path, install_fetched, cache_has,
    database_commit, database_close, bundle_close.
  keeps_with same_skips_refl same_skips_trans
    ltac:(first [ apply keeps_skips_put_bundle
                | apply keeps_skips_emit;
                  repeat match goal with
                         | |- context [if ?b then _ else _] => destruct b
                         end; reflexivity
                | apply keeps_skips_modify; intros ?; reflexivity ]).
Qed.

(** Without [last_only], [sync_remotes] skips no key as an old version:
    the log gains no entry "Skip old version", for every remote, every
    listing and every outcome of the call. *)
Theorem sync_remotes_all_versions (env : Env) (remotes : option (list (string * Remote)))
    (clean : bool) (vids : option (list string)) (w : World) :
  skip_logs (trace (run (sync_remotes env remotes clean false vids) w).2)
  = skip_logs (trace w).
Proof.
  revert w. change (keeps same_skips (sync_remotes env remotes clean false vids)).
  assert (Hremote : ∀ v nr, keeps same_skips (sync_remote env false vids v nr)).
  { intros v [name remote]. unfold sync_remote, compute_use_only, Files.all.
    keeps_with same_skips_refl same_skips_trans
      ltac:(first [ apply keeps_skips_sync_key
                  | apply keeps_skips_emit; reflexivity ]). }
  unfold sync_remotes, mark_updated, Files.delete.
  keeps_with same_skips_refl same_skips_trans
    ltac:(first [ apply Hremote
                | apply keeps_skips_emit; reflexivity
                | apply keeps_skips_modify; intros ?; reflexivity ]).
Qed.

(** ** The states after a clean [sync_library] *)

Lemma rows_from_sync_refl (env : Env) (w : World) : rows_from_sync env w w.
Proof. intros H. exact H. Qed.

Lemma rows_from_sync_trans (env : Env) (w1 w2 w3 : World) :
  rows_from_sync env w1 w2 → rows_from_sync env w2 w3 → rows_from_sync env w1 w3.
Proof. intros H12 H23 H1. exact (H23 (H12 H1)). Qed.

Lemma keeps_rows_same (env : Env) (f : World → World) :
  (∀ w, files (f w) = files w) → keeps (rows_from_sync env) (modify f).
Proof. intros Hf w. rewrite run_modify. intros H. cbn [snd]. rewrite Hf. exact H. Qed.

Lemma keeps_rows_emit (env : Env) (e : event) : keeps (rows_from_sync env) (emit e).
Proof. intros w. rewrite run_emit. intros H. exact H. Qed.

Lemma keeps_rows_new_file (env : Env) (f : File) (commit : bool) :
  written_by_sync env f → keeps (rows_from_sync env) (Files.new_file f commit).
Proof.
  intros (Hinst & Hs & Hst) w. rewrite new_file_run. intros Hinv g Hg Hg'.
  cbn [snd files] in Hg.
  apply record_elem_inv in Hg as [Hl|[->|(h & Hh & (_ & Ht & _) & ->)]].
  - exact (Hinv g Hl Hg').
  - auto.
  - destruct (enter_fields f h) as (_ & _ & -> & _ & [-> | ->]); [auto|].
    split; [exact Hs|]. apply (Hinv h Hh).
    unfold Files.installed in *. rewrite Ht. exact Hinst.
Qed.

Ltac keeps_rows env :=
  keeps_with (rows_from_sync_refl env) (rows_from_sync_trans env)
    ltac:(first [ apply keeps_rows_emit
                | apply keeps_rows_same; intros ?; reflexivity
                | apply keeps_rows_new_file;
                  repeat split; solve [ reflexivity | left; reflexivity | right; reflexivity ] ]).

Lemma keeps_rows_install_found (env : Env) (b : Bundle) :
  keeps (rows_from_sync env) (install_found env b).
Proof.
  unfold install_found, put_bundle, put_partition, already_installed,
    Files.one_maybe, Files.one, database_install_bundle, install_bundle_file,
    install_partition_file, cache_has, cache_put, mark_updated, database_commit,
    database_close, bundle_close.
  keeps_rows env.
Qed.

(** A clean rebuild forgets what was new.  After [sync_library] with
    [clean], whatever the cache directory holds and however the call
    ends, every bundle or partition row of the ledger is recorded for
    the local cache in state [installed]; no record is in state [new],
    so that [new_files] is empty and [push] finds nothing to push. *)
Theorem sync_library_clean_resets_states (env : Env) (tree : dir) (w : World) :
  let w' := (run (sync_library env tree true) w).2 in
  (∀ f, f ∈ files w' → Files.installed f →
        f_source_url f = repo_id env ∧ f_state f = "installed")
  ∧ run new_files w' = (Ok [], w').
Proof.
  intros w'.
  assert (Hrows : ∀ f, f ∈ files w' → Files.installed f →
                       f_source_url f = repo_id env ∧ f_state f = "installed").
  { subst w'. unfold sync_library. rewrite run_bind, run_bind.
    unfold Files.delete at 1. rewrite run_modify. cbv beta iota.
    unfold Files.delete at 1. rewrite run_modify. cbv beta iota.
    match goal with |- context [run ?c ?w0] =>
      assert (Hk : keeps (rows_from_sync env) c);
        [| specialize (Hk w0); destruct (run c w0) as [r w1]; cbn [snd] in * ] end.
    { unfold find_bundles, scan_dir, scan_file, open_file, bundle_close.
      keeps_with (rows_from_sync_refl env) (rows_from_sync_trans env)
        ltac:(first [ apply keeps_rows_install_found | apply keeps_rows_emit ]). }
    intros f Hf Hinst.
    assert (Hf1 : f ∈ files w1) by (destruct r; exact Hf).
    refine (Hk _ f Hf1 Hinst). intros g Hg Hg'. exfalso.
    cbn [files with_files] in Hg.
    apply list_elem_of_filter in Hg as [Hp Hg].
    apply list_elem_of_filter in Hg as [Hb _].
    destruct Hg'; contradiction. }
  split; [exact Hrows|].
  unfold new_files, Files.all. rewrite run_bind, run_get_world. cbv beta iota.
  rewrite filter_none; [reflexivity|]. apply Forall_forall.
  intros f Hf [Hinst Hnew]. destruct (Hrows f Hf Hinst) as [_ Hst]. congruence.
Qed.

(** A library with a bundle in state [new] that sits in the cache
    directory: after the clean rebuild the bundle is [installed]. *)
Example sync_library_clean_demo :
  let w := {| files := [Demo.row "/cache/a-0.0.1.db" BUNDLE "new"];
              datasets := []; cache := ∅; upstream_keys := ∅; ticks := 0; trace := [] |} in
  let w' := (run (sync_library Demo.walking Demo.tree true) w).2 in
  (run new_files w).1 = Ok [Demo.row "/cache/a-0.0.1.db" BUNDLE "new"]
  ∧ (λ f, (f_ref f, f_state f)) <$> files w'
    = [("vid:/cache/a-0.0.1.db", "installed"); ("vid:/cache/src/c-0.0.2.db", "installed")].
Proof. vm_compute. split; reflexivity. Qed.
